(** * Oatmeal: the selection, host matching and bulk deletion engine

    A shallow embedding of [oatmeal.py] and the properties of its
    selection commands.  Python values are modelled as follows:
    - [str] as the [string] of its UTF-8 bytes (equality, [startswith('.')],
      [endswith], [in] and [split] on one ASCII character agree on bytes
      and on code points), [int] as [Z], [list] as [list];
    - a cookie row (the dict built by [cookie_find]) as the record [cookie];
    - the module globals ([whitelist], [blacklist], [selection],
      [interactive]), the cookie database, the two list files and the
      console as the fields of one record [world];
    - a command as a function from [world] to [result], which either
      returns a value or raises a Python exception. *)

From Stdlib Require Import ZArith List String Ascii Bool Lia.
From Stdlib Require Import Sorting.Sorted Sorting.Permutation.
Import ListNotations.

Open Scope string_scope.
Open Scope Z_scope.

(** ** Strings *)

Module Str.

(** [s.startswith(c)] for a one-character [c]. *)
Definition startswith_char (c : ascii) (s : string) : bool :=
  match s with
  | String c' _ => Ascii.eqb c' c
  | EmptyString => false
  end.

(** [s.endswith(suffix)]: some tail of [s] is [suffix]. *)
Fixpoint endswith (s suffix : string) : bool :=
  String.eqb s suffix ||
  match s with
  | String _ s' => endswith s' suffix
  | EmptyString => false
  end.

(** [needle in hay] on two strings: some tail of [hay] starts with
    [needle]. *)
Fixpoint contains (needle hay : string) : bool :=
  String.prefix needle hay ||
  match hay with
  | String _ hay' => contains needle hay'
  | EmptyString => false
  end.

(** [s[1:]] *)
Definition tail (s : string) : string :=
  match s with
  | String _ s' => s'
  | EmptyString => EmptyString
  end.

(** [x in lst] for a list of strings. *)
Definition mem (x : string) (lst : list string) : bool :=
  existsb (String.eqb x) lst.

(** [sep.join(parts)] *)
Fixpoint join (sep : string) (parts : list string) : string :=
  match parts with
  | [] => ""
  | [p] => p
  | p :: rest => p ++ sep ++ join sep rest
  end.

(** [s.split(c)] for a one-character separator: the pieces between the
    occurrences of [c]; always at least one piece. *)
Fixpoint split (c : ascii) (s : string) : list string :=
  match s with
  | EmptyString => [""]
  | String a s' =>
      if Ascii.eqb a c then "" :: split c s'
      else match split c s' with
           | p :: ps => String a p :: ps
           | [] => [String a ""]
           end
  end.

Definition all (p : ascii -> bool) (s : string) : bool :=
  forallb p (list_ascii_of_string s).

Definition nonempty (s : string) : bool :=
  match s with EmptyString => false | _ => true end.

End Str.

(** [a != c] *)
Definition is_not (c : ascii) (a : ascii) : bool := negb (Ascii.eqb a c).

(** ** Host matcher *)

(** [host_match(c_host, bw_host)] *)
Definition host_match (c_host bw_host : string) : bool :=
  if String.eqb c_host bw_host then true
  else if Str.startswith_char "." bw_host && Str.endswith c_host bw_host then true
  else false.

(** ** Integers and their decimal text *)

Module Num.

Definition is_digit (c : ascii) : bool :=
  let n := Z.of_nat (nat_of_ascii c) in (48 <=? n) && (n <=? 57).

Definition digit_val (c : ascii) : Z := Z.of_nat (nat_of_ascii c) - 48.

Definition digit_char (d : Z) : ascii := ascii_of_nat (Z.to_nat (48 + d)).

(** The value of a run of decimal digits, most significant first. *)
Fixpoint decimal (acc : Z) (s : string) : Z :=
  match s with
  | EmptyString => acc
  | String c s' => decimal (10 * acc + digit_val c) s'
  end.

(** The decimal digits of [n >= 0], most significant first; [fuel] bounds
    the number of digits. *)
Fixpoint digits (fuel : nat) (n : Z) : string :=
  match fuel with
  | O => ""
  | S fuel' =>
      (if n <? 10 then "" else digits fuel' (n / 10))
      ++ String (digit_char (n mod 10)) ""
  end.

(** [str(n)] for an [int]. *)
Definition str (n : Z) : string :=
  if n <? 0 then String "-" (digits (S (Z.to_nat (Z.log2 (- n)))) (- n))
  else digits (S (Z.to_nat (Z.log2 n))) n.

(** [s] without its last character when that is a line feed. *)
Fixpoint strip_final_lf (s : string) : option string :=
  match s with
  | EmptyString => None
  | String c EmptyString => if Ascii.eqb c "010" then Some "" else None
  | String c s' =>
      match strip_final_lf s' with
      | Some b => Some (String c b)
      | None => None
      end
  end.

(** [int(s)] on the strings the commands convert: a run of decimal digits,
    which [int] reads as a number, of any size, also when one line feed
    follows it.  [None] stands for every other string; the patterns that
    guard the calls let none of them through (lemmas [int_of_number] and
    [validate_outcome]). *)
Definition int (s : string) : option Z :=
  let body := match strip_final_lf s with Some b => b | None => s end in
  if Str.nonempty body && Str.all is_digit body then Some (decimal 0 body)
  else None.

(** [list(range(start, stop))] *)
Definition range (start stop : Z) : list Z :=
  map (fun k => start + Z.of_nat k) (seq 0 (Z.to_nat (stop - start))).

(** [sorted(l, reverse=True)] on integers, by insertion. *)
Fixpoint insert_desc (x : Z) (l : list Z) : list Z :=
  match l with
  | [] => [x]
  | y :: l' => if y <=? x then x :: l else y :: insert_desc x l'
  end.

Fixpoint sorted_desc (l : list Z) : list Z :=
  match l with
  | [] => []
  | x :: l' => insert_desc x (sorted_desc l')
  end.

End Num.

(** ** The patterns of the range expression

    [re.match('^...$', s)]: the body must match a prefix of [s] that
    reaches the end of [s], or the line feed that ends [s]. *)

Module Re.

Definition dollar (body : string -> bool) (s : string) : bool :=
  body s ||
  match Num.strip_final_lf s with
  | Some b => body b
  | None => false
  end.

Definition is_spec_char (c : ascii) : bool :=
  Num.is_digit c || Ascii.eqb c "-".

(** [[0-9-]+] *)
Definition spec_chars (s : string) : bool :=
  Str.nonempty s && Str.all is_spec_char s.

(** [[0-9]+] *)
Definition number (s : string) : bool :=
  Str.nonempty s && Str.all Num.is_digit s.

(** [[0-9]+-[0-9]+] *)
Definition number_dash_number (s : string) : bool :=
  match Str.split "-" s with
  | [a; b] => number a && number b
  | _ => false
  end.

(** [re.match('^[0-9-]+$', s)] *)
Definition match_spec_chars : string -> bool := dollar spec_chars.
(** [re.match('^[0-9]+-[0-9]+$', s)] *)
Definition match_range : string -> bool := dollar number_dash_number.
(** [re.match('^[0-9]+$', s)] *)
Definition match_single : string -> bool := dollar number.

End Re.

(** ** Python lists *)

Module PyList.

(** The position an index denotes in a list of length [n]: negative
    indices count from the end; [None] is [IndexError]. *)
Definition position (n : nat) (i : Z) : option nat :=
  let i' := if i <? 0 then i + Z.of_nat n else i in
  if (0 <=? i') && (i' <? Z.of_nat n) then Some (Z.to_nat i') else None.

(** [l[i]] *)
Definition getitem {A} (l : list A) (i : Z) : option A :=
  match position (List.length l) i with
  | Some k => nth_error l k
  | None => None
  end.

Fixpoint remove_nth {A} (k : nat) (l : list A) : list A :=
  match l, k with
  | [], _ => []
  | _ :: l', O => l'
  | x :: l', S k' => x :: remove_nth k' l'
  end.

(** [del l[i]] *)
Definition delitem {A} (l : list A) (i : Z) : option (list A) :=
  match position (List.length l) i with
  | Some k => Some (remove_nth k l)
  | None => None
  end.

Definition clamp (n : nat) (i : Z) : Z :=
  if i <? 0 then Z.max 0 (i + Z.of_nat n) else Z.min i (Z.of_nat n).

(** [l[start:stop]] *)
Definition slice {A} (l : list A) (start stop : Z) : list A :=
  let a := clamp (List.length l) start in
  let b := clamp (List.length l) stop in
  firstn (Z.to_nat (b - a)) (skipn (Z.to_nat a) l).

(** [list(enumerate(l))] *)
Definition enumerate {A} (l : list A) : list (Z * A) :=
  combine (map Z.of_nat (seq 0 (List.length l))) l.

End PyList.

(** ** Data model *)

(** A row of the [cookies] table, as the dict that [cookie_find] builds. *)
Record cookie := {
  host_key : string;
  name : string;
  path : string;
  creation_utc : Z;
  last_access_utc : Z;
  expires_utc : Z;
  is_secure : Z;
  is_httponly : Z;
  is_persistent : Z;
  priority : Z;
  samesite : Z;
  value : string
}.

Inductive list_name := WL | BL.

(** What [selection.data] and [selection.type] hold together.  They are
    written by [Selection.set] only, and its calls give these cases:
    - [NoSelection]: the initial [data=None, type=None];
    - [CookieRows rows]: [type='cookies'], [data] the list that
      [cookie_find] returned;
    - [WholeList which]: [type] names the list and [data] IS the list
      object bound to the global [whitelist] or [blacklist];
    - [Matches which found]: [type] names the list and [data] is the new
      list built by the comprehension over it. *)
Inductive selected :=
| NoSelection
| CookieRows (rows : list cookie)
| WholeList (which : list_name)
| Matches (which : list_name) (found : list string).

Record Selection := {
  picked : selected;
  title : option string;
  page : Z
}.

(** The file at [DB_PATH]: [Unreadable] when a statement on it fails with a
    [sqlite3] error, else the rows of table [cookies], kept in the order of
    [ORDER BY creation_utc DESC]. *)
Inductive cookie_db :=
| Unreadable
| Table (rows : list cookie).

Inductive style := Info | Action | Warning | Error.

(** What a command does to the outside and to the shared lists, in program
    order. *)
Inductive event :=
| Print (st : style) (msg : string)
| PrintCookieTable (caption : option string) (first : Z) (rows : list cookie)
| PrintHostTable (caption : option string) (rows : list string)
| SqlDelete (host nm pth : string)
| SqlVacuum
| DelItem (k : nat)
| ClearItems
| AppendHost (which : list_name) (host : string)
| WriteFile (which : list_name) (body : list string).

Record world := {
  whitelist : list string;
  blacklist : list string;
  selection : Selection;
  interactive : bool;
  db : cookie_db;
  wl_file : option (list string);
  bl_file : option (list string);
  (** [Console().size.height] *)
  height : Z;
  (** [datetime.utcnow()], in microseconds since 1970-01-01 *)
  utcnow : Z;
  history : list event
}.

Definition with_history (h : list event) (w : world) : world :=
  {| whitelist := whitelist w; blacklist := blacklist w;
     selection := selection w; interactive := interactive w; db := db w;
     wl_file := wl_file w; bl_file := bl_file w; height := height w;
     utcnow := utcnow w; history := h |}.

Definition with_selection (s : Selection) (w : world) : world :=
  {| whitelist := whitelist w; blacklist := blacklist w;
     selection := s; interactive := interactive w; db := db w;
     wl_file := wl_file w; bl_file := bl_file w; height := height w;
     utcnow := utcnow w; history := history w |}.

Definition with_db (d : cookie_db) (w : world) : world :=
  {| whitelist := whitelist w; blacklist := blacklist w;
     selection := selection w; interactive := interactive w; db := d;
     wl_file := wl_file w; bl_file := bl_file w; height := height w;
     utcnow := utcnow w; history := history w |}.

Definition global_list (which : list_name) (w : world) : list string :=
  match which with WL => whitelist w | BL => blacklist w end.

Definition with_global_list (which : list_name) (l : list string) (w : world)
  : world :=
  {| whitelist := match which with WL => l | BL => whitelist w end;
     blacklist := match which with BL => l | WL => blacklist w end;
     selection := selection w; interactive := interactive w; db := db w;
     wl_file := wl_file w; bl_file := bl_file w; height := height w;
     utcnow := utcnow w; history := history w |}.

Definition with_file (which : list_name) (body : list string) (w : world)
  : world :=
  {| whitelist := whitelist w; blacklist := blacklist w;
     selection := selection w; interactive := interactive w; db := db w;
     wl_file := match which with WL => Some body | BL => wl_file w end;
     bl_file := match which with BL => Some body | WL => bl_file w end;
     height := height w; utcnow := utcnow w; history := history w |}.

Definition with_picked (d : selected) (w : world) : world :=
  with_selection {| picked := d; title := title (selection w);
                    page := page (selection w) |} w.

Definition with_page (p : Z) (w : world) : world :=
  with_selection {| picked := picked (selection w);
                    title := title (selection w); page := p |} w.

(** [selection.type] *)
Definition type (w : world) : option string :=
  match picked (selection w) with
  | NoSelection => None
  | CookieRows _ => Some "cookies"
  | WholeList WL | Matches WL _ => Some "whitelist"
  | WholeList BL | Matches BL _ => Some "blacklist"
  end.

(** [selection.type == 'cookies'] *)
Definition type_is_cookies (w : world) : bool :=
  match type w with
  | Some t => String.eqb t "cookies"
  | None => false
  end.

(** [f'{selection.type}'] *)
Definition type_text (w : world) : string :=
  match type w with Some t => t | None => "None" end.

(** An element of [selection.data]. *)
Inductive item :=
| ACookie (c : cookie)
| AHost (h : string).

(** [selection.data], read through the reference it holds; [None] is
    Python's [None]. *)
Definition data (w : world) : option (list item) :=
  match picked (selection w) with
  | NoSelection => None
  | CookieRows rows => Some (map ACookie rows)
  | WholeList which => Some (map AHost (global_list which w))
  | Matches _ found => Some (map AHost found)
  end.

(** An in-place change of the list object [selection.data] refers to: a
    change of the global list when the selection is that list. *)
Definition mutate_data (f : forall A, list A -> list A) (w : world) : world :=
  match picked (selection w) with
  | NoSelection => w
  | CookieRows rows => with_picked (CookieRows (f _ rows)) w
  | WholeList which => with_global_list which (f _ (global_list which w)) w
  | Matches which found => with_picked (Matches which (f _ found)) w
  end.

(** The selection before any select command ran. *)
Definition no_selection : Selection :=
  {| picked := NoSelection; title := None; page := 0 |}.

(** ** Commands as state transformers that may raise *)

Inductive exn :=
| TypeError
| KeyError
| IndexError
| ValueError
| DatabaseError
| SystemExit (code : Z).

Inductive result (A : Type) :=
| Returns (a : A) (w : world)
| Raises (e : exn) (w : world).
Arguments Returns {A} a w.
Arguments Raises {A} e w.

Definition M (A : Type) := world -> result A.

Definition ret {A} (a : A) : M A := fun w => Returns a w.

Definition bind {A B} (m : M A) (k : A -> M B) : M B :=
  fun w =>
    match m w with
    | Returns a w' => k a w'
    | Raises e w' => Raises e w'
    end.

Definition raise {A} (e : exn) : M A := fun w => Raises e w.

Definition gets {A} (f : world -> A) : M A := fun w => Returns (f w) w.

Definition modify (f : world -> world) : M unit := fun w => Returns tt (f w).

Notation "x <- m ;; k" := (bind m (fun x => k))
  (at level 61, m at next level, right associativity).
Notation "m ;;; k" := (bind m (fun _ => k))
  (at level 61, right associativity).

(** The world a command ends in, whether it returned or raised. *)
Definition final {A} (r : result A) : world :=
  match r with Returns _ w => w | Raises _ w => w end.

Definition emit (e : event) : M unit :=
  modify (fun w => with_history (history w ++ [e]) w).

Fixpoint foldM {A B} (f : B -> A -> M B) (l : list A) (b : B) : M B :=
  match l with
  | [] => ret b
  | a :: l' => b' <- f b a ;; foldM f l' b'
  end.

Fixpoint mapM {A B} (f : A -> M B) (l : list A) : M (list B) :=
  match l with
  | [] => ret []
  | a :: l' => b <- f a ;; bs <- mapM f l' ;; ret (b :: bs)
  end.

(** A command returns [None] or an [int]. *)
Definition retval := option Z.

(** ** Helpers *)

Definition info (msg : string) : M unit := emit (Print Info msg).
Definition act (msg : string) : M unit := emit (Print Action msg).
Definition warn (msg : string) : M Z := emit (Print Warning msg) ;;; ret 1.
Definition err (msg : string) : M Z := emit (Print Error msg) ;;; ret 1.

Definition err_arg (field : string) : M Z :=
  err ("Missing required argument: [hl]" ++ field ++ "[/hl]").

(** [page_size()] *)
Definition page_size : M Z := gets (fun w => height w - 6).

(** [datetime_to_ts(dt)], for [dt] in microseconds since 1970: the shift to
    the epoch of 1601.  The source computes it in floating point; the
    rounding of that product is not modelled. *)
Definition datetime_to_ts (dt : Z) : Z := dt + 11644473600 * 1000000.

(** [not arg] for an optional string argument. *)
Definition missing (arg : option string) : bool :=
  match arg with
  | None => true
  | Some s => negb (Str.nonempty s)
  end.

Definition arg_text (arg : option string) : string :=
  match arg with Some s => s | None => "" end.

Definition cookie_repr (c : cookie) : string :=
  "[key]host=[/key][cyan3]" ++ host_key c ++ "[/cyan3] " ++
  "[key]name=[/key][cyan3]" ++ name c ++ "[/cyan3] " ++
  "[key]path=[/key][cyan3]" ++ path c ++ "[/cyan3]".

Definition bw_repr (host : string) : string :=
  "[key]host=[/key][value]" ++ host ++ "[/value]".

(** The text [cmd_delete_by_number] prints for an item: [cookie_repr] on a
    cookie selection, [bw_repr] otherwise. *)
Definition item_repr (c : item) : string :=
  match c with
  | ACookie c => cookie_repr c
  | AHost h => bw_repr h
  end.

(** [len(selection.data)] *)
Definition data_len : M Z :=
  fun w =>
    match data w with
    | Some l => Returns (Z.of_nat (List.length l)) w
    | None => Raises TypeError w
    end.

(** [selection.data[i]] *)
Definition data_getitem (i : Z) : M item :=
  fun w =>
    match data w with
    | Some l =>
        match PyList.getitem l i with
        | Some c => Returns c w
        | None => Raises IndexError w
        end
    | None => Raises TypeError w
    end.

(** [selection.data[i]] on a cookie selection. *)
Definition cookie_getitem (i : Z) : M cookie :=
  c <- data_getitem i ;;
  match c with
  | ACookie c => ret c
  | AHost _ => raise TypeError
  end.

(** [list(enumerate(selection.data))] on a cookie selection. *)
Definition cookie_rows : M (list (Z * cookie)) :=
  fun w =>
    match picked (selection w) with
    | CookieRows rows => Returns (PyList.enumerate rows) w
    | _ => Raises TypeError w
    end.

(** [del selection.data[i]] *)
Definition data_delitem (i : Z) : M unit :=
  fun w =>
    match data w with
    | Some l =>
        match PyList.position (List.length l) i with
        | Some k =>
            Returns tt
              (with_history (history w ++ [DelItem k])
                 (mutate_data (fun A => PyList.remove_nth k) w))
        | None => Raises IndexError w
        end
    | None => Raises TypeError w
    end.

(** [selection.data[:] = []] *)
Definition data_clear : M unit :=
  fun w =>
    match data w with
    | Some _ =>
        Returns tt
          (with_history (history w ++ [ClearItems])
             (mutate_data (fun A _ => []) w))
    | None => Raises TypeError w
    end.

(** [selection.set(data, title, type=...)], with [page] at its default. *)
Definition selection_set (d : selected) (caption : string) : M unit :=
  modify (with_selection {| picked := d; title := Some caption; page := 0 |}).

(** ** Cookie store *)

Definition same_key (c d : cookie) : bool :=
  String.eqb (host_key d) (host_key c) &&
  String.eqb (name d) (name c) &&
  String.eqb (path d) (path c).

(** One [DELETE FROM cookies WHERE host_key=? AND name=? AND path=?]. *)
Definition sql_delete (c : cookie) : M unit :=
  fun w =>
    match db w with
    | Unreadable => Raises DatabaseError w
    | Table rows =>
        Returns tt
          (with_history
             (history w ++ [SqlDelete (host_key c) (name c) (path c)])
             (with_db (Table (filter (fun d => negb (same_key c d)) rows)) w))
    end.

(** [cookie_delete(cookies)] *)
Fixpoint cookie_delete (cookies : list cookie) : M unit :=
  match cookies with
  | [] => ret tt
  | c :: rest => sql_delete c ;;; cookie_delete rest
  end.

(** [cookie_find()] *)
Definition cookie_find : M (list cookie) :=
  fun w =>
    match db w with
    | Unreadable => Raises DatabaseError w
    | Table rows => Returns rows w
    end.

(** ** Listing *)

Definition cookie_list : M retval :=
  pg_sz <- page_size ;;
  pg <- gets (fun w => page (selection w)) ;;
  let start := pg * pg_sz in
  let stop := start + pg_sz in
  rows <- cookie_rows ;;
  caption <- gets (fun w => title (selection w)) ;;
  emit (PrintCookieTable caption (start + 1)
          (PyList.slice (map snd rows) start stop)) ;;;
  ret None.

Definition host_of (c : item) : string :=
  match c with
  | ACookie c => host_key c
  | AHost h => h
  end.

Definition bw_list : M retval :=
  pg_sz <- page_size ;;
  caption <- gets (fun w => title (selection w)) ;;
  fun w =>
    match data w with
    | Some l =>
        (emit (PrintHostTable caption (PyList.slice (map host_of l) 0 pg_sz)) ;;;
         ret (Some 0)) w
    | None => Raises TypeError w
    end.

Definition cmd_list : M retval :=
  fun w =>
    match data w with
    | None => (r <- warn "No selection." ;; ret (Some r)) w
    | Some _ => if type_is_cookies w then cookie_list w else bw_list w
    end.

Definition cmd_count : M retval :=
  ct <- data_len ;;
  s <- gets (fun w => if type_is_cookies w then "cookies"
                     else type_text w ++ " entries") ;;
  info ("There are [yellow]" ++ Num.str ct ++ "[/yellow] " ++ s ++ ".") ;;;
  ret None.

Definition cmd_next_page : M retval :=
  pg <- gets (fun w => page (selection w)) ;;
  pg_sz <- page_size ;;
  n <- data_len ;;
  if n <=? (pg + 1) * pg_sz then
    warn "Last page reached." ;;; ret (Some 0)
  else
    modify (with_page (pg + 1)) ;;;
    inter <- gets interactive ;;
    if inter then cmd_list else ret None.

Definition cmd_prev_page : M retval :=
  pg <- gets (fun w => page (selection w)) ;;
  if pg =? 0 then
    warn "First page reached." ;;; ret (Some 0)
  else
    modify (with_page (pg - 1)) ;;;
    inter <- gets interactive ;;
    if inter then cmd_list else ret None.

(** ** Selecting *)

Definition cmd_select_cookies_all : M retval :=
  cookies <- cookie_find ;;
  selection_set (CookieRows cookies) "All Cookies" ;;;
  ret None.

Definition select_all (which : list_name) (caption : string) : M retval :=
  selection_set (WholeList which) caption ;;;
  ret None.

Definition select_by_host (which : list_name) (caption : string)
  (host : option string) : M retval :=
  if missing host then r <- err_arg "host" ;; ret (Some r)
  else
    lst <- gets (global_list which) ;;
    let matches := filter (Str.contains (arg_text host)) lst in
    selection_set (Matches which matches)
      (caption ++ " Entries for '" ++ arg_text host ++ "'") ;;;
    ret None.

Definition cmd_select_blacklist_all : M retval :=
  select_all BL "Full Blacklist".

Definition cmd_select_blacklist_by_host : option string -> M retval :=
  select_by_host BL "Blacklist".

Definition cmd_select_whitelist_all : M retval :=
  select_all WL "Full whitelist".

Definition cmd_select_whitelist_by_host : option string -> M retval :=
  select_by_host WL "Whitelist".

(** ** Adding *)

(** [{'blacklist': blacklist, 'whitelist': whitelist}[selection.type]] *)
Definition list_of_type : M list_name :=
  fun w =>
    match picked (selection w) with
    | WholeList which | Matches which _ => Returns which w
    | _ => Raises KeyError w
    end.

Definition cmd_add_host (host : option string) : M retval :=
  if missing host then r <- err_arg "host" ;; ret (Some r)
  else
    cookies <- gets type_is_cookies ;;
    if cookies then
      warn ("This command only works on the blacklist or whitelist. " ++
            "Select the blacklist ('sba') or whitelist ('swa') first.") ;;;
      ret (Some 1)
    else
      which <- list_of_type ;;
      lst <- gets (global_list which) ;;
      ty <- gets type_text ;;
      if Str.mem (arg_text host) lst then
        err ("Host '" ++ arg_text host ++ "' is already in " ++ ty ++ ".") ;;;
        ret (Some 1)
      else
        modify (fun w => with_global_list which
                           (global_list which w ++ [arg_text host]) w) ;;;
        emit (AppendHost which (arg_text host)) ;;;
        info ("Added '" ++ arg_text host ++ "' to " ++ ty ++ ".") ;;;
        ret None.

(** ** Deleting *)

(** [start < 1 or end > len(selection.data)]: the length is read only
    when the first test fails. *)
Definition out_of_range (start stop : Z) : M bool :=
  if start <? 1 then ret true
  else n <- data_len ;; ret (n <? stop).

(** The validation loop of [cmd_delete_by_number]: [inl r] when the loop
    returns [r] from the command, [inr idxs] when it runs to its end. *)
Fixpoint validate (specs : list string) (idxs : list Z) : M (Z + list Z) :=
  match specs with
  | [] => ret (inr idxs)
  | spec :: rest =>
      if negb (Re.match_spec_chars spec) then
        r <- err "Argument 'number_range' contains invalid characters." ;;
        ret (inl r)
      else if Re.match_range spec then
        match map Num.int (Str.split "-" spec) with
        | [Some start; Some stop] =>
            out <- out_of_range start stop ;;
            if out then
              r <- err ("Index '" ++ spec ++ "' is out of range") ;;
              ret (inl r)
            else validate rest (idxs ++ Num.range start (stop + 1))
        | _ => raise ValueError
        end
      else if Re.match_single spec then
        match Num.int spec with
        | Some n =>
            out <- out_of_range n n ;;
            if out then
              r <- err ("Index '" ++ Num.str n ++ "' is out of range") ;;
              ret (inl r)
            else validate rest (idxs ++ [n])
        | None => raise ValueError
        end
      else
        r <- err ("Number range invalid or unsupported: '" ++ spec ++ "'") ;;
        ret (inl r)
  end.

(** The loop that removes the one-based [idxs] from the selection, in the
    order given. *)
Fixpoint delete_numbered (idxs : list Z) (ct : Z) : M Z :=
  match idxs with
  | [] => ret ct
  | idx :: rest =>
      let idx := idx - 1 in
      c <- data_getitem idx ;;
      act ("Deleting: " ++ item_repr c) ;;;
      data_delitem idx ;;;
      delete_numbered rest (ct + 1)
  end.

(** [f"Deleted [yellow]{ct}[/yellow] {s}{selection.type}."] *)
Definition deleted_message (ct : Z) : M unit :=
  cookies <- gets type_is_cookies ;;
  ty <- gets type_text ;;
  let s := if cookies then "" else "entries from " in
  info ("Deleted [yellow]" ++ Num.str ct ++ "[/yellow] " ++ s ++ ty ++ ".").

Definition cmd_delete_by_number (number_range : option string) : M retval :=
  if missing number_range then r <- err_arg "number_range" ;; ret (Some r)
  else
    v <- validate (Str.split "," (arg_text number_range)) [] ;;
    match v with
    | inl r => ret (Some r)
    | inr idxs =>
        cookies <- gets type_is_cookies ;;
        (if cookies then
           to_del <- mapM (fun i => cookie_getitem (i - 1)) idxs ;;
           cookie_delete to_del
         else ret tt) ;;;
        ct <- delete_numbered (Num.sorted_desc idxs) 0 ;;
        deleted_message ct ;;;
        ret None
    end.

(** [any(host_match(c['host_key'], w) for w in whitelist)] *)
Definition whitelisted (c : cookie) : M bool :=
  gets (fun w => existsb (host_match (host_key c)) (whitelist w)).

(** The loop that removes zero-based [idxs] from the selection, counting. *)
Fixpoint delete_each (idxs : list Z) (ct : Z) : M Z :=
  match idxs with
  | [] => ret ct
  | idx :: rest => data_delitem idx ;;; delete_each rest (ct + 1)
  end.

Definition mem_Z (i : Z) (l : list Z) : bool := existsb (Z.eqb i) l.

(** The line printed for a cookie that the whitelist protects. *)
Definition note_whitelisted (c : cookie) : M unit :=
  info ("Cookie matches whitelist, ignoring: " ++ cookie_repr c).

(** One turn of the loop over [enumerate(selection.data)] in
    [cmd_delete_all]. *)
Definition delete_all_turn (idxs : list Z) (ic : Z * cookie) : M (list Z) :=
  let '(idx, c) := ic in
  safe <- whitelisted c ;;
  if safe then note_whitelisted c ;;; ret idxs
  else ret (idxs ++ [idx])%list.

Definition cmd_delete_all : M retval :=
  cookies <- gets type_is_cookies ;;
  ct <- (if cookies then
           rows <- cookie_rows ;;
           idxs <- foldM delete_all_turn rows [] ;;
           rows' <- cookie_rows ;;
           cookie_delete
             (map snd (filter (fun '(i, _) => mem_Z i idxs) rows')) ;;;
           delete_each (Num.sorted_desc idxs) 0 ;;;
           ret (Z.of_nat (List.length idxs))
         else
           ct <- data_len ;;
           data_clear ;;;
           ret ct) ;;
  deleted_message ct ;;;
  ret None.

Definition cookies_only_warning : M retval :=
  warn ("This command only works on cookie selections. " ++
        "Try using 'sca' or 'sch' first.") ;;;
  ret (Some 1).

Definition cmd_delete_by_expired : M retval :=
  cookies <- gets type_is_cookies ;;
  if negb cookies then cookies_only_warning
  else
    ts <- gets (fun w => datetime_to_ts (utcnow w)) ;;
    rows <- cookie_rows ;;
    let idxs := map fst (filter (fun '(_, c) => expires_utc c <? ts) rows) in
    to_del <- mapM cookie_getitem idxs ;;
    cookie_delete to_del ;;;
    ct <- delete_each (Num.sorted_desc idxs) 0 ;;
    info ("Deleted [yellow]" ++ Num.str ct ++ "[/yellow] cookies") ;;;
    ret None.

(** One turn of the inner loop of [cmd_delete_by_blacklist], over
    [enumerate(selection.data)]. *)
Definition blacklist_turn (bl_host : string) (idxs : list Z)
  (ic : Z * cookie) : M (list Z) :=
  let '(idx, c) := ic in
  let idx := idx + 1 in
  if host_match (host_key c) bl_host then
    safe <- whitelisted c ;;
    if safe then note_whitelisted c ;;; ret idxs
    else ret (idxs ++ [idx])%list
  else ret idxs.

(** One turn of its outer loop, over [blacklist]. *)
Definition blacklist_pass (idxs : list Z) (bl_host : string) : M (list Z) :=
  rows <- cookie_rows ;;
  foldM (blacklist_turn bl_host) rows idxs.

Definition cmd_delete_by_blacklist : M retval :=
  cookies <- gets type_is_cookies ;;
  if negb cookies then cookies_only_warning
  else
    bl <- gets blacklist ;;
    idxs <- foldM blacklist_pass bl [] ;;
    match idxs with
    | [] => ret None
    | _ => cmd_delete_by_number (Some (Str.join "," (map Num.str idxs)))
    end.

(** ** Leaving *)

Definition save_json_file (which : list_name) : M unit :=
  body <- gets (global_list which) ;;
  modify (with_file which body) ;;;
  emit (WriteFile which body).

Definition vacuum : M unit :=
  fun w =>
    match db w with
    | Unreadable => Raises DatabaseError w
    | Table _ => emit SqlVacuum w
    end.

Definition shutdown (save : bool) : M retval :=
  (if save then save_json_file WL ;;; save_json_file BL else ret tt) ;;;
  vacuum ;;;
  raise (SystemExit 0).

Definition cmd_quit : M retval := shutdown true.
Definition cmd_exit : M retval := shutdown false.

(** ** Worlds for examples *)

Definition mk_cookie (host nm : string) (expires : Z) : cookie :=
  {| host_key := host; name := nm; path := "/";
     creation_utc := 0; last_access_utc := 0; expires_utc := expires;
     is_secure := 0; is_httponly := 0; is_persistent := 0;
     priority := 1; samesite := 0; value := "" |}.

(** The state [main] hands to the first command of [-e]: lists loaded,
    database checked, nothing selected. *)
Definition startup (wl bl : list string) (rows : list cookie) : world :=
  {| whitelist := wl; blacklist := bl; selection := no_selection;
     interactive := false; db := Table rows;
     wl_file := None; bl_file := None; height := 30; utcnow := 0;
     history := [] |}.

(** ** Vocabulary of the properties *)

(** [suffix] is a literal suffix of [s]. *)
Definition is_suffix (suffix s : string) : Prop :=
  exists front, s = front ++ suffix.

(** The events a run that started in [w] and ended in [w'] added. *)
Definition since (w w' : world) : list event :=
  skipn (List.length (history w)) (history w').

(** The zero-based positions removed from [selection.data], in the order
    of removal. *)
Definition deleted_positions (h : list event) : list nat :=
  flat_map (fun e => match e with DelItem k => [k] | _ => [] end) h.

(** The keys of the [DELETE] statements issued, in order. *)
Definition store_deletions (h : list event) : list (string * string * string) :=
  flat_map (fun e => match e with
                     | SqlDelete host nm pth => [(host, nm, pth)]
                     | _ => []
                     end) h.

Definition key (c : cookie) : string * string * string :=
  (host_key c, name c, path c).

(** The lines printed, in order. *)
Definition printed (h : list event) : list (style * string) :=
  flat_map (fun e => match e with Print st msg => [(st, msg)] | _ => [] end) h.

Definition mem_nat (k : nat) (ks : list nat) : bool := existsb (Nat.eqb k) ks.

(** The items of [l] at the zero-based positions outside [ks], in order. *)
Definition keep_outside {A} (ks : list nat) (l : list A) : list A :=
  map snd (filter (fun '(i, _) => negb (mem_nat i ks))
             (combine (seq 0 (List.length l)) l)).

(** The zero-based positions that one-based indices name. *)
Definition positions (idxs : list Z) : list nat :=
  map (fun i => Z.to_nat (i - 1)) idxs.

(** The cookie rows of a cookie selection. *)
Definition selected_cookies (w : world) : list cookie :=
  match picked (selection w) with
  | CookieRows rows => rows
  | _ => []
  end.

(** [expr] passes the validation of [cmd_delete_by_number] in [w] and
    resolves to the one-based indices [idxs]. *)
Definition parses (w : world) (expr : string) (idxs : list Z) : Prop :=
  validate (Str.split "," expr) [] w = Returns (inr idxs) w.

(** A line feed that ends a spec, or nothing: what the [$] of the patterns
    lets follow the digits. *)
Definition line_end (s : string) : Prop := s = "" \/ s = String "010" "".

(** A spec that is valid for a selection of [max] items: a decimal number
    [n] with [1 <= n <= max], or [start-end] with [1 <= start] and
    [end <= max]. *)
Inductive valid_spec (max : Z) : string -> Prop :=
| valid_single (d e : string) :
    Re.number d = true -> line_end e ->
    1 <= Num.decimal 0 d <= max ->
    valid_spec max (d ++ e)
| valid_range (a b e : string) :
    Re.number a = true -> Re.number b = true -> line_end e ->
    1 <= Num.decimal 0 a -> Num.decimal 0 b <= max ->
    valid_spec max (a ++ String "-" (b ++ e)).

(** [p] is the last page in the sense of the page commands' contract: the
    smallest page index with [p * page_size >= length]. *)
Definition is_last_page (pg_sz len p : Z) : Prop :=
  0 <= p /\ len <= p * pg_sz /\
  forall q, 0 <= q -> len <= q * pg_sz -> p <= q.

(** The state after [sca] as the first command of [-e]. *)
Definition all_selected (wl bl : list string) (rows : list cookie) : world :=
  final (cmd_select_cookies_all (startup wl bl rows)).

Module Sample.

Definition session : cookie := mk_cookie "shop.example.net" "sid" 0.
Definition stale : cookie := mk_cookie "old.example.net" "seen" 1.
Definition lasting : cookie :=
  mk_cookie "new.example.net" "prefs" 99999999999999999.

Definition a : cookie := mk_cookie "a.example.net" "k" 0.
Definition b : cookie := mk_cookie "b.example.net" "k" 0.
Definition c : cookie := mk_cookie "c.example.net" "k" 0.
Definition d : cookie := mk_cookie "d.example.net" "k" 0.
Definition e : cookie := mk_cookie "e.example.net" "k" 0.

Definition tracker : cookie := mk_cookie "tracker.ads.example.com" "id" 0.
Definition plain : cookie := mk_cookie "example.com" "id" 0.
Definition safe : cookie := mk_cookie "safe.example.org" "login" 0.

End Sample.

(** The list left when the positions [ks] are removed one after the other,
    in the order given. *)
Definition remove_each {A} (ks : list nat) (l : list A) : list A :=
  fold_left (fun l k => PyList.remove_nth k l) ks l.

(** The rows left in the table after the [DELETE] statements for [cs]. *)
Definition delete_rows (cs rows : list cookie) : list cookie :=
  fold_left (fun rows c => filter (fun d => negb (same_key c d)) rows) cs rows.

(** [keep_outside] for a list whose first item has position [i]. *)
Fixpoint keep_from {A} (i : nat) (ks : list nat) (l : list A) : list A :=
  match l with
  | [] => []
  | x :: l' =>
      if mem_nat i ks then keep_from (S i) ks l'
      else x :: keep_from (S i) ks l'
  end.

Definition sql_delete_event (c : cookie) : event :=
  SqlDelete (host_key c) (name c) (path c).

(** [sba] or [swa]. *)
Definition select_whole (which : list_name) : M retval :=
  match which with
  | BL => cmd_select_blacklist_all
  | WL => cmd_select_whitelist_all
  end.

(** [sbh <host>] or [swh <host>]. *)
Definition select_matching (which : list_name) (host : string) : M retval :=
  match which with
  | BL => cmd_select_blacklist_by_host (Some host)
  | WL => cmd_select_whitelist_by_host (Some host)
  end.

(** The list that [shutdown] wrote to the file of [which], if it did. *)
Definition saved (which : list_name) (w : world) : option (list string) :=
  match which with WL => wl_file w | BL => bl_file w end.


Module Scenario.

(** Five cookies selected by [sca]. *)
Definition five : world :=
  all_selected [] [] [Sample.a; Sample.b; Sample.c; Sample.d; Sample.e].


(** A blacklist of three hosts and no cookies. *)
Definition three_hosts : world :=
  startup [] ["ads.example.com"; "cdn.example.com"; "evil.example.org"] [].

End Scenario.

(** ** Vocabulary of the order of effects *)

(** The event is a removal from [selection.data]. *)
Definition touches_selection (e : event) : bool :=
  match e with
  | DelItem _ | ClearItems => true
  | _ => false
  end.

(** The event is a [DELETE] on the store. *)
Definition is_sql_delete (e : event) : bool :=
  match e with
  | SqlDelete _ _ _ => true
  | _ => false
  end.

(** No event of [h] removes from the selection. *)
Definition calm (h : list event) : Prop :=
  forallb (fun e => negb (touches_selection e)) h = true.

(** No event of [h] deletes from the store. *)
Definition dry (h : list event) : Prop :=
  forallb (fun e => negb (is_sql_delete e)) h = true.

(** The events are in two runs: in the first nothing is removed from the
    selection, in the second nothing is deleted from the store. *)
Definition store_first (h : list event) : Prop :=
  exists h1 h2, h = (h1 ++ h2)%list /\ calm h1 /\ dry h2.

(** Whatever the state, [m] adds to the history only events that [ok]
    accepts. *)
Definition emits_only {A} (ok : event -> bool) (m : M A) : Prop :=
  forall w, exists h,
    history (final (m w)) = (history w ++ h)%list /\ forallb ok h = true.

(** Whatever the state, [m] adds its events in two runs as in
    [store_first]. *)
Definition two_phase {A} (m : M A) : Prop :=
  forall w, exists h1 h2,
    history (final (m w)) = (history w ++ h1 ++ h2)%list /\ calm h1 /\ dry h2.

(** The one-based indices [cmd_delete_by_blacklist] collects: for every
    blacklist pattern in turn, the cookies it matches that no whitelist
    pattern matches. *)
Definition candidates (wl bl : list string) (rows : list cookie) : list Z :=
  flat_map
    (fun bl_host =>
       map (fun '(idx, _) => idx + 1)
         (filter (fun '(_, c) =>
                    host_match (host_key c) bl_host &&
                    negb (existsb (host_match (host_key c)) wl))
            (PyList.enumerate rows)))
    bl.

(** The event is a line on the console. *)
Definition is_print (e : event) : bool :=
  match e with
  | Print _ _ => true
  | _ => false
  end.

(** The zero-based indices of the items of [l] that satisfy [p], as the
    comprehensions over [enumerate] compute them; the first item of [l]
    has index [s]. *)
Definition chosen_from {A} (s : nat) (p : A -> bool) (l : list A) : list Z :=
  map fst (filter (fun '(_, x) => p x)
             (combine (map Z.of_nat (seq s (List.length l))) l)).

Definition chosen {A} (p : A -> bool) (l : list A) : list Z :=
  map fst (filter (fun '(_, x) => p x) (PyList.enumerate l)).

(** ** Vocabulary of what a command leaves alone *)

(** Whatever the state, and whether it returns or raises, [m] ends with
    the same [f]. *)
Definition keeps {A X} (f : world -> X) (m : M A) : Prop :=
  forall w, f (final (m w)) = f w.

(** The two host lists, seen from a cookie selection; [None] from any
    other selection. *)
Definition lists_beside_cookies (w : world)
  : option (list string * list string) :=
  match picked (selection w) with
  | CookieRows _ => Some (whitelist w, blacklist w)
  | _ => None
  end.



Module Broken.

(** Five cookies selected, and a database file that has since become
    unreadable. *)
Definition store : world := with_db Unreadable Scenario.five.

End Broken.


(** ** Statements *)

Module Text.

Definition code (a : ascii) : nat := nat_of_ascii a.

(** The characters [str.isspace] accepts, by their UTF-8 encoding.  One
    byte: U+0009 to U+000D, U+001C to U+0020. *)
Definition space1 (a : ascii) : bool :=
  ((9 <=? code a) && (code a <=? 13) || (28 <=? code a) && (code a <=? 32))%nat.

(** Two bytes: U+0085 and U+00A0. *)
Definition space2 (a b : ascii) : bool :=
  ((code a =? 194) && ((code b =? 133) || (code b =? 160)))%nat.

(** Three bytes: U+1680, U+2000 to U+200A, U+2028, U+2029, U+202F, U+205F
    and U+3000. *)
Definition space3 (a b c : ascii) : bool :=
  ((code a =? 225) && (code b =? 154) && (code c =? 128) ||
   (code a =? 226) && (code b =? 128) &&
     ((128 <=? code c) && (code c <=? 138) ||
      (code c =? 168) || (code c =? 169) || (code c =? 175)) ||
   (code a =? 226) && (code b =? 129) && (code c =? 159) ||
   (code a =? 227) && (code b =? 128) && (code c =? 128))%nat.

(** [s] without the run of characters at its start that the three tests
    accept. *)
Fixpoint skip (t1 : ascii -> bool) (t2 : ascii -> ascii -> bool)
  (t3 : ascii -> ascii -> ascii -> bool) (s : string) : string :=
  match s with
  | String a s1 =>
      if t1 a then skip t1 t2 t3 s1
      else
        match s1 with
        | String b s2 =>
            if t2 a b then skip t1 t2 t3 s2
            else
              match s2 with
              | String c s3 => if t3 a b c then skip t1 t2 t3 s3 else s
              | EmptyString => s
              end
        | EmptyString => s
        end
  | EmptyString => s
  end.

Definition reverse (s : string) : string :=
  string_of_list_ascii (rev (list_ascii_of_string s)).

(** [s.lstrip()] *)
Definition lstrip (s : string) : string := skip space1 space2 space3 s.

(** [s.rstrip()]: the same from the end, where the bytes of a character
    come in the opposite order. *)
Definition rstrip (s : string) : string :=
  reverse (skip space1 (fun b a => space2 a b) (fun c b a => space3 a b c)
             (reverse s)).

(** [s.strip()] *)
Definition strip (s : string) : string := rstrip (lstrip s).

End Text.

(** A value of the [COMMANDS] dict: the title of a group, the name an
    alias stands for, or a command function, called with the arguments of
    the statement. *)
Inductive entry :=
| Header (caption : string)
| Alias (target : string)
| Command (run : list string -> M retval).

(** [d[key]] on a dict written as its items; [None] is [KeyError]. *)
Fixpoint lookup (key : string) (d : list (string * entry)) : option entry :=
  match d with
  | [] => None
  | (k, v) :: rest => if String.eqb key k then Some v else lookup key rest
  end.

(** A command that takes no argument of its own and ignores those it is
    given. *)
Definition no_arg (f : M retval) : entry := Command (fun _ => f).

(** A command that takes the first argument, if there is one, and ignores
    the others. *)
Definition one_arg (f : option string -> M retval) : entry :=
  Command (fun args => f (hd_error args)).

(** [x or 0] for the values a command returns. *)
Definition or_zero (r : retval) : Z :=
  match r with
  | Some n => n
  | None => 0
  end.

Section Dispatch.

(** The three commands whose output is not part of this model (the help
    texts, the detail view of a cookie, the [LIKE] query): the dispatch is
    modelled for whatever they do. *)
Variables cmd_help cmd_view cmd_select_cookies_by_host
  : option string -> M retval.

Definition COMMANDS : list (string * entry) :=
  [("#1", Header "Select");
   ("sca", no_arg cmd_select_cookies_all);
   ("sch", one_arg cmd_select_cookies_by_host);
   ("sba", no_arg cmd_select_blacklist_all);
   ("sbh", one_arg cmd_select_blacklist_by_host);
   ("swa", no_arg cmd_select_whitelist_all);
   ("swh", one_arg cmd_select_whitelist_by_host);
   ("#2", Header "List");
   ("l", no_arg cmd_list);
   (">ls", Alias "l");
   ("c", no_arg cmd_count);
   ("n", no_arg cmd_next_page);
   ("p", no_arg cmd_prev_page);
   ("#3", Header "View");
   ("v", one_arg cmd_view);
   ("#4", Header "Add");
   ("ah", one_arg cmd_add_host);
   ("#5", Header "Delete");
   ("dn", one_arg cmd_delete_by_number);
   ("da", no_arg cmd_delete_all);
   ("de", no_arg cmd_delete_by_expired);
   ("db", no_arg cmd_delete_by_blacklist);
   ("#6", Header "Other");
   ("h", one_arg cmd_help);
   ("x", no_arg cmd_exit);
   ("q", no_arg cmd_quit)].

(** The call of [COMMANDS[cmd]] on the arguments, [or 0]: a key that is
    missing is [KeyError], a value that is a string is not callable. *)
Definition call (cmd : string) (args : list string) : M Z :=
  match lookup cmd COMMANDS with
  | Some (Command run) => r <- run args ;; ret (or_zero r)
  | Some _ => raise TypeError
  | None => raise KeyError
  end.

(** [handle_statement] from the test on the command word on. *)
Definition dispatch (cmd : string) (args : list string) : M Z :=
  if negb (Str.nonempty cmd) then ret 0
  else if Str.startswith_char "#" cmd || Str.startswith_char ">" cmd ||
          negb (match lookup cmd COMMANDS with Some _ => true | None => false end)
  then
    match lookup (">" ++ cmd) COMMANDS with
    | Some (Alias target) => call target args
    | Some (Header caption) => call caption args
    | Some (Command _) => raise KeyError
    | None => r <- err "Unknown command. Try 'h' for help." ;; ret 0
    end
  else call cmd args.

(** [handle_statement(inp)] *)
Definition handle_statement (inp : string) : M Z :=
  let inp := Str.split " " (Text.strip inp) in
  dispatch (Text.strip (hd "" inp)) (tl inp).

(** The loop of [process_input] over the statements. *)
Fixpoint run_statements (stmts : list string) : M Z :=
  match stmts with
  | [] => ret 0
  | stmt :: rest =>
      rv <- handle_statement stmt ;;
      if rv <? 0 then ret rv else run_statements rest
  end.

(** [process_input(inp)] *)
Definition process_input (inp : string) : M Z :=
  run_statements (Str.split ";" inp).

End Dispatch.

(** A printable ASCII character other than the space. *)
Definition visible (a : ascii) : bool :=
  ((33 <=? Text.code a) && (Text.code a <=? 126))%nat.

(** The command word of a statement, as [handle_statement] reads it. *)
Definition command_word (inp : string) : string :=
  Text.strip (hd "" (Str.split " " (Text.strip inp))).

(** A command returns nothing, 0 or 1 when it returns. *)
Definition status_only (m : M retval) : Prop :=
  forall w r w', m w = Returns r w' -> r = None \/ r = Some 0 \/ r = Some 1.

(** Stands for each of the three commands that are not modelled, in
    examples that do not call them. *)
Definition not_called : option string -> M retval := fun _ => raise TypeError.



(** * Properties *)

(** ** Facts on strings *)

Lemma endswith_is_suffix (s suffix : string) :
  Str.endswith s suffix = true <-> is_suffix suffix s.
Proof.
  unfold is_suffix. induction s as [|c s IH]; cbn [Str.endswith].
  - rewrite orb_false_r, String.eqb_eq. split.
    + intros <-. now exists "".
    + intros [front H]. destruct front; simpl in H; [congruence | discriminate].
  - rewrite orb_true_iff, String.eqb_eq, IH. split.
    + intros [<- | [front ->]].
      * now exists "".
      * now exists (String c front).
    + intros [front H]. destruct front as [|c' front]; simpl in H.
      * now left.
      * right. exists front. congruence.
Qed.

(** ** Host matcher *)

Lemma host_match_true (h p : string) :
  host_match h p = true <->
  h = p \/ (Str.startswith_char "." p = true /\ is_suffix p h).
Proof.
  unfold host_match. destruct (String.eqb h p) eqn:E.
  - apply String.eqb_eq in E. tauto.
  - apply String.eqb_neq in E.
    destruct (Str.startswith_char "." p) eqn:D; simpl.
    + destruct (Str.endswith h p) eqn:S.
      * apply endswith_is_suffix in S. tauto.
      * split; [discriminate|]. intros [? | [_ S']]; [contradiction|].
        apply endswith_is_suffix in S'. congruence.
    + split; [discriminate|]. intros [? | [? _]]; [contradiction | discriminate].
Qed.

(** C3, as the code has it.  For every host [h] and pattern [p]:
    [host_match h h] is true; [host_match h p] is true exactly when [h = p]
    or [p] begins with a dot and is a literal suffix of [h]; so for a
    pattern [.q] it is true exactly when [h] ends with [.q], and for a
    pattern without a leading dot exactly when [h = p]. *)
Theorem host_match_characterised (h p q : string) :
  host_match h h = true /\
  (host_match h p = true <->
     h = p \/ (Str.startswith_char "." p = true /\ is_suffix p h)) /\
  (host_match h (String "." q) = true <-> is_suffix (String "." q) h) /\
  (host_match h p = true /\ Str.startswith_char "." p = false <->
     h = p /\ Str.startswith_char "." p = false).
Proof.
  split; [|split; [|split]].
  - apply host_match_true. now left.
  - apply host_match_true.
  - rewrite host_match_true. simpl. split.
    + intros [-> | [_ S]]; [now exists "" | exact S].
    + intros S. right. split; [reflexivity | exact S].
  - rewrite host_match_true. split.
    + intros [[E | [D _]] N]; [tauto | congruence].
    + intros [E N]. tauto.
Qed.

(** C3 as stated fails: the host [example.com] equals the pattern
    [.example.com] without its dot, and [host_match] rejects it. *)
Lemma host_match_bare_domain_rejected :
  Str.startswith_char "." ".example.com" = true /\
  ~ (host_match "example.com" ".example.com" = true <->
       ("example.com" = Str.tail ".example.com" \/
        is_suffix ".example.com" "example.com")).
Proof.
  split; [reflexivity|].
  intros [_ H]. assert (E : host_match "example.com" ".example.com" = true).
  { apply H. left. reflexivity. }
  vm_compute in E. discriminate.
Qed.

(** ** Commands on an unset selection *)

(** C9 fails on the code: in the state in which [main] runs the commands
    of [-e], nothing is selected, and there [c], [ah], [dn] and [da] end
    in an uncaught [TypeError] or [KeyError] with nothing printed, where
    [l] prints its warning and returns. *)
Theorem unset_selection_raises (wl bl : list string) (rows : list cookie) :
  let w := startup wl bl rows in
  cmd_count w = Raises TypeError w /\
  cmd_add_host (Some "example.com") w = Raises KeyError w /\
  cmd_delete_by_number (Some "1") w = Raises TypeError w /\
  cmd_delete_all w = Raises TypeError w /\
  cmd_next_page w = Raises TypeError w /\
  cmd_list w =
    Returns (Some 1) (with_history [Print Warning "No selection."] w).
Proof. repeat split. Qed.

(** ** Deleting expired cookies *)

(** C1 fails on the code: [de] compares [expires_utc < ts] only, so the
    session cookie, whose [expires_utc] is 0, goes with the stale one, from
    the selection and from the database. *)
Theorem delete_expired_takes_session_cookie :
  let w := all_selected [] [] [Sample.session; Sample.stale; Sample.lasting] in
  let w' := final (cmd_delete_by_expired w) in
  expires_utc Sample.session = 0 /\
  selected_cookies w' = [Sample.lasting] /\
  db w' = Table [Sample.lasting] /\
  store_deletions (since w w') = [key Sample.session; key Sample.stale].
Proof. vm_compute. repeat split. Qed.

(** ** Indices named twice *)

(** C2 fails on the code: [dn 2,2] on three cookies deletes the second
    from the database, and removes from the selection the second and then
    the cookie that had been third. *)
Theorem delete_by_number_repeated_index :
  let w := all_selected [] [] [Sample.a; Sample.b; Sample.c] in
  let w' := final (cmd_delete_by_number (Some "2,2") w) in
  selected_cookies w' = [Sample.a] /\
  deleted_positions (since w w') = [1%nat; 1%nat] /\
  store_deletions (since w w') = [key Sample.b; key Sample.b] /\
  db w' = Table [Sample.a; Sample.c].
Proof. vm_compute. repeat split. Qed.

(** The same through [db]: a cookie that two blacklist patterns match is
    listed twice, and the cookie after it leaves the selection too. *)
Lemma delete_by_blacklist_repeated_index :
  let w := all_selected [] [".ads.example.com"; "tracker.ads.example.com"]
             [Sample.tracker; Sample.plain] in
  let w' := final (cmd_delete_by_blacklist w) in
  selected_cookies w' = [] /\
  store_deletions (since w w') = [key Sample.tracker; key Sample.tracker] /\
  db w' = Table [Sample.plain].
Proof. vm_compute. repeat split. Qed.

(** With one item left the second removal has nothing to remove, and the
    command ends in an uncaught [IndexError]. *)
Lemma repeated_index_on_last_item_raises :
  let w := all_selected [] [] [Sample.a] in
  exists w', cmd_delete_by_number (Some "1,1") w = Raises IndexError w' /\
             selected_cookies w' = [].
Proof. eexists. vm_compute. split; reflexivity. Qed.

(** C4 fails on the code for [db]: the whitelisted cookie is not deleted
    from the database, but it leaves the selection when the cookie before
    it is matched by two blacklist patterns. *)
Theorem delete_by_blacklist_drops_whitelisted :
  let w := all_selected ["safe.example.org"]
             [".ads.example.com"; "tracker.ads.example.com"]
             [Sample.tracker; Sample.safe] in
  let w' := final (cmd_delete_by_blacklist w) in
  existsb (host_match (host_key Sample.safe)) (whitelist w) = true /\
  In Sample.safe (selected_cookies w) /\
  ~ In Sample.safe (selected_cookies w') /\
  db w' = Table [Sample.safe].
Proof.
  vm_compute. repeat split; auto.
Qed.

(** C7 fails on the code in its last part: after [dn 2,2] the third cookie
    has left the selection, and no [DELETE] was issued for it. *)
Theorem delete_by_number_drops_undeleted :
  let w := all_selected [] [] [Sample.a; Sample.b; Sample.c] in
  let w' := final (cmd_delete_by_number (Some "2,2") w) in
  In Sample.c (selected_cookies w) /\
  ~ In Sample.c (selected_cookies w') /\
  ~ In (key Sample.c) (store_deletions (since w w')) /\
  In Sample.c (match db w' with Table rows => rows | Unreadable => [] end).
Proof.
  vm_compute. repeat split; auto.
  - intros [H | []]. discriminate.
  - intros [H | [H | []]]; discriminate.
Qed.

(** ** Paging *)

Ltac run :=
  unfold cmd_next_page, cmd_prev_page, cmd_list, cookie_list, bw_list,
    cookie_rows, page_size, data_len, warn, err, info, act, emit,
    bind, ret, gets, modify, raise in *;
  cbn beta iota in *.

Lemma type_is_cookies_rows (w : world) :
  type_is_cookies w = true <->
  exists rows, picked (selection w) = CookieRows rows.
Proof.
  unfold type_is_cookies, type.
  destruct (picked (selection w)) as [|rows|[]|[] ?]; simpl;
    split; intros H; try discriminate; eauto; destruct H; discriminate.
Qed.

Lemma data_with_history (h : list event) (w : world) :
  data (with_history h w) = data w.
Proof. reflexivity. Qed.



(** Every selection has a last page when a page holds an item or more. *)
Lemma last_page_exists (pg_sz len : Z) :
  1 <= pg_sz -> 0 <= len ->
  is_last_page pg_sz len ((len + pg_sz - 1) / pg_sz).
Proof.
  intros P L. unfold is_last_page.
  assert (D := Z.div_mod (len + pg_sz - 1) pg_sz ltac:(lia)).
  assert (R := Z.mod_pos_bound (len + pg_sz - 1) pg_sz ltac:(lia)).
  set (p := (len + pg_sz - 1) / pg_sz) in *.
  set (r := (len + pg_sz - 1) mod pg_sz) in *.
  repeat split.
  - subst p. apply Z.div_pos; lia.
  - nia.
  - intros q Q H. nia.
Qed.




(** ** Facts on the patterns and on decimal text *)

Lemma all_app (p : ascii -> bool) (s t : string) :
  Str.all p (s ++ t) = Str.all p s && Str.all p t.
Proof.
  unfold Str.all. induction s as [|c s IH]; simpl; [reflexivity|].
  rewrite IH. apply andb_assoc.
Qed.

Lemma all_impl (p q : ascii -> bool) (s : string) :
  (forall c, p c = true -> q c = true) ->
  Str.all p s = true -> Str.all q s = true.
Proof.
  intros PQ. unfold Str.all. induction s as [|c s IH]; simpl; [trivial|].
  rewrite !andb_true_iff. intros [H1 H2]. auto.
Qed.

Lemma digit_is_not_dash (c : ascii) :
  Num.is_digit c = true -> is_not "-" c = true.
Proof.
  unfold is_not. destruct (Ascii.eqb c "-") eqn:E; [|reflexivity].
  apply Ascii.eqb_eq in E. subst c. discriminate.
Qed.

Lemma split_without (c : ascii) (s : string) :
  Str.all (is_not c) s = true -> Str.split c s = [s].
Proof.
  unfold Str.all, is_not. induction s as [|a s IH]; simpl; [reflexivity|].
  rewrite andb_true_iff, negb_true_iff. intros [A H].
  rewrite A, (IH H). reflexivity.
Qed.

Lemma split_at_first (c : ascii) (s t : string) :
  Str.all (is_not c) s = true ->
  Str.split c (s ++ String c t) = s :: Str.split c t.
Proof.
  unfold Str.all, is_not. induction s as [|a s IH]; simpl.
  - intros _. now rewrite Ascii.eqb_refl.
  - rewrite andb_true_iff, negb_true_iff. intros [A H].
    rewrite A, (IH H). reflexivity.
Qed.

Lemma split_nonempty (c : ascii) (s : string) : Str.split c s <> [].
Proof.
  destruct s as [|a s]; simpl; [discriminate|].
  destruct (Ascii.eqb a c); [discriminate|].
  destruct (Str.split c s); discriminate.
Qed.

(** Joining the pieces with the separator gives the string back. *)
Lemma join_split (c : ascii) (s : string) :
  Str.join (String c "") (Str.split c s) = s.
Proof.
  induction s as [|a s IH]; [reflexivity|].
  cbn [Str.split]. destruct (Str.split c s) as [|p ps] eqn:S.
  { now destruct (split_nonempty c s). }
  destruct (Ascii.eqb a c) eqn:E.
  - apply Ascii.eqb_eq in E. subst a.
    change (String c (Str.join (String c "") (p :: ps)) = String c s).
    now rewrite IH.
  - destruct ps as [|p' ps].
    + cbn [Str.join] in *. now rewrite IH.
    + change (String a (Str.join (String c "") (p :: p' :: ps)) = String a s).
      now rewrite IH.
Qed.

Lemma strip_final_lf_sound (s b : string) :
  Num.strip_final_lf s = Some b -> s = b ++ String "010" "".
Proof.
  revert b. induction s as [|c s IH]; intros b; [discriminate|].
  cbn [Num.strip_final_lf]. destruct s as [|c' s'].
  - destruct (Ascii.eqb c "010") eqn:E; [|discriminate].
    apply Ascii.eqb_eq in E. subst c. now intros [= <-].
  - destruct (Num.strip_final_lf (String c' s')) as [b'|]; [|discriminate].
    intros [= <-]. simpl. f_equal. now apply IH.
Qed.

Lemma strip_final_lf_complete (b : string) :
  Num.strip_final_lf (b ++ String "010" "") = Some b.
Proof.
  induction b as [|c b IH]; [reflexivity|].
  simpl. simpl in IH. rewrite IH. now destruct b.
Qed.

Lemma strip_final_lf_app (s b : string) :
  Num.strip_final_lf s = Some b <-> s = b ++ String "010" "".
Proof.
  split; [apply strip_final_lf_sound|].
  intros ->. apply strip_final_lf_complete.
Qed.

Lemma strip_final_lf_digits (d : string) :
  Str.all Num.is_digit d = true -> Num.strip_final_lf d = None.
Proof.
  intros D. destruct (Num.strip_final_lf d) as [b|] eqn:S; [|reflexivity].
  apply strip_final_lf_app in S. subst d.
  rewrite all_app, andb_true_iff in D. destruct D as [_ D]. discriminate.
Qed.

Lemma number_parts (d : string) :
  Re.number d = true <-> d <> "" /\ Str.all Num.is_digit d = true.
Proof.
  unfold Re.number. rewrite andb_true_iff.
  destruct d; simpl; split; intros [H1 H2]; split; congruence.
Qed.

Lemma append_empty (s : string) : s ++ "" = s.
Proof. induction s as [|c s IH]; simpl; congruence. Qed.

Lemma append_assoc (s t u : string) : (s ++ t) ++ u = s ++ (t ++ u).
Proof. induction s as [|c s IH]; simpl; congruence. Qed.

(** [dollar]: the body matches the string, or the string without the line
    feed that ends it. *)
Lemma dollar_cases (body : string -> bool) (s : string) :
  Re.dollar body s = true <->
  exists b e, s = b ++ e /\ line_end e /\ body b = true.
Proof.
  unfold Re.dollar, line_end. rewrite orb_true_iff. split.
  - intros [H | H].
    + exists s, "". rewrite append_empty. auto.
    + destruct (Num.strip_final_lf s) as [b|] eqn:S; [|discriminate].
      apply strip_final_lf_app in S. exists b, (String "010" ""). auto.
  - intros (b & e & -> & [-> | ->] & H).
    + left. now rewrite append_empty.
    + right. now rewrite strip_final_lf_complete.
Qed.

Lemma line_end_not_dash (e : string) :
  line_end e -> Str.all (is_not "-") e = true.
Proof. intros [-> | ->]; reflexivity. Qed.

Lemma number_not_dash (d : string) :
  Re.number d = true -> Str.all (is_not "-") d = true.
Proof.
  intros D. apply number_parts in D as [_ D].
  eapply all_impl; [apply digit_is_not_dash | exact D].
Qed.

(** [int] on a decimal number, with or without a final line feed. *)
Lemma int_of_number (d e : string) :
  Re.number d = true -> line_end e ->
  Num.int (d ++ e) = Some (Num.decimal 0 d).
Proof.
  intros D E. pose proof D as D'. apply number_parts in D' as [N A].
  unfold Num.int. destruct E as [-> | ->].
  - rewrite append_empty, (strip_final_lf_digits d A).
    unfold Re.number in D. now rewrite D.
  - rewrite strip_final_lf_complete. unfold Re.number in D. now rewrite D.
Qed.

(** [split('-')] on a range spec. *)
Lemma split_range (a b e : string) :
  Re.number a = true -> Re.number b = true -> line_end e ->
  Str.split "-" (a ++ String "-" (b ++ e)) = [a; b ++ e].
Proof.
  intros A B E. rewrite split_at_first by now apply number_not_dash.
  rewrite split_without; [reflexivity|].
  rewrite all_app, (number_not_dash b B), (line_end_not_dash e E).
  reflexivity.
Qed.

Lemma spec_chars_app (s t : string) :
  Re.spec_chars s = true -> Re.spec_chars t = true ->
  Re.spec_chars (s ++ t) = true.
Proof.
  unfold Re.spec_chars. rewrite !andb_true_iff, all_app.
  intros [N1 A1] [N2 A2]. rewrite A1, A2. split; [|reflexivity].
  destruct s; [discriminate | reflexivity].
Qed.

Lemma number_spec_chars (d : string) :
  Re.number d = true -> Re.spec_chars d = true.
Proof.
  unfold Re.number, Re.spec_chars. rewrite !andb_true_iff. intros [N A].
  split; [exact N|]. eapply all_impl; [|exact A].
  intros c H. unfold Re.is_spec_char. now rewrite H.
Qed.

(** What the three patterns say of a decimal number. *)
Lemma patterns_on_single (d e : string) :
  Re.number d = true -> line_end e ->
  Re.match_spec_chars (d ++ e) = true /\
  Re.match_range (d ++ e) = false /\
  Re.match_single (d ++ e) = true.
Proof.
  intros D E. repeat split.
  - apply dollar_cases. exists d, e. auto using number_spec_chars.
  - destruct (Re.match_range (d ++ e)) eqn:R; [|reflexivity].
    apply dollar_cases in R as (b & e' & S & _ & R).
    unfold Re.number_dash_number in R.
    assert (J := join_split "-" b).
    destruct (Str.split "-" b) as [|x [|y [|z l]]]; try discriminate.
    cbn [Str.join] in J.
    assert (N : Str.all (is_not "-") (d ++ e) = true).
    { rewrite all_app, (number_not_dash d D), (line_end_not_dash e E).
      reflexivity. }
    rewrite S, <- J, !all_app, !andb_true_iff in N.
    destruct N as [[_ [N _]] _]. discriminate.
  - apply dollar_cases. exists d, e. auto.
Qed.

(** What the first two patterns say of a range. *)
Lemma patterns_on_range (a b e : string) :
  Re.number a = true -> Re.number b = true -> line_end e ->
  Re.match_spec_chars (a ++ String "-" (b ++ e)) = true /\
  Re.match_range (a ++ String "-" (b ++ e)) = true.
Proof.
  intros A B E. split.
  - apply dollar_cases. exists (a ++ String "-" b), e.
    split; [now rewrite append_assoc|]. split; [exact E|].
    apply spec_chars_app; [now apply number_spec_chars|].
    change (String "-" b) with ("-" ++ b).
    apply spec_chars_app; [reflexivity | now apply number_spec_chars].
  - apply dollar_cases. exists (a ++ String "-" b), e.
    split; [now rewrite append_assoc|]. split; [exact E|].
    unfold Re.number_dash_number.
    rewrite <- (append_empty b) at 1.
    rewrite (split_range a b "" A B); [|now left].
    rewrite append_empty, A, B. reflexivity.
Qed.

(** A string the range pattern matches is a range. *)
Lemma match_range_shape (spec : string) :
  Re.match_range spec = true ->
  exists a b e, spec = a ++ String "-" (b ++ e) /\
                Re.number a = true /\ Re.number b = true /\ line_end e.
Proof.
  intros R. apply dollar_cases in R as (body & e & -> & E & R).
  unfold Re.number_dash_number in R.
  assert (J := join_split "-" body).
  destruct (Str.split "-" body) as [|a [|b [|z l]]]; try discriminate.
  cbn [Str.join] in J. apply andb_true_iff in R as [A B].
  exists a, b, e. subst body. rewrite append_assoc. auto.
Qed.

(** A string the number pattern matches is a number. *)
Lemma match_single_shape (spec : string) :
  Re.match_single spec = true ->
  exists d e, spec = d ++ e /\ Re.number d = true /\ line_end e.
Proof.
  intros R. apply dollar_cases in R as (d & e & -> & E & R). eauto.
Qed.

(** ** Validation of the range expression *)

Lemma out_of_range_eval (a b : Z) (w : world) (l : list item) :
  data w = Some l ->
  out_of_range a b w =
    Returns ((a <? 1) || (Z.of_nat (List.length l) <? b)) w.
Proof.
  intros D. unfold out_of_range. destruct (a <? 1); [reflexivity|].
  unfold bind, data_len, ret. now rewrite D.
Qed.

(** The numbers the command reads from a valid spec. *)
Lemma valid_spec_read (max : Z) (spec : string) :
  valid_spec max spec ->
  Re.match_spec_chars spec = true /\
  ((Re.match_range spec = true /\
    exists a b, map Num.int (Str.split "-" spec) = [Some a; Some b] /\
                1 <= a /\ b <= max) \/
   (Re.match_range spec = false /\ Re.match_single spec = true /\
    exists d, Num.int spec = Some d /\ 1 <= d <= max)).
Proof.
  intros [d e D E B | a b e A B E Ba Bb].
  - destruct (patterns_on_single d e D E) as (H1 & H2 & H3).
    split; [exact H1|]. right. repeat split; trivial.
    exists (Num.decimal 0 d). split; [now apply int_of_number | exact B].
  - destruct (patterns_on_range a b e A B E) as (H1 & H2).
    split; [exact H1|]. left. split; [exact H2|].
    exists (Num.decimal 0 a), (Num.decimal 0 b).
    rewrite split_range by assumption. cbn [map].
    rewrite <- (append_empty a) at 1.
    rewrite !int_of_number by (assumption || now left). auto.
Qed.

Lemma range_within (a b max : Z) :
  1 <= a -> b <= max ->
  Forall (fun i => 1 <= i <= max) (Num.range a (b + 1)).
Proof.
  intros A B. unfold Num.range. apply Forall_forall. intros i H.
  apply in_map_iff in H as (k & <- & H). apply in_seq in H. lia.
Qed.

(** One turn of the validation loop: the spec is invalid and the command
    returns 1 after one error line, or it is valid and the loop goes on
    with the indices of the spec added. *)
Lemma validate_step (spec : string) (w : world) (l : list item) :
  data w = Some l ->
  let max := Z.of_nat (List.length l) in
  (~ valid_spec max spec /\
   exists msg, forall rest idxs,
     validate (spec :: rest) idxs w =
       Returns (inl 1) (with_history (history w ++ [Print Error msg]) w)) \/
  (valid_spec max spec /\
   exists more, Forall (fun i => 1 <= i <= max) more /\
     forall rest idxs,
       validate (spec :: rest) idxs w = validate rest (idxs ++ more) w).
Proof.
  intros D max.
  destruct (Re.match_spec_chars spec) eqn:C.
  2:{ left. split.
      - intros V. apply valid_spec_read in V as [V _]. congruence.
      - eexists. intros rest idxs. cbn [validate]. rewrite C. reflexivity. }
  destruct (Re.match_range spec) eqn:R.
  { destruct (match_range_shape spec R) as (a & b & e & -> & A & B & E).
    assert (S : map Num.int (Str.split "-" (a ++ String "-" (b ++ e))) =
                [Some (Num.decimal 0 a); Some (Num.decimal 0 b)]).
    { rewrite split_range by assumption. cbn [map].
      rewrite <- (append_empty a) at 1.
      rewrite !int_of_number by (assumption || now left). reflexivity. }
    destruct ((Num.decimal 0 a <? 1) || (max <? Num.decimal 0 b)) eqn:O.
    - left. split.
      + intros V. apply valid_spec_read in V as [_ [(_ & a' & b' & S' & Ba & Bb) | (R' & _)]];
          [|congruence].
        rewrite S in S'. injection S' as <- <-.
        apply orb_true_iff in O as [O | O]; [apply Z.ltb_lt in O | apply Z.ltb_lt in O]; lia.
      + eexists. intros rest idxs. cbn [validate]. rewrite C, R, S.
        cbn [negb]. unfold bind at 1. rewrite (out_of_range_eval _ _ w l D).
        fold max. rewrite O. reflexivity.
    - right. apply orb_false_iff in O as [O1 O2].
      apply Z.ltb_ge in O1, O2. split.
      + now apply valid_range.
      + exists (Num.range (Num.decimal 0 a) (Num.decimal 0 b + 1)). split.
        * now apply range_within.
        * intros rest idxs. cbn [validate]. rewrite C, R, S.
          cbn [negb]. unfold bind at 1. rewrite (out_of_range_eval _ _ w l D).
          fold max. replace (_ || _) with false; [reflexivity|].
          symmetry. apply orb_false_iff. split; apply Z.ltb_ge; lia. }
  destruct (Re.match_single spec) eqn:S.
  { destruct (match_single_shape spec S) as (d & e & -> & Dg & E).
    assert (I := int_of_number d e Dg E).
    destruct ((Num.decimal 0 d <? 1) || (max <? Num.decimal 0 d)) eqn:O.
    - left. split.
      + intros V. apply valid_spec_read in V as [_ [(R' & _) | (_ & _ & d' & I' & B)]];
          [congruence|].
        rewrite I in I'. injection I' as <-.
        apply orb_true_iff in O as [O | O]; apply Z.ltb_lt in O; lia.
      + eexists. intros rest idxs. cbn [validate]. rewrite C, R, S, I.
        cbn [negb]. unfold bind at 1. rewrite (out_of_range_eval _ _ w l D).
        fold max. rewrite O. reflexivity.
    - right. apply orb_false_iff in O as [O1 O2].
      apply Z.ltb_ge in O1, O2. split.
      + apply valid_single; trivial. lia.
      + exists [Num.decimal 0 d]. split.
        * constructor; [lia | constructor].
        * intros rest idxs. cbn [validate]. rewrite C, R, S, I.
          cbn [negb]. unfold bind at 1. rewrite (out_of_range_eval _ _ w l D).
          fold max. replace (_ || _) with false; [reflexivity|].
          symmetry. apply orb_false_iff. split; apply Z.ltb_ge; lia. }
  left. split.
  - intros V. apply valid_spec_read in V as [_ [(R' & _) | (_ & S' & _)]];
      congruence.
  - eexists. intros rest idxs. cbn [validate]. rewrite C, R, S. reflexivity.
Qed.

(** The whole loop: either some spec is invalid, and the command returns 1
    after one error line with nothing else changed; or every spec is valid,
    nothing is printed, and the indices found are within the selection. *)
Lemma validate_outcome (specs : list string) (idxs : list Z) (w : world)
  (l : list item) :
  data w = Some l ->
  let max := Z.of_nat (List.length l) in
  (Exists (fun spec => ~ valid_spec max spec) specs /\
   exists msg,
     validate specs idxs w =
       Returns (inl 1) (with_history (history w ++ [Print Error msg]) w)) \/
  (Forall (valid_spec max) specs /\
   exists more, Forall (fun i => 1 <= i <= max) more /\
     validate specs idxs w = Returns (inr (idxs ++ more)%list) w).
Proof.
  intros D max. revert idxs.
  induction specs as [|spec rest IH]; intros idxs.
  - right. split; [constructor|]. exists []. split; [constructor|].
    now rewrite app_nil_r.
  - destruct (validate_step spec w l D) as
      [(V & msg & E) | (V & more & F & E)].
    + left. split; [now left|]. exists msg. apply E.
    + rewrite E. destruct (IH (idxs ++ more)%list) as
        [(X & msg & E') | (A & more' & F' & E')].
      * left. split; [now right|]. eauto.
      * right. split; [now constructor|]. exists (more ++ more')%list.
        split; [now apply Forall_app|]. now rewrite app_assoc.
Qed.

(** ** Removing positions from a list *)

Lemma keep_outside_from_seq {A} (ks : list nat) (l : list A) (i : nat) :
  map snd (filter (fun '(j, _) => negb (mem_nat j ks))
             (combine (seq i (List.length l)) l)) = keep_from i ks l.
Proof.
  revert i. induction l as [|x l IH]; intros i; [reflexivity|].
  simpl. destruct (mem_nat i ks); simpl; now rewrite IH.
Qed.

Lemma keep_outside_from {A} (ks : list nat) (l : list A) :
  keep_outside ks l = keep_from 0 ks l.
Proof. apply keep_outside_from_seq. Qed.

Lemma mem_nat_In (k : nat) (ks : list nat) : mem_nat k ks = true <-> In k ks.
Proof.
  unfold mem_nat. rewrite existsb_exists. split.
  - intros (x & H & E). apply Nat.eqb_eq in E. now subst.
  - intros H. exists k. split; [exact H | apply Nat.eqb_refl].
Qed.

Lemma keep_from_below {A} (ks : list nat) (l : list A) (i : nat) :
  (forall k, In k ks -> (k < i)%nat) -> keep_from i ks l = l.
Proof.
  revert i. induction l as [|x l IH]; intros i B; [reflexivity|].
  simpl. destruct (mem_nat i ks) eqn:M.
  - apply mem_nat_In, B in M. lia.
  - f_equal. apply IH. intros k H. apply B in H. lia.
Qed.

Lemma keep_from_remove_nth {A} (l : list A) (i k : nat) (ks : list nat) :
  (k < List.length l)%nat ->
  (forall j, In j ks -> (j < i + k)%nat) ->
  keep_from i ks (PyList.remove_nth k l) = keep_from i ((i + k)%nat :: ks) l.
Proof.
  revert i k. induction l as [|x l IH]; intros i k K B; [simpl in K; lia|].
  destruct k as [|k]; cbn [PyList.remove_nth keep_from].
  - replace (mem_nat i ((i + 0)%nat :: ks)) with true.
    2:{ symmetry. apply mem_nat_In. left. lia. }
    rewrite !keep_from_below; trivial.
    + intros j [<- | H]; [lia|]. apply B in H. lia.
    + intros j H. apply B in H. lia.
  - assert (E : mem_nat i ((i + S k)%nat :: ks) = mem_nat i ks).
    { unfold mem_nat. simpl. replace (i =? i + S k)%nat with false; [reflexivity|].
      symmetry. apply Nat.eqb_neq. lia. }
    rewrite E. replace (i + S k)%nat with (S i + k)%nat by lia.
    simpl in K.
    rewrite (IH (S i) k) by (try lia; intros j H; apply B in H; lia).
    reflexivity.
Qed.

Lemma remove_nth_length {A} (l : list A) (k : nat) :
  (k < List.length l)%nat ->
  List.length (PyList.remove_nth k l) = pred (List.length l).
Proof.
  revert k. induction l as [|x l IH]; intros k K; [simpl in K; lia|].
  destruct k as [|k]; simpl; [reflexivity|].
  simpl in K. rewrite IH by lia. destruct l; simpl in *; lia.
Qed.

(** Removing positions from the largest down leaves the items at the
    other positions. *)
Lemma remove_each_descending {A} (ks : list nat) (l : list A) :
  StronglySorted gt ks ->
  (forall k, In k ks -> (k < List.length l)%nat) ->
  remove_each ks l = keep_outside ks l.
Proof.
  revert l. induction ks as [|k ks IH]; intros l S B.
  - unfold remove_each. simpl. rewrite keep_outside_from.
    symmetry. apply keep_from_below. intros k [].
  - apply StronglySorted_inv in S as [S F].
    rewrite Forall_forall in F.
    assert (K : (k < List.length l)%nat) by (apply B; now left).
    change (remove_each (k :: ks) l) with (remove_each ks (PyList.remove_nth k l)).
    rewrite IH; trivial.
    + rewrite !keep_outside_from.
      apply (keep_from_remove_nth l 0 k ks K).
      intros j H. apply F in H. lia.
    + intros j H. rewrite remove_nth_length by exact K.
      apply F in H. lia.
Qed.

Lemma keep_outside_same {A} (ks ks' : list nat) (l : list A) :
  (forall k, In k ks <-> In k ks') ->
  keep_outside ks l = keep_outside ks' l.
Proof.
  intros E. unfold keep_outside. f_equal. apply filter_ext.
  intros [i x]. f_equal.
  destruct (mem_nat i ks) eqn:M, (mem_nat i ks') eqn:M'; trivial.
  - apply mem_nat_In, E, mem_nat_In in M. congruence.
  - apply mem_nat_In, E, mem_nat_In in M'. congruence.
Qed.

(** ** Sorting in descending order *)

Lemma insert_desc_perm (x : Z) (l : list Z) :
  Permutation (Num.insert_desc x l) (x :: l).
Proof.
  induction l as [|y l IH]; simpl; [reflexivity|].
  destruct (y <=? x); [reflexivity|].
  rewrite IH. apply perm_swap.
Qed.

Lemma sorted_desc_perm (l : list Z) : Permutation (Num.sorted_desc l) l.
Proof.
  induction l as [|x l IH]; simpl; [reflexivity|].
  rewrite insert_desc_perm. now constructor.
Qed.

Lemma insert_desc_sorted (x : Z) (l : list Z) :
  StronglySorted Z.ge l -> StronglySorted Z.ge (Num.insert_desc x l).
Proof.
  induction l as [|y l IH]; intros S; simpl.
  - repeat constructor.
  - apply StronglySorted_inv in S as [S F].
    destruct (y <=? x) eqn:C.
    + apply Z.leb_le in C. constructor; [now constructor|].
      constructor; [lia|]. eapply Forall_impl; [|exact F]. simpl. lia.
    + apply Z.leb_gt in C. constructor; [now apply IH|].
      rewrite Forall_forall. intros z H.
      apply (Permutation_in _ (insert_desc_perm x l)) in H.
      destruct H as [<- | H]; [lia|].
      rewrite Forall_forall in F. now apply F.
Qed.

Lemma sorted_desc_sorted (l : list Z) : StronglySorted Z.ge (Num.sorted_desc l).
Proof.
  induction l as [|x l IH]; simpl; [constructor|].
  now apply insert_desc_sorted.
Qed.

Lemma sorted_nodup_strict (l : list Z) :
  StronglySorted Z.ge l -> NoDup l -> StronglySorted Z.gt l.
Proof.
  induction l as [|x l IH]; intros S N; [constructor|].
  apply StronglySorted_inv in S as [S F]. inversion N as [|? ? X N']. subst.
  constructor; [now apply IH|].
  rewrite Forall_forall in *. intros y H.
  assert (x <> y) by (intros ->; contradiction).
  specialize (F y H). lia.
Qed.

(** Distinct indices, sorted in reverse, come out strictly descending. *)
Lemma sorted_desc_strict (l : list Z) :
  NoDup l -> StronglySorted Z.gt (Num.sorted_desc l).
Proof.
  intros N. apply sorted_nodup_strict; [apply sorted_desc_sorted|].
  eapply Permutation_NoDup; [|exact N].
  symmetry. apply sorted_desc_perm.
Qed.

Lemma positions_strict (idxs : list Z) :
  Forall (fun i => 1 <= i) idxs ->
  StronglySorted Z.gt idxs -> StronglySorted gt (positions idxs).
Proof.
  induction idxs as [|i idxs IH]; intros B S; [constructor|].
  apply StronglySorted_inv in S as [S F]. inversion B as [|? ? Bi B']. subst.
  simpl. constructor; [now apply IH|].
  unfold positions. rewrite Forall_map, Forall_forall in *.
  intros j H. specialize (F j H). specialize (B' j H). lia.
Qed.

(** ** Running the delete loops *)

Lemma bind_returns {A B} (m : M A) (k : A -> M B) (w w' : world) (a : A) :
  m w = Returns a w' -> bind m k w = k a w'.
Proof. unfold bind. now intros ->. Qed.

Lemma bind_raises {A B} (m : M A) (k : A -> M B) (w w' : world) (e : exn) :
  m w = Raises e w' -> bind m k w = Raises e w'.
Proof. unfold bind. now intros ->. Qed.

Lemma with_history_twice (h h' : list event) (w : world) :
  with_history h (with_history h' w) = with_history h w.
Proof. reflexivity. Qed.

Lemma with_history_same (w : world) : with_history (history w) w = w.
Proof. now destruct w. Qed.

Lemma mutate_with_history (f : forall A, list A -> list A) (h : list event)
  (w : world) :
  mutate_data f (with_history h w) = with_history h (mutate_data f w).
Proof.
  destruct w as [wl bl [p t pg] i d wf bf ht now hs].
  destruct p as [|rows|[]|[] found]; reflexivity.
Qed.

Lemma mutate_twice (f g : forall A, list A -> list A) (w : world) :
  mutate_data g (mutate_data f w) = mutate_data (fun A l => g A (f A l)) w.
Proof.
  destruct w as [wl bl [p t pg] i d wf bf ht now hs].
  destruct p as [|rows|[]|[] found]; reflexivity.
Qed.

Lemma mutate_nothing (f : forall A, list A -> list A) (w : world) :
  (forall A l, f A l = l) -> mutate_data f w = w.
Proof.
  intros E. destruct w as [wl bl [p t pg] i d wf bf ht now hs].
  destruct p as [|rows|[]|[] found]; unfold mutate_data, with_picked,
    with_selection, with_global_list, global_list; simpl; now rewrite ?E.
Qed.

Lemma map_remove_nth {A B} (g : A -> B) (k : nat) (l : list A) :
  map g (PyList.remove_nth k l) = PyList.remove_nth k (map g l).
Proof.
  revert k. induction l as [|x l IH]; intros k; [now destruct k|].
  destruct k; simpl; [reflexivity|]. now rewrite IH.
Qed.

Lemma map_remove_each {A B} (g : A -> B) (ks : list nat) (l : list A) :
  map g (remove_each ks l) = remove_each ks (map g l).
Proof.
  revert l. induction ks as [|k ks IH]; intros l; [reflexivity|].
  change (map g (remove_each ks (PyList.remove_nth k l)) =
          remove_each ks (PyList.remove_nth k (map g l))).
  now rewrite IH, map_remove_nth.
Qed.

(** The items after positions were removed in place. *)
Lemma data_after_removals (ks : list nat) (w : world) (l : list item) :
  data w = Some l ->
  data (mutate_data (fun A => remove_each ks) w) = Some (remove_each ks l).
Proof.
  destruct w as [wl bl [p t pg] i d wf bf ht now hs].
  destruct p as [|rows|[]|[] found]; unfold data; simpl;
    intros [= <-]; now rewrite ?map_remove_each.
Qed.

Lemma position_in_range (n : nat) (i : Z) :
  1 <= i <= Z.of_nat n ->
  PyList.position n (i - 1) = Some (Z.to_nat (i - 1)) /\
  (Z.to_nat (i - 1) < n)%nat.
Proof.
  intros B. unfold PyList.position.
  replace (i - 1 <? 0) with false by (symmetry; apply Z.ltb_ge; lia).
  replace (0 <=? i - 1) with true by (symmetry; apply Z.leb_le; lia).
  replace (i - 1 <? Z.of_nat n) with true by (symmetry; apply Z.ltb_lt; lia).
  split; [reflexivity | lia].
Qed.

(** The loop of [cmd_delete_by_number] on strictly descending indices
    within the selection: every turn finds its item, and the positions are
    removed in that order. *)
Lemma delete_numbered_run (idxs : list Z) :
  forall (ct : Z) (w : world) (l : list item),
    data w = Some l ->
    StronglySorted Z.gt idxs ->
    Forall (fun i => 1 <= i <= Z.of_nat (List.length l)) idxs ->
    exists h,
      delete_numbered idxs ct w =
        Returns (ct + Z.of_nat (List.length idxs))
          (with_history (history w ++ h)
             (mutate_data (fun A => remove_each (positions idxs)) w)) /\
      deleted_positions h = positions idxs /\
      store_deletions h = [].
Proof.
  induction idxs as [|i rest IH]; intros ct w l D S B.
  - exists []. cbn [delete_numbered]. unfold ret.
    rewrite app_nil_r, mutate_nothing, with_history_same by reflexivity.
    rewrite Z.add_0_r. auto.
  - apply StronglySorted_inv in S as [S F]. inversion B as [|? ? Bi B']. subst.
    destruct (position_in_range _ _ Bi) as [P K].
    destruct (nth_error l (Z.to_nat (i - 1))) as [c|] eqn:N.
    2:{ apply nth_error_None in N. lia. }
    set (w1 := with_history (history w ++ [Print Action ("Deleting: " ++ item_repr c)]) w).
    set (w2 := with_history (history w1 ++ [DelItem (Z.to_nat (i - 1))])
                 (mutate_data (fun A => PyList.remove_nth (Z.to_nat (i - 1))) w1)).
    assert (D2 : data w2 = Some (PyList.remove_nth (Z.to_nat (i - 1)) l)).
    { unfold w2, w1. rewrite mutate_with_history, with_history_twice.
      rewrite data_with_history.
      apply (data_after_removals [Z.to_nat (i - 1)] w l D). }
    destruct (IH (ct + 1) w2 _ D2 S) as (h & E & HP & HS).
    { rewrite Forall_forall in *. intros j H.
      rewrite remove_nth_length by exact K.
      specialize (F j H). specialize (B' j H). lia. }
    exists (Print Action ("Deleting: " ++ item_repr c) :: DelItem (Z.to_nat (i - 1)) :: h).
    split; [|split].
    + cbn [delete_numbered].
      rewrite (bind_returns _ _ w w c).
      2:{ unfold data_getitem, PyList.getitem. now rewrite D, P, N. }
      rewrite (bind_returns _ _ w w1 tt) by reflexivity.
      rewrite (bind_returns _ _ w1 w2 tt).
      2:{ unfold data_delitem. unfold w1 at 1. rewrite data_with_history, D, P.
          reflexivity. }
      rewrite E. f_equal.
      * simpl List.length. lia.
      * unfold w2, w1. rewrite !mutate_with_history, !with_history_twice.
        rewrite mutate_twice. cbn [history with_history].
        rewrite <- !app_assoc. reflexivity.
    + cbn [deleted_positions flat_map]. simpl.
      unfold deleted_positions in HP. now rewrite HP.
    + cbn [store_deletions flat_map]. simpl. exact HS.
Qed.

(** Reading the cookies that one-based indices within the selection name. *)
Lemma cookies_at_run (idxs : list Z) (w : world) (rows : list cookie) :
  picked (selection w) = CookieRows rows ->
  Forall (fun i => 1 <= i <= Z.of_nat (List.length rows)) idxs ->
  exists cs,
    mapM (fun i => cookie_getitem (i - 1)) idxs w = Returns cs w /\
    Forall2 (fun i c => nth_error rows (Z.to_nat (i - 1)) = Some c) idxs cs.
Proof.
  intros P. induction idxs as [|i rest IH]; intros B.
  - exists []. split; [reflexivity | constructor].
  - inversion B as [|? ? Bi B']. subst.
    destruct (IH B') as (cs & E & F).
    destruct (position_in_range _ _ Bi) as [Pos K].
    destruct (nth_error rows (Z.to_nat (i - 1))) as [c|] eqn:N.
    2:{ apply nth_error_None in N. lia. }
    exists (c :: cs). split; [|now constructor].
    cbn [mapM]. rewrite (bind_returns _ _ w w c).
    + now rewrite (bind_returns _ _ w w cs E).
    + unfold cookie_getitem. rewrite (bind_returns _ _ w w (ACookie c)); [reflexivity|].
      unfold data_getitem, data, PyList.getitem. rewrite P, length_map, Pos.
      now rewrite nth_error_map, N.
Qed.

(** The [DELETE] statements on a readable database. *)
Lemma cookie_delete_run (cs : list cookie) :
  forall (w : world) (rows : list cookie),
    db w = Table rows ->
    cookie_delete cs w =
      Returns tt
        (with_history (history w ++ map sql_delete_event cs)
           (with_db (Table (delete_rows cs rows)) w)).
Proof.
  induction cs as [|c cs IH]; intros w rows D.
  - cbn [cookie_delete map]. unfold ret, delete_rows. simpl.
    rewrite app_nil_r. f_equal. destruct w. simpl in *. now subst.
  - cbn [cookie_delete]. unfold bind, sql_delete. rewrite D.
    erewrite IH by reflexivity. f_equal. cbn [history with_history].
    rewrite <- app_assoc. reflexivity.
Qed.

Lemma store_deletions_sql (cs : list cookie) :
  store_deletions (map sql_delete_event cs) = map key cs.
Proof. induction cs as [|c cs IH]; simpl; [reflexivity|]. now rewrite IH. Qed.

Lemma deleted_positions_sql (cs : list cookie) :
  deleted_positions (map sql_delete_event cs) = [].
Proof. induction cs as [|c cs IH]; simpl; trivial. Qed.

Lemma since_app (w : world) (h : list event) (w' : world) :
  history w' = (history w ++ h)%list -> since w w' = h.
Proof.
  intros E. unfold since. rewrite E.
  rewrite skipn_app, skipn_all, Nat.sub_diag. reflexivity.
Qed.

(** ** Deleting by number *)

Lemma parses_within (w : world) (l : list item) (expr : string)
  (idxs : list Z) :
  data w = Some l -> parses w expr idxs ->
  Forall (fun i => 1 <= i <= Z.of_nat (List.length l)) idxs /\
  Forall (valid_spec (Z.of_nat (List.length l))) (Str.split "," expr).
Proof.
  intros D P. unfold parses in P.
  destruct (validate_outcome (Str.split "," expr) [] w l D)
    as [(_ & msg & E) | (V & more & F & E)].
  - rewrite E in P. discriminate.
  - rewrite E in P. injection P as <-. auto.
Qed.

Lemma parses_nonempty (w : world) (expr : string) (idxs : list Z) :
  parses w expr idxs -> missing (Some expr) = false.
Proof.
  intros P. destruct expr; [|reflexivity].
  unfold parses in P. cbn in P. discriminate.
Qed.

Lemma deleted_message_run (ct : Z) (w : world) :
  exists msg,
    deleted_message ct w =
      Returns tt (with_history (history w ++ [Print Info msg]) w).
Proof.
  unfold deleted_message, bind, gets, info, emit, modify.
  eexists. reflexivity.
Qed.

Lemma positions_sorted_same (idxs : list Z) (k : nat) :
  In k (positions (Num.sorted_desc idxs)) <-> In k (positions idxs).
Proof.
  unfold positions. split; apply Permutation_in, Permutation_map.
  - apply sorted_desc_perm.
  - symmetry. apply sorted_desc_perm.
Qed.

(** The run of [dn] on an expression that resolves to distinct indices:
    the statements on the database first, then the removals from the
    list, from the largest index down, then one line of summary. *)
Lemma delete_by_number_run (w : world) (l : list item) (expr : string)
  (idxs : list Z) :
  data w = Some l ->
  (type_is_cookies w = true -> exists rows, db w = Table rows) ->
  parses w expr idxs ->
  NoDup idxs ->
  exists hs hd msg d,
    cmd_delete_by_number (Some expr) w =
      Returns None
        (with_history (history w ++ hs ++ hd ++ [Print Info msg])
           (mutate_data
              (fun A => remove_each (positions (Num.sorted_desc idxs)))
              (with_db d w))) /\
    deleted_positions hs = [] /\
    deleted_positions hd = positions (Num.sorted_desc idxs) /\
    store_deletions hd = [] /\
    (if type_is_cookies w
     then exists cs rows,
         Forall2 (fun i c =>
                    nth_error (selected_cookies w) (Z.to_nat (i - 1)) = Some c)
           idxs cs /\
         hs = map sql_delete_event cs /\
         db w = Table rows /\ d = Table (delete_rows cs rows)
     else hs = [] /\ d = db w).
Proof.
  intros D Db P N.
  destruct (parses_within w l expr idxs D P) as [B _].
  assert (Bs : Forall (fun i => 1 <= i <= Z.of_nat (List.length l))
                 (Num.sorted_desc idxs)).
  { rewrite Forall_forall in *. intros i H. apply B.
    now apply (Permutation_in _ (sorted_desc_perm idxs)). }
  assert (S := sorted_desc_strict idxs N).
  unfold cmd_delete_by_number. rewrite (parses_nonempty w expr idxs P).
  cbn [arg_text]. rewrite (bind_returns _ _ w w (inr idxs) P).
  rewrite (bind_returns _ _ w w (type_is_cookies w)) by reflexivity.
  destruct (type_is_cookies w) eqn:T.
  - destruct (Db eq_refl) as [rows Dr].
    apply type_is_cookies_rows in T as [crows Pk].
    assert (L : l = map ACookie crows).
    { unfold data in D. rewrite Pk in D. congruence. }
    assert (B' : Forall (fun i => 1 <= i <= Z.of_nat (List.length crows)) idxs).
    { subst l. now rewrite length_map in B. }
    destruct (cookies_at_run idxs w crows Pk B') as (cs & E & F).
    set (w1 := with_history (history w ++ map sql_delete_event cs)
                 (with_db (Table (delete_rows cs rows)) w)).
    assert (D1 : data w1 = Some l) by exact D.
    destruct (delete_numbered_run _ 0 w1 l D1 S Bs) as (hd & E2 & HP & HS).
    destruct (deleted_message_run
                (0 + Z.of_nat (List.length (Num.sorted_desc idxs)))
                (with_history (history w1 ++ hd)
                   (mutate_data
                      (fun A => remove_each (positions (Num.sorted_desc idxs)))
                      w1))) as (msg & E3).
    exists (map sql_delete_event cs), hd, msg, (Table (delete_rows cs rows)).
    split; [|split; [|split; [|split]]]; trivial.
    + rewrite (bind_returns _ _ w w1 tt).
      2:{ rewrite (bind_returns _ _ w w cs E).
          now apply cookie_delete_run. }
      rewrite (bind_returns _ _ _ _ _ E2).
      rewrite (bind_returns _ _ _ _ _ E3).
      unfold ret. f_equal. unfold w1.
      rewrite !mutate_with_history, !with_history_twice.
      cbn [history with_history]. rewrite <- !app_assoc. reflexivity.
    + apply deleted_positions_sql.
    + exists cs, rows. unfold selected_cookies. rewrite Pk. auto.
  - destruct (delete_numbered_run _ 0 w l D S Bs) as (hd & E2 & HP & HS).
    destruct (deleted_message_run
                (0 + Z.of_nat (List.length (Num.sorted_desc idxs)))
                (with_history (history w ++ hd)
                   (mutate_data
                      (fun A => remove_each (positions (Num.sorted_desc idxs)))
                      w))) as (msg & E3).
    exists [], hd, msg, (db w).
    split; [|split; [|split; [|split]]]; auto.
    rewrite (bind_returns _ _ w w tt) by reflexivity.
    rewrite (bind_returns _ _ _ _ _ E2).
    rewrite (bind_returns _ _ _ _ _ E3).
    unfold ret. f_equal.
    rewrite !with_history_twice. cbn [history with_history app].
    rewrite <- !app_assoc. f_equal. f_equal.
    destruct w; reflexivity.
Qed.

(** The items left by removals at the positions of distinct indices within
    the list, made from the largest down. *)
Lemma remove_each_sorted_positions {A} (idxs : list Z) (l : list A) :
  NoDup idxs ->
  Forall (fun i => 1 <= i <= Z.of_nat (List.length l)) idxs ->
  remove_each (positions (Num.sorted_desc idxs)) l =
    keep_outside (positions idxs) l.
Proof.
  intros N B.
  rewrite remove_each_descending.
  - apply keep_outside_same, positions_sorted_same.
  - apply positions_strict; [|now apply sorted_desc_strict].
    rewrite Forall_forall in *. intros i H.
    apply (Permutation_in _ (sorted_desc_perm idxs)), B in H. lia.
  - intros k H. apply (proj1 (positions_sorted_same idxs k)) in H.
    unfold positions in H. apply in_map_iff in H as (i & <- & H).
    rewrite Forall_forall in B. apply B in H. lia.
Qed.



(** ** The selection and the global lists *)

Lemma quit_saves (which : list_name) (w : world) :
  saved which (final (cmd_quit w)) = Some (global_list which w).
Proof.
  unfold cmd_quit, shutdown, save_json_file, vacuum, bind, gets, modify,
    emit, raise, ret. simpl.
  destruct (db w), which; reflexivity.
Qed.


Lemma select_matching_run (which : list_name) (host : string) (w : world) :
  missing (Some host) = false ->
  exists caption,
    select_matching which host w =
      Returns None
        (with_selection
           {| picked := Matches which
                          (filter (Str.contains host) (global_list which w));
              title := Some caption; page := 0 |} w).
Proof.
  intros M. destruct which; eexists;
    unfold select_matching, cmd_select_blacklist_by_host,
      cmd_select_whitelist_by_host, select_by_host; rewrite M; reflexivity.
Qed.

Lemma global_list_with_history (which : list_name) (h : list event)
  (w : world) :
  global_list which (with_history h w) = global_list which w.
Proof. now destruct which. Qed.





Lemma type_is_cookies_lists (w : world) (which : list_name) :
  (picked (selection w) = WholeList which \/
   exists found, picked (selection w) = Matches which found) ->
  type_is_cookies w = false.
Proof.
  unfold type_is_cookies, type.
  intros [-> | [found ->]]; now destruct which.
Qed.



(** ** The scenarios *)


Lemma scenario_D_message :
  printed (since Scenario.five
             (final (cmd_delete_by_number (Some "3,9") Scenario.five))) =
    [(Error, "Index '9' is out of range")].
Proof. reflexivity. Qed.



(** Scenario A, evaluated: the cookies first and third are left, the
    positions go in the order 5, 4, 2, after the three [DELETE]
    statements. *)
Lemma scenario_A :
  let w' := final (cmd_delete_by_number (Some "2,4-5") Scenario.five) in
  selected_cookies w' = [Sample.a; Sample.c] /\
  deleted_positions (since Scenario.five w') = [4%nat; 3%nat; 1%nat] /\
  store_deletions (since Scenario.five w') =
    [key Sample.b; key Sample.d; key Sample.e] /\
  db w' = Table [Sample.a; Sample.c].
Proof. vm_compute. repeat split. Qed.




(** The same, evaluated: the second host leaves the blacklist and the file
    in the first run, and only the selection in the second. *)
Lemma scenario_shared_and_copied :
  let gone := final (cmd_delete_by_number (Some "2")
                       (final (cmd_select_blacklist_all Scenario.three_hosts))) in
  let kept := final (cmd_delete_by_number (Some "2")
                       (final (cmd_select_blacklist_by_host (Some "example.com")
                                 Scenario.three_hosts))) in
  blacklist gone = ["ads.example.com"; "evil.example.org"] /\
  bl_file (final (cmd_quit gone)) = Some ["ads.example.com"; "evil.example.org"] /\
  data kept = Some [AHost "ads.example.com"] /\
  blacklist kept = ["ads.example.com"; "cdn.example.com"; "evil.example.org"] /\
  bl_file (final (cmd_quit kept)) =
    Some ["ads.example.com"; "cdn.example.com"; "evil.example.org"].
Proof. vm_compute. repeat split. Qed.

(** ** The order of store deletions and removals *)

Lemma final_bind {A B} (m : M A) (k : A -> M B) (w : world) :
  final (bind m k w) =
    match m w with
    | Returns a w' => final (k a w')
    | Raises _ w' => w'
    end.
Proof. unfold bind. now destruct (m w). Qed.

Lemma emits_bind {A B} (ok : event -> bool) (m : M A) (k : A -> M B) :
  emits_only ok m -> (forall a, emits_only ok (k a)) ->
  emits_only ok (bind m k).
Proof.
  intros Hm Hk w. rewrite final_bind.
  destruct (Hm w) as (h & E & F). destruct (m w) as [a w'|e w']; cbn [final] in E.
  - destruct (Hk a w') as (h' & E' & F'). exists (h ++ h')%list.
    rewrite E', E, app_assoc, forallb_app, F, F'. auto.
  - exists h. auto.
Qed.

(** A step that leaves the history alone. *)
Lemma emits_nothing {A} (ok : event -> bool) (m : M A) :
  (forall w, history (final (m w)) = history w) -> emits_only ok m.
Proof. intros H w. exists []. now rewrite app_nil_r, H. Qed.

Lemma emits_emit (ok : event -> bool) (e : event) :
  ok e = true -> emits_only ok (emit e).
Proof. intros H w. exists [e]. simpl. now rewrite H. Qed.

Lemma emits_ret {A} (ok : event -> bool) (a : A) : emits_only ok (ret a).
Proof. now apply emits_nothing. Qed.

Lemma emits_raise {A} (ok : event -> bool) (e : exn) :
  emits_only ok (@raise A e).
Proof. now apply emits_nothing. Qed.

Lemma emits_gets {A} (ok : event -> bool) (f : world -> A) :
  emits_only ok (gets f).
Proof. now apply emits_nothing. Qed.

Lemma emits_data_len (ok : event -> bool) : emits_only ok data_len.
Proof.
  apply emits_nothing. intros w. unfold data_len. now destruct (data w).
Qed.

Lemma emits_data_getitem (ok : event -> bool) (i : Z) :
  emits_only ok (data_getitem i).
Proof.
  apply emits_nothing. intros w. unfold data_getitem.
  destruct (data w) as [l|]; [|reflexivity].
  now destruct (PyList.getitem l i).
Qed.

Lemma emits_cookie_getitem (ok : event -> bool) (i : Z) :
  emits_only ok (cookie_getitem i).
Proof.
  apply emits_bind; [apply emits_data_getitem|].
  intros [c|h]; [apply emits_ret | apply emits_raise].
Qed.

Lemma emits_cookie_rows (ok : event -> bool) : emits_only ok cookie_rows.
Proof.
  apply emits_nothing. intros w. unfold cookie_rows.
  now destruct (picked (selection w)).
Qed.

Lemma emits_whitelisted (ok : event -> bool) (c : cookie) :
  emits_only ok (whitelisted c).
Proof. apply emits_gets. Qed.

Lemma emits_mapM {A B} (ok : event -> bool) (f : A -> M B) (l : list A) :
  (forall a, emits_only ok (f a)) -> emits_only ok (mapM f l).
Proof.
  intros H. induction l as [|a l IH]; cbn [mapM]; [apply emits_ret|].
  apply emits_bind; [apply H|]. intros b.
  apply emits_bind; [apply IH|]. intros bs. apply emits_ret.
Qed.

Lemma emits_foldM {A B} (ok : event -> bool) (f : B -> A -> M B)
  (l : list A) (b : B) :
  (forall b a, emits_only ok (f b a)) -> emits_only ok (foldM f l b).
Proof.
  intros H. revert b. induction l as [|a l IH]; intros b; cbn [foldM].
  - apply emits_ret.
  - apply emits_bind; [apply H | apply IH].
Qed.

Section Printing.

Variable ok : event -> bool.
Hypothesis ok_print : forall st msg, ok (Print st msg) = true.

Lemma emits_info (msg : string) : emits_only ok (info msg).
Proof. apply emits_emit, ok_print. Qed.

Lemma emits_act (msg : string) : emits_only ok (act msg).
Proof. apply emits_emit, ok_print. Qed.

Lemma emits_warn (msg : string) : emits_only ok (warn msg).
Proof.
  apply emits_bind; [apply emits_emit, ok_print | intros; apply emits_ret].
Qed.

Lemma emits_err (msg : string) : emits_only ok (err msg).
Proof.
  apply emits_bind; [apply emits_emit, ok_print | intros; apply emits_ret].
Qed.

Lemma emits_out_of_range (a b : Z) : emits_only ok (out_of_range a b).
Proof.
  unfold out_of_range. destruct (a <? 1); [apply emits_ret|].
  apply emits_bind; [apply emits_data_len | intros; apply emits_ret].
Qed.

Lemma emits_fail (msg : string) (B : Type) :
  emits_only ok (r <- err msg ;; ret (@inl Z B r)).
Proof. apply emits_bind; [apply emits_err | intros; apply emits_ret]. Qed.

(** The validation loop only prints. *)
Lemma emits_validate (specs : list string) (idxs : list Z) :
  emits_only ok (validate specs idxs).
Proof.
  revert idxs. induction specs as [|spec rest IH]; intros idxs;
    cbn [validate]; [apply emits_ret|].
  destruct (negb (Re.match_spec_chars spec)); [apply emits_fail|].
  destruct (Re.match_range spec).
  { destruct (map Num.int (Str.split "-" spec)) as [|[a|] [|[b|] [|? ?]]];
      try apply emits_raise.
    apply emits_bind; [apply emits_out_of_range|].
    intros []; [apply emits_fail | apply IH]. }
  destruct (Re.match_single spec); [|apply emits_fail].
  destruct (Num.int spec) as [n|]; [|apply emits_raise].
  apply emits_bind; [apply emits_out_of_range|].
  intros []; [apply emits_fail | apply IH].
Qed.

Lemma emits_deleted_message (ct : Z) : emits_only ok (deleted_message ct).
Proof.
  apply emits_bind; [apply emits_gets|]. intros c.
  apply emits_bind; [apply emits_gets|]. intros t. apply emits_info.
Qed.

Lemma emits_cookies_only_warning : emits_only ok cookies_only_warning.
Proof.
  apply emits_bind; [apply emits_warn | intros; apply emits_ret].
Qed.

End Printing.

Lemma calm_print (st : style) (msg : string) :
  negb (touches_selection (Print st msg)) = true.
Proof. reflexivity. Qed.

Lemma dry_print (st : style) (msg : string) :
  negb (is_sql_delete (Print st msg)) = true.
Proof. reflexivity. Qed.

(** The statements on the store remove nothing from the selection. *)
Lemma emits_cookie_delete (cs : list cookie) :
  emits_only (fun e => negb (touches_selection e)) (cookie_delete cs).
Proof.
  induction cs as [|c cs IH]; cbn [cookie_delete]; [apply emits_ret|].
  apply emits_bind; [|intros; apply IH].
  intros w. unfold sql_delete. destruct (db w).
  - exists []. now rewrite app_nil_r.
  - eexists [_]. split; reflexivity.
Qed.

Lemma emits_data_delitem (i : Z) :
  emits_only (fun e => negb (is_sql_delete e)) (data_delitem i).
Proof.
  intros w. unfold data_delitem. destruct (data w) as [l|].
  - destruct (PyList.position (List.length l) i).
    + eexists [_]. split; reflexivity.
    + exists []. now rewrite app_nil_r.
  - exists []. now rewrite app_nil_r.
Qed.

Lemma emits_data_clear :
  emits_only (fun e => negb (is_sql_delete e)) data_clear.
Proof.
  intros w. unfold data_clear. destruct (data w) as [l|].
  - eexists [_]. split; reflexivity.
  - exists []. now rewrite app_nil_r.
Qed.

(** The removal loops delete nothing from the store. *)
Lemma emits_delete_numbered (idxs : list Z) (ct : Z) :
  emits_only (fun e => negb (is_sql_delete e)) (delete_numbered idxs ct).
Proof.
  revert ct. induction idxs as [|i rest IH]; intros ct;
    cbn [delete_numbered]; [apply emits_ret|].
  apply emits_bind; [apply emits_data_getitem|]. intros c.
  apply emits_bind; [apply emits_act, dry_print|]. intros _.
  apply emits_bind; [apply emits_data_delitem|]. intros _. apply IH.
Qed.

Lemma emits_delete_each (idxs : list Z) (ct : Z) :
  emits_only (fun e => negb (is_sql_delete e)) (delete_each idxs ct).
Proof.
  revert ct. induction idxs as [|i rest IH]; intros ct;
    cbn [delete_each]; [apply emits_ret|].
  apply emits_bind; [apply emits_data_delitem|]. intros _. apply IH.
Qed.

Lemma two_phase_calm {A} (m : M A) :
  emits_only (fun e => negb (touches_selection e)) m -> two_phase m.
Proof.
  intros H w. destruct (H w) as (h & E & F). exists h, [].
  rewrite app_nil_r. repeat split; trivial.
Qed.

Lemma two_phase_dry {A} (m : M A) :
  emits_only (fun e => negb (is_sql_delete e)) m -> two_phase m.
Proof.
  intros H w. destruct (H w) as (h & E & F). exists [], h.
  repeat split; trivial.
Qed.

(** First a step that removes nothing, then the two runs. *)
Lemma two_phase_after {A B} (m : M A) (k : A -> M B) :
  emits_only (fun e => negb (touches_selection e)) m ->
  (forall a, two_phase (k a)) ->
  two_phase (bind m k).
Proof.
  intros Hm Hk w. rewrite final_bind.
  destruct (Hm w) as (h & E & F). destruct (m w) as [a w'|e w']; cbn [final] in E.
  - destruct (Hk a w') as (h1 & h2 & E' & C & D).
    exists (h ++ h1)%list, h2. rewrite E', E, <- !app_assoc.
    repeat split; trivial. unfold calm in *. now rewrite forallb_app, F, C.
  - exists h, []. rewrite app_nil_r. repeat split; trivial.
Qed.

(** First the two runs, then a step that deletes nothing. *)
Lemma two_phase_before {A B} (m : M A) (k : A -> M B) :
  two_phase m ->
  (forall a, emits_only (fun e => negb (is_sql_delete e)) (k a)) ->
  two_phase (bind m k).
Proof.
  intros Hm Hk w. rewrite final_bind.
  destruct (Hm w) as (h1 & h2 & E & C & D).
  destruct (m w) as [a w'|e w']; cbn [final] in E.
  - destruct (Hk a w') as (h & E' & F).
    exists h1, (h2 ++ h)%list. rewrite E', E, <- !app_assoc.
    repeat split; trivial. unfold dry in *. now rewrite forallb_app, D, F.
  - exists h1, h2. auto.
Qed.

Lemma two_phase_delete_by_number (number_range : option string) :
  two_phase (cmd_delete_by_number number_range).
Proof.
  unfold cmd_delete_by_number. destruct (missing number_range).
  { apply two_phase_calm, emits_bind; [apply emits_err, calm_print|].
    intros; apply emits_ret. }
  apply two_phase_after; [apply emits_validate, calm_print|].
  intros [r|idxs]; [apply two_phase_calm, emits_ret|].
  apply two_phase_after; [apply emits_gets|]. intros cookies.
  apply two_phase_after.
  { destruct cookies; [|apply emits_ret].
    apply emits_bind; [|intros; apply emits_cookie_delete].
    apply emits_mapM. intros i. apply emits_cookie_getitem. }
  intros _. apply two_phase_dry.
  apply emits_bind; [apply emits_delete_numbered|]. intros ct.
  apply emits_bind; [apply emits_deleted_message, dry_print|].
  intros; apply emits_ret.
Qed.

Lemma two_phase_delete_all : two_phase cmd_delete_all.
Proof.
  unfold cmd_delete_all.
  apply two_phase_after; [apply emits_gets|]. intros cookies.
  apply two_phase_before.
  2:{ intros ct. apply emits_bind; [apply emits_deleted_message, dry_print|].
      intros; apply emits_ret. }
  destruct cookies.
  - apply two_phase_after; [apply emits_cookie_rows|]. intros rows.
    apply two_phase_after.
    { apply emits_foldM. intros idxs [idx c]. unfold delete_all_turn.
      apply emits_bind; [apply emits_whitelisted|].
      intros []; [|apply emits_ret].
      apply emits_bind; [apply emits_info, calm_print|].
      intros; apply emits_ret. }
    intros idxs.
    apply two_phase_after; [apply emits_cookie_rows|]. intros rows'.
    apply two_phase_after; [apply emits_cookie_delete|]. intros _.
    apply two_phase_dry.
    apply emits_bind; [apply emits_delete_each|]. intros; apply emits_ret.
  - apply two_phase_dry.
    apply emits_bind; [apply emits_data_len|]. intros ct.
    apply emits_bind; [apply emits_data_clear|]. intros; apply emits_ret.
Qed.

Lemma two_phase_delete_by_expired : two_phase cmd_delete_by_expired.
Proof.
  unfold cmd_delete_by_expired.
  apply two_phase_after; [apply emits_gets|]. intros cookies.
  destruct (negb cookies).
  { apply two_phase_calm, emits_cookies_only_warning, calm_print. }
  apply two_phase_after; [apply emits_gets|]. intros ts.
  apply two_phase_after; [apply emits_cookie_rows|]. intros rows.
  apply two_phase_after.
  { apply emits_mapM. intros i. apply emits_cookie_getitem. }
  intros to_del.
  apply two_phase_after; [apply emits_cookie_delete|]. intros _.
  apply two_phase_dry.
  apply emits_bind; [apply emits_delete_each|]. intros ct.
  apply emits_bind; [apply emits_info, dry_print|]. intros; apply emits_ret.
Qed.

Lemma two_phase_delete_by_blacklist : two_phase cmd_delete_by_blacklist.
Proof.
  unfold cmd_delete_by_blacklist.
  apply two_phase_after; [apply emits_gets|]. intros cookies.
  destruct (negb cookies).
  { apply two_phase_calm, emits_cookies_only_warning, calm_print. }
  apply two_phase_after; [apply emits_gets|]. intros bl.
  apply two_phase_after.
  { apply emits_foldM. intros idxs bl_host. unfold blacklist_pass.
    apply emits_bind; [apply emits_cookie_rows|]. intros rows.
    apply emits_foldM. intros idxs' [idx c]. unfold blacklist_turn.
    destruct (host_match (host_key c) bl_host); [|apply emits_ret].
    apply emits_bind; [apply emits_whitelisted|].
    intros []; [|apply emits_ret].
    apply emits_bind; [apply emits_info, calm_print|].
    intros; apply emits_ret. }
  intros [|i idxs]; [apply two_phase_calm, emits_ret|].
  apply two_phase_delete_by_number.
Qed.

Lemma two_phase_store_first {A} (m : M A) (w : world) :
  two_phase m -> store_first (since w (final (m w))).
Proof.
  intros H. destruct (H w) as (h1 & h2 & E & C & D).
  exists h1, h2. split; [|auto]. now apply since_app.
Qed.

(** X9.  The order of effects, for every delete command, whatever its
    argument and the state: the [DELETE] statements all come before the
    first removal from the selection. *)
Lemma deletes_touch_store_first (w : world) (number_range : option string) :
  store_first (since w (final (cmd_delete_by_number number_range w))) /\
  store_first (since w (final (cmd_delete_all w))) /\
  store_first (since w (final (cmd_delete_by_expired w))) /\
  store_first (since w (final (cmd_delete_by_blacklist w))).
Proof.
  repeat split; apply two_phase_store_first.
  - apply two_phase_delete_by_number.
  - apply two_phase_delete_all.
  - apply two_phase_delete_by_expired.
  - apply two_phase_delete_by_blacklist.
Qed.

(** ** A store that fails *)

Lemma cookie_delete_unreadable (c : cookie) (cs : list cookie) (w : world) :
  db w = Unreadable ->
  cookie_delete (c :: cs) w = Raises DatabaseError w.
Proof.
  intros D. cbn [cookie_delete]. unfold bind, sql_delete. now rewrite D.
Qed.

Lemma cookie_rows_data (w : world) (rows : list cookie) :
  picked (selection w) = CookieRows rows ->
  data w = Some (map ACookie rows).
Proof. intros P. unfold data. now rewrite P. Qed.

(** [dn] on a cookie selection with a store whose statements fail:
    either the expression is refused, or it names no index, or the command
    ends in [DatabaseError] in the state it started in; the selection and
    the lists are as before in each case. *)
Lemma delete_by_number_store_failure (w : world) (rows : list cookie)
  (number_range : option string) :
  picked (selection w) = CookieRows rows ->
  db w = Unreadable ->
  let r := cmd_delete_by_number number_range w in
  (r = Raises DatabaseError w \/ exists v h, r = Returns v (with_history h w)) /\
  selection (final r) = selection w /\
  whitelist (final r) = whitelist w /\
  blacklist (final r) = blacklist w.
Proof.
  intros P D r.
  assert (G : r = Raises DatabaseError w \/
              exists v h, r = Returns v (with_history h w)).
  { unfold r, cmd_delete_by_number.
    destruct (missing number_range).
    { right. do 2 eexists. reflexivity. }
    pose proof (cookie_rows_data w rows P) as Dt.
    destruct (validate_outcome (Str.split "," (arg_text number_range)) [] w _ Dt)
      as [(_ & msg & E) | (_ & idxs & B & E)].
    { right. rewrite (bind_returns _ _ _ _ _ E). do 2 eexists. reflexivity. }
    rewrite (bind_returns _ _ _ _ _ E). cbn [app].
    rewrite (bind_returns _ _ w w true).
    2:{ unfold gets. f_equal. apply type_is_cookies_rows. eauto. }
    rewrite length_map in B.
    destruct (cookies_at_run idxs w rows P B) as (cs & Ec & F).
    destruct cs as [|c cs].
    - right. inversion F. subst.
      rewrite (bind_returns _ _ w w tt).
      2:{ now rewrite (bind_returns _ _ w w [] Ec). }
      cbn [Num.sorted_desc delete_numbered].
      rewrite (bind_returns _ _ w w 0) by reflexivity.
      destruct (deleted_message_run 0 w) as [msg Em].
      rewrite (bind_returns _ _ _ _ _ Em). do 2 eexists. reflexivity.
    - left. apply bind_raises.
      rewrite (bind_returns _ _ w w (c :: cs) Ec).
      now apply cookie_delete_unreadable. }
  split; [exact G|].
  destruct G as [-> | (v & h & ->)]; repeat split.
Qed.

(** ** Decimal text of an index, and back *)

Lemma decimal_app (acc : Z) (s t : string) :
  Num.decimal acc (s ++ t) = Num.decimal (Num.decimal acc s) t.
Proof. revert acc. induction s as [|c s IH]; intros acc; simpl; auto. Qed.

Lemma digit_cases (d : Z) :
  0 <= d < 10 ->
  d = 0 \/ d = 1 \/ d = 2 \/ d = 3 \/ d = 4 \/
  d = 5 \/ d = 6 \/ d = 7 \/ d = 8 \/ d = 9.
Proof. lia. Qed.

Lemma digit_char_val (d : Z) :
  0 <= d < 10 ->
  Num.digit_val (Num.digit_char d) = d /\
  Num.is_digit (Num.digit_char d) = true.
Proof.
  intros H. apply digit_cases in H.
  repeat (destruct H as [-> | H]; [split; reflexivity|]).
  subst. split; reflexivity.
Qed.

Lemma number_snoc (s : string) (c : ascii) :
  Str.all Num.is_digit s = true -> Num.is_digit c = true ->
  Re.number (s ++ String c "") = true.
Proof.
  intros A C. apply number_parts. split.
  - destruct s; discriminate.
  - rewrite all_app, A. unfold Str.all. simpl. now rewrite C.
Qed.

Lemma digits_number (fuel : nat) (n : Z) :
  0 <= n < 2 ^ Z.of_nat (S fuel) ->
  Re.number (Num.digits (S fuel) n) = true /\
  Num.decimal 0 (Num.digits (S fuel) n) = n.
Proof.
  revert n. induction fuel as [|fuel IH]; intros n B.
  - change (2 ^ Z.of_nat 1) with 2 in B.
    cbn [Num.digits]. replace (n <? 10) with true by (symmetry; apply Z.ltb_lt; lia).
    assert (M : n mod 10 = n) by (apply Z.mod_small; lia).
    rewrite M. destruct (digit_char_val n ltac:(lia)) as [V D].
    split; [now apply (number_snoc "")|]. simpl. rewrite V. lia.
  - remember (S fuel) as f eqn:F. cbn [Num.digits].
    assert (R : 0 <= n mod 10 < 10) by (apply Z.mod_pos_bound; lia).
    destruct (digit_char_val (n mod 10) R) as [V D].
    destruct (n <? 10) eqn:C.
    + apply Z.ltb_lt in C. rewrite Z.mod_small in * by lia.
      split; [now apply (number_snoc "")|]. simpl. rewrite V. lia.
    + apply Z.ltb_ge in C.
      assert (Q : 0 <= n / 10 < 2 ^ Z.of_nat f).
      { rewrite Nat2Z.inj_succ, Z.pow_succ_r in B by lia.
        assert (0 < 2 ^ Z.of_nat f) by (apply Z.pow_pos_nonneg; lia).
        clear IH. set (X := 2 ^ Z.of_nat f) in *.
        split; [apply Z.div_pos; lia|].
        apply Z.div_lt_upper_bound; lia. }
      subst f. destruct (IH (n / 10) Q) as [N E].
      apply number_parts in N as [_ N]. split.
      * now apply number_snoc.
      * rewrite decimal_app, E. cbn [Num.decimal]. rewrite V.
        pose proof (Z.div_mod n 10 ltac:(lia)). lia.
Qed.

(** [str] of a natural number is a decimal number that reads back. *)
Lemma str_number (n : Z) :
  0 <= n ->
  Re.number (Num.str n) = true /\ Num.decimal 0 (Num.str n) = n.
Proof.
  intros H. unfold Num.str.
  replace (n <? 0) with false by (symmetry; apply Z.ltb_ge; lia).
  apply digits_number. split; [lia|].
  rewrite Nat2Z.inj_succ, Z2Nat.id by apply Z.log2_nonneg.
  destruct (Z.eq_dec n 0) as [-> | NZ]; [reflexivity|].
  apply Z.log2_spec. lia.
Qed.

Lemma digit_is_not_comma (c : ascii) :
  Num.is_digit c = true -> is_not "," c = true.
Proof.
  unfold is_not. destruct (Ascii.eqb c ",") eqn:E; [|reflexivity].
  apply Ascii.eqb_eq in E. subst c. discriminate.
Qed.

Lemma split_join (c : ascii) (parts : list string) :
  parts <> [] ->
  Forall (fun p => Str.all (is_not c) p = true) parts ->
  Str.split c (Str.join (String c "") parts) = parts.
Proof.
  induction parts as [|p rest IH]; intros NE F; [congruence|].
  inversion F as [|? ? Fp Fr]. subst.
  destruct rest as [|q rest].
  - cbn [Str.join]. now apply split_without.
  - change (Str.join (String c "") (p :: q :: rest))
      with (p ++ String c (Str.join (String c "") (q :: rest))).
    rewrite split_at_first by exact Fp.
    rewrite IH; [reflexivity | discriminate | exact Fr].
Qed.

(** The loop accepts the decimal text of indices within the selection and
    reads the indices back. *)
Lemma validate_numbers (idxs : list Z) :
  forall (acc : list Z) (w : world) (l : list item),
    data w = Some l ->
    Forall (fun i => 1 <= i <= Z.of_nat (List.length l)) idxs ->
    validate (map Num.str idxs) acc w = Returns (inr (acc ++ idxs)%list) w.
Proof.
  induction idxs as [|i rest IH]; intros acc w l D B.
  - cbn [map validate]. now rewrite app_nil_r.
  - inversion B as [|? ? Bi Br]. subst.
    destruct (str_number i ltac:(lia)) as [N V].
    destruct (patterns_on_single (Num.str i) "" N) as (C & R & S);
      [now left|].
    pose proof (int_of_number (Num.str i) "" N ltac:(now left)) as I.
    rewrite append_empty in C, R, S, I. rewrite V in I.
    cbn [map validate]. rewrite C, R, S, I. cbn [negb].
    rewrite (bind_returns _ _ w w false).
    2:{ rewrite (out_of_range_eval i i w l D). f_equal.
        apply orb_false_iff. split; apply Z.ltb_ge; lia. }
    rewrite (IH _ w l D Br), <- app_assoc. reflexivity.
Qed.

(** The expression that [db] hands to [dn] resolves to its indices. *)
Lemma joined_indices_parse (idxs : list Z) (w : world) (l : list item) :
  data w = Some l ->
  idxs <> [] ->
  Forall (fun i => 1 <= i <= Z.of_nat (List.length l)) idxs ->
  parses w (Str.join "," (map Num.str idxs)) idxs.
Proof.
  intros D NE B. unfold parses. rewrite split_join.
  - apply (validate_numbers idxs [] w l D B).
  - destruct idxs; [congruence | discriminate].
  - rewrite Forall_map, Forall_forall in *. intros i H.
    destruct (str_number i) as [N _]; [specialize (B i H); lia|].
    apply number_parts in N as [_ N].
    eapply all_impl; [apply digit_is_not_comma | exact N].
Qed.

(** ** Deleting by blacklist *)

Lemma prints_are_calm_and_dry (h : list event) :
  forallb is_print h = true ->
  calm h /\ dry h /\ store_deletions h = [] /\ deleted_positions h = [].
Proof.
  unfold calm, dry. induction h as [|e h IH]; simpl; [auto|].
  rewrite andb_true_iff. intros [P H]. destruct (IH H) as (C & D & S & X).
  destruct e; try discriminate. simpl. auto.
Qed.

Lemma dry_store_deletions (h : list event) :
  forallb (fun e => negb (is_sql_delete e)) h = true ->
  store_deletions h = [].
Proof.
  induction h as [|e h IH]; simpl; [auto|].
  rewrite andb_true_iff. intros [P H]. rewrite (IH H).
  now destruct e.
Qed.

Lemma enumerate_from_in {A} (l : list A) (s : nat) (i : Z) (x : A) :
  In (i, x) (combine (map Z.of_nat (seq s (List.length l))) l) ->
  exists k, i = Z.of_nat (s + k) /\ nth_error l k = Some x.
Proof.
  revert s. induction l as [|y l IH]; intros s H; [destruct H|].
  simpl in H. destruct H as [H | H].
  - injection H as <- <-. exists 0%nat. split; [f_equal; lia | reflexivity].
  - apply IH in H as (k & -> & N). exists (S k). split; [f_equal; lia | exact N].
Qed.

Lemma enumerate_in {A} (l : list A) (i : Z) (x : A) :
  In (i, x) (PyList.enumerate l) ->
  0 <= i < Z.of_nat (List.length l) /\ nth_error l (Z.to_nat i) = Some x.
Proof.
  intros H. apply enumerate_from_in in H as (k & -> & N).
  assert (k < List.length l)%nat by (apply nth_error_Some; congruence).
  simpl. rewrite Nat2Z.id. split; [lia | exact N].
Qed.

(** What a candidate index stands for. *)
Lemma candidates_in (wl bl : list string) (rows : list cookie) (i : Z) :
  In i (candidates wl bl rows) ->
  1 <= i <= Z.of_nat (List.length rows) /\
  exists c, nth_error rows (Z.to_nat (i - 1)) = Some c /\
            existsb (host_match (host_key c)) wl = false /\
            existsb (host_match (host_key c)) bl = true.
Proof.
  unfold candidates. intros H.
  apply in_flat_map in H as (b & Hb & H).
  apply in_map_iff in H as ([idx c] & <- & H).
  apply filter_In in H as [H M]. apply enumerate_in in H as [B N].
  apply andb_true_iff in M as [M W]. apply negb_true_iff in W.
  split; [lia|]. exists c. replace (idx + 1 - 1) with idx by lia.
  repeat split; trivial. apply existsb_exists. eauto.
Qed.

(** The inner loop of [db] for one blacklist pattern: it prints, and adds
    the indices of the cookies that the pattern matches and the whitelist
    does not. *)
Lemma blacklist_turns_run (bl_host : string) (rows : list (Z * cookie)) :
  forall (idxs : list Z) (w : world),
  exists h,
    foldM (blacklist_turn bl_host) rows idxs w =
      Returns
        (idxs ++
         map (fun '(idx, _) => idx + 1)
           (filter (fun '(_, c) =>
                      host_match (host_key c) bl_host &&
                      negb (existsb (host_match (host_key c)) (whitelist w)))
              rows))%list
        (with_history (history w ++ h) w) /\
    forallb is_print h = true.
Proof.
  induction rows as [|[idx c] rows IH]; intros idxs w.
  - exists []. cbn [foldM filter map]. unfold ret.
    now rewrite !app_nil_r, with_history_same.
  - cbn [foldM filter]. unfold blacklist_turn at 1.
    destruct (host_match (host_key c) bl_host); cbn [andb].
    + unfold bind at 1. unfold bind at 1. unfold whitelisted, gets.
      destruct (existsb (host_match (host_key c)) (whitelist w)) eqn:W;
        cbn [negb].
      * unfold bind at 1. unfold note_whitelisted, info, emit, modify.
        unfold ret at 1.
        destruct (IH idxs (with_history
                             (history w ++
                              [Print Info ("Cookie matches whitelist, ignoring: "
                                           ++ cookie_repr c)]) w))
          as (h & E & P).
        exists (Print Info ("Cookie matches whitelist, ignoring: "
                            ++ cookie_repr c) :: h).
        split; [|exact P].
        rewrite E. f_equal. cbn [history with_history].
        now rewrite <- app_assoc.
      * unfold ret at 1.
        destruct (IH (idxs ++ [idx + 1])%list w) as (h & E & P).
        exists h. split; [|exact P]. rewrite E. f_equal.
        cbn [map]. now rewrite <- app_assoc.
    + unfold bind at 1. unfold ret at 1. apply IH.
Qed.

Lemma cookie_rows_run (w : world) (rows : list cookie) :
  picked (selection w) = CookieRows rows ->
  cookie_rows w = Returns (PyList.enumerate rows) w.
Proof. intros P. unfold cookie_rows. now rewrite P. Qed.

(** The outer loop: the candidates of all the patterns, in turn. *)
Lemma blacklist_passes_run (rows : list cookie) (bl : list string) :
  forall (idxs : list Z) (w : world),
    picked (selection w) = CookieRows rows ->
    exists h,
      foldM blacklist_pass bl idxs w =
        Returns (idxs ++ candidates (whitelist w) bl rows)%list
          (with_history (history w ++ h) w) /\
      forallb is_print h = true.
Proof.
  induction bl as [|b bl IH]; intros idxs w P.
  - exists []. cbn [foldM]. unfold ret, candidates. simpl.
    now rewrite !app_nil_r, with_history_same.
  - cbn [foldM].
    destruct (blacklist_turns_run b (PyList.enumerate rows) idxs w)
      as (h1 & E1 & P1).
    assert (E0 : blacklist_pass idxs b w =
                 Returns
                   (idxs ++
                    map (fun '(idx, _) => idx + 1)
                      (filter (fun '(_, c) =>
                                 host_match (host_key c) b &&
                                 negb (existsb (host_match (host_key c))
                                         (whitelist w)))
                         (PyList.enumerate rows)))%list
                   (with_history (history w ++ h1) w)).
    { unfold blacklist_pass.
      now rewrite (bind_returns _ _ w w _ (cookie_rows_run w rows P)). }
    rewrite (bind_returns _ _ _ _ _ E0).
    destruct (IH (idxs ++
                  map (fun '(idx, _) => idx + 1)
                    (filter (fun '(_, c) =>
                               host_match (host_key c) b &&
                               negb (existsb (host_match (host_key c))
                                       (whitelist w)))
                       (PyList.enumerate rows)))%list
                (with_history (history w ++ h1) w) P)
      as (h2 & E2 & P2).
    exists (h1 ++ h2)%list. split.
    + rewrite E2. cbn [whitelist history with_history].
      rewrite with_history_twice, <- !app_assoc. reflexivity.
    + now rewrite forallb_app, P1, P2.
Qed.

(** [db] on a cookie selection: it prints, and then either has no
    candidate and returns, or runs [dn] on the candidates, which the
    validation of [dn] accepts. *)
Lemma delete_by_blacklist_run (w : world) (rows : list cookie) :
  picked (selection w) = CookieRows rows ->
  let cand := candidates (whitelist w) (blacklist w) rows in
  exists h,
    forallb is_print h = true /\
    (cand = [] /\
     cmd_delete_by_blacklist w =
       Returns None (with_history (history w ++ h) w) \/
     cand <> [] /\
     cmd_delete_by_blacklist w =
       cmd_delete_by_number (Some (Str.join "," (map Num.str cand)))
         (with_history (history w ++ h) w) /\
     parses (with_history (history w ++ h) w)
       (Str.join "," (map Num.str cand)) cand).
Proof.
  intros P cand.
  destruct (blacklist_passes_run rows (blacklist w) [] w P) as (h & E & Ph).
  exists h. split; [exact Ph|].
  assert (T : type_is_cookies w = true) by (apply type_is_cookies_rows; eauto).
  unfold cmd_delete_by_blacklist.
  rewrite (bind_returns _ _ w w true) by (unfold gets; now rewrite T).
  cbn [negb]. rewrite (bind_returns _ _ w w (blacklist w)) by reflexivity.
  rewrite (bind_returns _ _ _ _ _ E). cbn [app]. fold cand.
  destruct cand as [|i rest] eqn:C.
  - left. auto.
  - right. split; [discriminate|]. split; [reflexivity|].
    apply joined_indices_parse with (l := map ACookie rows).
    + rewrite data_with_history. now apply cookie_rows_data.
    + discriminate.
    + rewrite length_map, <- C. apply Forall_forall. intros j H.
      now apply candidates_in in H as [B _].
Qed.

(** The [DELETE] statements of [dn] on a cookie selection, duplicates or
    not: one for each index of the expression, for the cookie at that
    index. *)
Lemma delete_by_number_store (w : world) (rows tbl : list cookie)
  (expr : string) (idxs : list Z) :
  picked (selection w) = CookieRows rows ->
  db w = Table tbl ->
  parses w expr idxs ->
  exists cs,
    Forall2 (fun i c => nth_error rows (Z.to_nat (i - 1)) = Some c) idxs cs /\
    store_deletions (since w (final (cmd_delete_by_number (Some expr) w))) =
      map key cs.
Proof.
  intros P D Pa.
  pose proof (cookie_rows_data w rows P) as Dt.
  destruct (parses_within w _ expr idxs Dt Pa) as [B _].
  rewrite length_map in B.
  destruct (cookies_at_run idxs w rows P B) as (cs & Ec & F).
  exists cs. split; [exact F|].
  unfold cmd_delete_by_number. rewrite (parses_nonempty w expr idxs Pa).
  cbn [arg_text]. rewrite (bind_returns _ _ w w (inr idxs) Pa).
  rewrite (bind_returns _ _ w w true).
  2:{ unfold gets. f_equal. apply type_is_cookies_rows. eauto. }
  rewrite (bind_returns _ _ w _ tt
             (eq_trans (bind_returns _ _ w w cs Ec)
                (cookie_delete_run cs w tbl D))).
  unfold retval in *. remember (final _) as w' eqn:Ew.
  match type of Ew with
  | _ = final (?X ?w1) =>
      assert (Hd : emits_only (fun e => negb (is_sql_delete e)) X);
      [|destruct (Hd w1) as (h & E & Fh); rewrite <- Ew in E]
  end.
  { apply emits_bind; [apply emits_delete_numbered|]. intros ct.
    apply emits_bind; [apply emits_deleted_message, dry_print|].
    intros; apply emits_ret. }
  cbn [history with_history] in E.
  rewrite (since_app w (map sql_delete_event cs ++ h) w')
    by (now rewrite E, app_assoc).
  unfold store_deletions at 1. rewrite flat_map_app.
  fold (store_deletions (map sql_delete_event cs)).
  fold (store_deletions h).
  now rewrite store_deletions_sql, (dry_store_deletions h Fh), app_nil_r.
Qed.

Lemma same_key_host (c d : cookie) : key c = key d -> host_key c = host_key d.
Proof. unfold key. congruence. Qed.

Lemma Forall2_in_right {A B} (R : A -> B -> Prop) (l : list A) (l' : list B)
  (b : B) :
  Forall2 R l l' -> In b l' -> exists a, In a l /\ R a b.
Proof.
  induction 1 as [|x y l l' Rxy F IH]; intros H; [destruct H|].
  destruct H as [<- | H].
  - exists x. split; [now left | exact Rxy].
  - destruct (IH H) as (a & Ha & Ra). exists a. split; [now right | exact Ra].
Qed.

Lemma since_extend (w w1 w' : world) (h d : list event) :
  history w1 = (history w ++ h)%list ->
  history w' = (history w1 ++ d)%list ->
  since w w' = (h ++ since w1 w')%list.
Proof.
  intros E1 E2. rewrite (since_app w1 d w' E2).
  apply since_app. now rewrite E2, E1, app_assoc.
Qed.

(** X10.  Whatever the lists, [db] issues no [DELETE] for a cookie that
    the whitelist protects. *)
Lemma blacklist_store_spares_whitelisted (w : world) (rows tbl : list cookie)
  (c : cookie) :
  picked (selection w) = CookieRows rows ->
  db w = Table tbl ->
  existsb (host_match (host_key c)) (whitelist w) = true ->
  ~ In (key c)
      (store_deletions (since w (final (cmd_delete_by_blacklist w)))).
Proof.
  intros P D W.
  destruct (delete_by_blacklist_run w rows P)
    as (h & Ph & [(C & E) | (C & E & Pa)]).
  - rewrite E. cbn [final]. erewrite since_app by reflexivity.
    destruct (prints_are_calm_and_dry h Ph) as (_ & _ & -> & _). intros [].
  - rewrite E.
    destruct (delete_by_number_store (with_history (history w ++ h) w)
                rows tbl _ _ P D Pa) as (cs & F & S).
    destruct (two_phase_delete_by_number
                (Some (Str.join "," (map Num.str
                   (candidates (whitelist w) (blacklist w) rows))))
                (with_history (history w ++ h) w)) as (h1 & h2 & Eh & _).
    rewrite (since_extend w (with_history (history w ++ h) w) _ h (h1 ++ h2))
      by (trivial).
    unfold store_deletions at 1. rewrite flat_map_app.
    fold (store_deletions h).
    destruct (prints_are_calm_and_dry h Ph) as (_ & _ & -> & _).
    cbn [app]. unfold store_deletions in S. rewrite S.
    intros H. apply in_map_iff in H as (d & K & H).
    destruct (Forall2_in_right _ _ _ d F H) as (i & Hi & N).
    apply candidates_in in Hi as (_ & c' & N' & W' & _).
    rewrite N in N'. injection N' as <-.
    apply same_key_host in K. rewrite K in W'. congruence.
Qed.

Lemma selected_after_mutation (f : forall A, list A -> list A) (w : world)
  (rows : list cookie) :
  picked (selection w) = CookieRows rows ->
  selected_cookies (mutate_data f w) = f _ rows.
Proof.
  intros P. unfold selected_cookies, mutate_data. now rewrite P.
Qed.

Lemma keep_from_in {A} (l : list A) (s k : nat) (ks : list nat) (x : A) :
  nth_error l k = Some x -> ~ In (s + k)%nat ks -> In x (keep_from s ks l).
Proof.
  revert s k. induction l as [|y l IH]; intros s k N H; [now destruct k|].
  destruct k as [|k]; cbn [keep_from].
  - injection N as ->. replace (mem_nat s ks) with false; [now left|].
    symmetry. apply not_true_iff_false. rewrite mem_nat_In.
    now rewrite Nat.add_0_r in H.
  - assert (I : In x (keep_from (S s) ks l)).
    { apply (IH (S s) k N). now replace (S s + k)%nat with (s + S k)%nat by lia. }
    destruct (mem_nat s ks); [exact I | now right].
Qed.

Lemma keep_outside_in {A} (l : list A) (k : nat) (ks : list nat) (x : A) :
  nth_error l k = Some x -> ~ In k ks -> In x (keep_outside ks l).
Proof.
  intros N H. rewrite keep_outside_from. now apply (keep_from_in l 0 k).
Qed.

(** X11.  When no cookie is a candidate twice, a cookie that the
    whitelist protects stays in the selection under [db]. *)
Lemma blacklist_spares_whitelisted (w : world) (rows tbl : list cookie)
  (c : cookie) :
  picked (selection w) = CookieRows rows ->
  db w = Table tbl ->
  NoDup (candidates (whitelist w) (blacklist w) rows) ->
  In c rows ->
  existsb (host_match (host_key c)) (whitelist w) = true ->
  In c (selected_cookies (final (cmd_delete_by_blacklist w))).
Proof.
  intros P D N I W.
  destruct (delete_by_blacklist_run w rows P)
    as (h & Ph & [(C & E) | (C & E & Pa)]).
  - rewrite E. cbn [final]. unfold selected_cookies.
    cbn [selection with_history]. now rewrite P.
  - rewrite E.
    set (w1 := with_history (history w ++ h) w) in *.
    pose proof (cookie_rows_data w1 rows P) as Dt.
    destruct (parses_within w1 _ _ _ Dt Pa) as [B _].
    rewrite length_map in B.
    destruct (delete_by_number_run w1 _ _ _ Dt
                (fun _ => ex_intro _ tbl D) Pa N) as
      (hs & hd & msg & d & E' & _).
    rewrite E'. cbn [final]. unfold selected_cookies at 1.
    cbn [selection with_history]. fold (selected_cookies
      (mutate_data (fun A => remove_each
         (positions (Num.sorted_desc
            (candidates (whitelist w) (blacklist w) rows)))) (with_db d w1))).
    rewrite (selected_after_mutation _ (with_db d w1) rows P).
    rewrite remove_each_sorted_positions by trivial.
    apply In_nth_error in I as [k Nk].
    apply (keep_outside_in rows k _ c Nk).
    unfold positions. intros H. apply in_map_iff in H as (i & <- & Hi).
    apply candidates_in in Hi as (_ & c' & N' & W' & _).
    rewrite Nk in N'. injection N' as <-. congruence.
Qed.

(** Scenarios B and C. *)
Lemma scenario_B_and_C :
  let b := final (cmd_delete_by_blacklist
                    (all_selected [] [".ads.example.com"]
                       [Sample.tracker; Sample.plain])) in
  let c := final (cmd_delete_by_blacklist
                    (all_selected ["tracker.ads.example.com"]
                       [".ads.example.com"]
                       [Sample.tracker; Sample.plain])) in
  selected_cookies b = [Sample.plain] /\
  db b = Table [Sample.plain] /\
  selected_cookies c = [Sample.tracker; Sample.plain] /\
  db c = Table [Sample.tracker; Sample.plain].
Proof. vm_compute. repeat split. Qed.

(** ** Indices chosen by a test *)

Lemma chosen_from_cons {A} (s : nat) (p : A -> bool) (x : A) (l : list A) :
  chosen_from s p (x :: l) =
    if p x then Z.of_nat s :: chosen_from (S s) p l
    else chosen_from (S s) p l.
Proof. unfold chosen_from. simpl. now destruct (p x). Qed.

Lemma chosen_from_bounds {A} (p : A -> bool) (l : list A) (s : nat) (i : Z) :
  In i (chosen_from s p l) ->
  Z.of_nat s <= i < Z.of_nat (s + List.length l).
Proof.
  revert s. induction l as [|x l IH]; intros s H; [destruct H|].
  rewrite chosen_from_cons in H. simpl List.length.
  destruct (p x); [destruct H as [<- | H]; [lia|]|]; apply IH in H; lia.
Qed.

Lemma chosen_from_nodup {A} (p : A -> bool) (l : list A) (s : nat) :
  NoDup (chosen_from s p l).
Proof.
  revert s. induction l as [|x l IH]; intros s; [constructor|].
  rewrite chosen_from_cons. destruct (p x); [|apply IH].
  constructor; [|apply IH]. intros H. apply chosen_from_bounds in H. lia.
Qed.

Lemma keep_from_skip {A} (l : list A) (s j : nat) (ks : list nat) :
  (j < s)%nat -> keep_from s (j :: ks) l = keep_from s ks l.
Proof.
  revert s. induction l as [|x l IH]; intros s H; [reflexivity|].
  cbn [keep_from].
  assert (E : mem_nat s (j :: ks) = mem_nat s ks).
  { unfold mem_nat. simpl. replace (s =? j)%nat with false; [reflexivity|].
    symmetry. apply Nat.eqb_neq. lia. }
  rewrite E, IH by lia. reflexivity.
Qed.

(** Keeping what is outside the chosen indices is filtering by the
    opposite test. *)
Lemma keep_from_chosen {A} (p : A -> bool) (l : list A) (s : nat) :
  keep_from s (map Z.to_nat (chosen_from s p l)) l =
    filter (fun x => negb (p x)) l.
Proof.
  revert s. induction l as [|x l IH]; intros s; [reflexivity|].
  rewrite chosen_from_cons. cbn [keep_from filter].
  destruct (p x) eqn:Px; cbn [negb map].
  - rewrite Nat2Z.id.
    replace (mem_nat s (s :: map Z.to_nat (chosen_from (S s) p l))) with true.
    2:{ symmetry. apply mem_nat_In. now left. }
    rewrite keep_from_skip by lia. apply IH.
  - replace (mem_nat s (map Z.to_nat (chosen_from (S s) p l))) with false.
    2:{ symmetry. apply not_true_iff_false. rewrite mem_nat_In.
        intros H. apply in_map_iff in H as (i & E & H).
        apply chosen_from_bounds in H. lia. }
    f_equal. apply IH.
Qed.

Lemma keep_outside_chosen {A} (p : A -> bool) (l : list A) :
  keep_outside (map Z.to_nat (chosen p l)) l = filter (fun x => negb (p x)) l.
Proof. rewrite keep_outside_from. apply keep_from_chosen. Qed.

Lemma mem_Z_In (i : Z) (l : list Z) : mem_Z i l = true <-> In i l.
Proof.
  unfold mem_Z. rewrite existsb_exists. split.
  - intros (x & H & E). apply Z.eqb_eq in E. now subst.
  - intros H. exists i. split; [exact H | apply Z.eqb_refl].
Qed.

(** The items at the chosen indices are the items that pass the test. *)
Lemma items_at_chosen_from {A} (p : A -> bool) (l : list A) (s : nat)
  (before : list Z) :
  (forall i, In i before -> i < Z.of_nat s) ->
  map snd (filter (fun '(i, _) => mem_Z i (before ++ chosen_from s p l))
             (combine (map Z.of_nat (seq s (List.length l))) l)) =
    filter p l.
Proof.
  revert s before. induction l as [|x l IH]; intros s before B; [reflexivity|].
  rewrite chosen_from_cons. simpl combine. cbn [filter].
  destruct (p x) eqn:Px.
  - replace (mem_Z (Z.of_nat s)
               (before ++ Z.of_nat s :: chosen_from (S s) p l)) with true.
    2:{ symmetry. apply mem_Z_In, in_or_app. right. now left. }
    cbn [map snd]. f_equal.
    replace (before ++ Z.of_nat s :: chosen_from (S s) p l)%list
      with ((before ++ [Z.of_nat s]) ++ chosen_from (S s) p l)%list
      by now rewrite <- app_assoc.
    apply IH. intros i H. apply in_app_or in H as [H | [<- | []]];
      [apply B in H|]; lia.
  - replace (mem_Z (Z.of_nat s) (before ++ chosen_from (S s) p l)) with false.
    2:{ symmetry. apply not_true_iff_false. rewrite mem_Z_In.
        intros H. apply in_app_or in H as [H | H].
        - apply B in H. lia.
        - apply chosen_from_bounds in H. lia. }
    apply IH. intros i H. apply B in H. lia.
Qed.

Lemma items_at_chosen {A} (p : A -> bool) (l : list A) :
  map snd (filter (fun '(i, _) => mem_Z i (chosen p l)) (PyList.enumerate l)) =
    filter p l.
Proof. apply (items_at_chosen_from p l 0 []). intros i []. Qed.

Lemma chosen_from_items {A} (p : A -> bool) (l : list A) (s : nat) :
  Forall2 (fun i x => exists k, i = Z.of_nat (s + k) /\ nth_error l k = Some x)
    (chosen_from s p l) (filter p l).
Proof.
  revert s. induction l as [|x l IH]; intros s; [constructor|].
  rewrite chosen_from_cons. cbn [filter].
  assert (T : Forall2
                (fun i y => exists k, i = Z.of_nat (s + k) /\
                                      nth_error (x :: l) k = Some y)
                (chosen_from (S s) p l) (filter p l)).
  { eapply Forall2_impl; [|apply IH]. intros i y (k & -> & N).
    exists (S k). split; [f_equal; lia | exact N]. }
  destruct (p x); [|exact T].
  constructor; [|exact T]. exists 0%nat. split; [f_equal; lia | reflexivity].
Qed.

Lemma chosen_items {A} (p : A -> bool) (l : list A) :
  Forall2 (fun i x => 0 <= i < Z.of_nat (List.length l) /\
                      nth_error l (Z.to_nat i) = Some x)
    (chosen p l) (filter p l).
Proof.
  eapply Forall2_impl; [|apply (chosen_from_items p l 0)].
  intros i x (k & -> & N). simpl. rewrite Nat2Z.id.
  assert (k < List.length l)%nat by (apply nth_error_Some; congruence).
  split; [lia | exact N].
Qed.

Lemma chosen_within {A} (p : A -> bool) (l : list A) :
  Forall (fun i => 0 <= i < Z.of_nat (List.length l)) (chosen p l).
Proof.
  apply Forall_forall. intros i H. apply chosen_from_bounds in H. simpl in H. lia.
Qed.

Lemma chosen_nodup {A} (p : A -> bool) (l : list A) : NoDup (chosen p l).
Proof. apply chosen_from_nodup. Qed.

(** ** Deleting all, and deleting the expired *)

Lemma position_zero_based (n : nat) (i : Z) :
  0 <= i < Z.of_nat n ->
  PyList.position n i = Some (Z.to_nat i) /\ (Z.to_nat i < n)%nat.
Proof.
  intros B. unfold PyList.position.
  replace (i <? 0) with false by (symmetry; apply Z.ltb_ge; lia).
  replace (0 <=? i) with true by (symmetry; apply Z.leb_le; lia).
  replace (i <? Z.of_nat n) with true by (symmetry; apply Z.ltb_lt; lia).
  split; [reflexivity | lia].
Qed.

(** The loop of [da] and [de] on strictly descending indices within the
    selection. *)
Lemma delete_each_run (idxs : list Z) :
  forall (ct : Z) (w : world) (l : list item),
    data w = Some l ->
    StronglySorted Z.gt idxs ->
    Forall (fun i => 0 <= i < Z.of_nat (List.length l)) idxs ->
    delete_each idxs ct w =
      Returns (ct + Z.of_nat (List.length idxs))
        (with_history (history w ++ map DelItem (map Z.to_nat idxs))
           (mutate_data (fun A => remove_each (map Z.to_nat idxs)) w)).
Proof.
  induction idxs as [|i rest IH]; intros ct w l D S B.
  - cbn [delete_each map]. unfold ret.
    rewrite app_nil_r, mutate_nothing, with_history_same by reflexivity.
    now rewrite Z.add_0_r.
  - apply StronglySorted_inv in S as [S F]. inversion B as [|? ? Bi B']. subst.
    destruct (position_zero_based _ _ Bi) as [P K].
    set (w2 := with_history (history w ++ [DelItem (Z.to_nat i)])
                 (mutate_data (fun A => PyList.remove_nth (Z.to_nat i)) w)).
    assert (D2 : data w2 = Some (PyList.remove_nth (Z.to_nat i) l)).
    { unfold w2. rewrite data_with_history.
      apply (data_after_removals [Z.to_nat i] w l D). }
    cbn [delete_each]. rewrite (bind_returns _ _ w w2 tt).
    2:{ unfold data_delitem. now rewrite D, P. }
    rewrite (IH (ct + 1) w2 _ D2 S).
    2:{ rewrite Forall_forall in *. intros j H.
        rewrite remove_nth_length by exact K.
        specialize (F j H). specialize (B' j H). lia. }
    f_equal.
    + simpl List.length. lia.
    + unfold w2. rewrite !mutate_with_history, !with_history_twice.
      rewrite mutate_twice. cbn [history with_history map].
      rewrite <- !app_assoc. reflexivity.
Qed.

Lemma to_nat_strict (idxs : list Z) :
  Forall (fun i => 0 <= i) idxs ->
  StronglySorted Z.gt idxs -> StronglySorted gt (map Z.to_nat idxs).
Proof.
  induction idxs as [|i idxs IH]; intros B S; [constructor|].
  apply StronglySorted_inv in S as [S F]. inversion B as [|? ? Bi B']. subst.
  simpl. constructor; [now apply IH|].
  rewrite Forall_map, Forall_forall in *.
  intros j H. specialize (F j H). specialize (B' j H). lia.
Qed.

(** The items left when the distinct zero-based indices [idxs] are
    removed from the largest down. *)
Lemma remove_each_sorted_indices {A} (idxs : list Z) (l : list A) :
  NoDup idxs ->
  Forall (fun i => 0 <= i < Z.of_nat (List.length l)) idxs ->
  remove_each (map Z.to_nat (Num.sorted_desc idxs)) l =
    keep_outside (map Z.to_nat idxs) l.
Proof.
  intros N B.
  assert (Bs : Forall (fun i => 0 <= i < Z.of_nat (List.length l))
                 (Num.sorted_desc idxs)).
  { rewrite Forall_forall in *. intros i H. apply B.
    now apply (Permutation_in _ (sorted_desc_perm idxs)). }
  rewrite remove_each_descending.
  - apply keep_outside_same. intros k.
    split; apply Permutation_in, Permutation_map;
      [|symmetry]; apply sorted_desc_perm.
  - apply to_nat_strict; [|now apply sorted_desc_strict].
    eapply Forall_impl; [|exact Bs]. simpl. lia.
  - intros k H. apply in_map_iff in H as (i & <- & H).
    rewrite Forall_forall in Bs. apply Bs in H. lia.
Qed.

(** Reading the cookies at zero-based indices within the selection. *)
Lemma cookies_at_indices_run (idxs : list Z) (cs : list cookie) (w : world)
  (rows : list cookie) :
  picked (selection w) = CookieRows rows ->
  Forall2 (fun i c => 0 <= i < Z.of_nat (List.length rows) /\
                      nth_error rows (Z.to_nat i) = Some c) idxs cs ->
  mapM cookie_getitem idxs w = Returns cs w.
Proof.
  intros P F. induction F as [|i c idxs cs [B N] F IH]; [reflexivity|].
  destruct (position_zero_based _ _ B) as [Pos K].
  cbn [mapM]. rewrite (bind_returns _ _ w w c).
  + now rewrite (bind_returns _ _ w w cs IH).
  + unfold cookie_getitem. rewrite (bind_returns _ _ w w (ACookie c)); [reflexivity|].
    unfold data_getitem, data, PyList.getitem. rewrite P, length_map, Pos.
    now rewrite nth_error_map, N.
Qed.

Lemma db_after_mutation (f : forall A, list A -> list A) (w : world) :
  db (mutate_data f w) = db w.
Proof.
  unfold mutate_data.
  destruct (picked (selection w)) as [|rows|[]|[] found]; reflexivity.
Qed.

(** The loop of [da] over the cookies: it prints, and collects the
    indices of the cookies that the whitelist does not protect. *)
Lemma delete_all_turns_run (rows : list (Z * cookie)) :
  forall (idxs : list Z) (w : world),
  exists h,
    foldM delete_all_turn rows idxs w =
      Returns
        (idxs ++
         map fst
           (filter (fun '(_, c) =>
                      negb (existsb (host_match (host_key c)) (whitelist w)))
              rows))%list
        (with_history (history w ++ h) w) /\
    forallb is_print h = true.
Proof.
  induction rows as [|[idx c] rows IH]; intros idxs w.
  - exists []. cbn [foldM filter map]. unfold ret.
    now rewrite !app_nil_r, with_history_same.
  - cbn [foldM filter]. unfold delete_all_turn at 1.
    unfold bind at 1. unfold bind at 1. unfold whitelisted, gets.
    destruct (existsb (host_match (host_key c)) (whitelist w)) eqn:W;
      cbn [negb].
    + unfold bind at 1. unfold note_whitelisted, info, emit, modify.
      unfold ret at 1.
      destruct (IH idxs (with_history
                           (history w ++
                            [Print Info ("Cookie matches whitelist, ignoring: "
                                         ++ cookie_repr c)]) w))
        as (h & E & P).
      exists (Print Info ("Cookie matches whitelist, ignoring: "
                          ++ cookie_repr c) :: h).
      split; [|exact P].
      rewrite E. f_equal. cbn [history with_history].
      now rewrite <- app_assoc.
    + unfold ret at 1.
      destruct (IH (idxs ++ [idx])%list w) as (h & E & P).
      exists h. split; [|exact P]. rewrite E. f_equal.
      cbn [map fst]. now rewrite <- app_assoc.
Qed.

(** [da] on a cookie selection with a readable store: the cookies that
    the whitelist protects are left, in their order, and the others are
    deleted from the store, one statement each. *)
Lemma delete_all_run (w : world) (rows tbl : list cookie) :
  picked (selection w) = CookieRows rows ->
  db w = Table tbl ->
  let spared := fun c => existsb (host_match (host_key c)) (whitelist w) in
  let doomed := filter (fun c => negb (spared c)) rows in
  exists w',
    cmd_delete_all w = Returns None w' /\
    selected_cookies w' = filter spared rows /\
    store_deletions (since w w') = map key doomed /\
    db w' = Table (delete_rows doomed tbl).
Proof.
  intros P D spared doomed.
  set (idxs := chosen (fun c => negb (spared c)) rows).
  destruct (delete_all_turns_run (PyList.enumerate rows) [] w) as (h & E & Ph).
  cbn [app] in E. fold spared in E.
  change (map fst (filter (fun '(_, c) => negb (spared c)) (PyList.enumerate rows)))
    with idxs in E.
  set (w1 := with_history (history w ++ h) w) in *.
  assert (P1 : picked (selection w1) = CookieRows rows) by exact P.
  set (w2 := with_history (history w1 ++ map sql_delete_event doomed)
               (with_db (Table (delete_rows doomed tbl)) w1)).
  assert (D2 : data w2 = Some (map ACookie rows)) by now apply cookie_rows_data.
  assert (B : Forall (fun i => 0 <= i < Z.of_nat (List.length (map ACookie rows)))
                (Num.sorted_desc idxs)).
  { rewrite length_map. apply Forall_forall. intros i H.
    apply (Permutation_in _ (sorted_desc_perm idxs)) in H.
    pose proof (chosen_within (fun c => negb (spared c)) rows) as F.
    rewrite Forall_forall in F. now apply F. }
  pose proof (delete_each_run (Num.sorted_desc idxs) 0 w2 _ D2
                (sorted_desc_strict idxs (chosen_nodup _ rows)) B) as E3.
  destruct (deleted_message_run (Z.of_nat (List.length idxs))
              (with_history
                 (history w2 ++ map DelItem (map Z.to_nat (Num.sorted_desc idxs)))
                 (mutate_data
                    (fun A => remove_each (map Z.to_nat (Num.sorted_desc idxs)))
                    w2))) as (msg & E4).
  eexists. split; [|split; [|split]].
  - unfold cmd_delete_all.
    rewrite (bind_returns _ _ w w true).
    2:{ unfold gets. f_equal. apply type_is_cookies_rows. eauto. }
    erewrite bind_returns; [|].
    2:{ rewrite (bind_returns _ _ w w _ (cookie_rows_run w rows P)).
        rewrite (bind_returns _ _ _ _ _ E).
        rewrite (bind_returns _ _ w1 w1 _ (cookie_rows_run w1 rows P1)).
        rewrite (bind_returns _ _ w1 w2 tt).
        2:{ change (cookie_delete
                      (map snd
                         (filter (fun '(i, _) =>
                                    mem_Z i (chosen (fun c => negb (spared c)) rows))
                            (PyList.enumerate rows))) w1 = Returns tt w2).
            rewrite items_at_chosen. fold doomed.
            now apply cookie_delete_run. }
        rewrite (bind_returns _ _ _ _ _ E3). reflexivity. }
    rewrite (bind_returns _ _ _ _ _ E4). reflexivity.
  - unfold selected_cookies at 1. cbn [selection with_history].
    fold (selected_cookies
            (mutate_data
               (fun A => remove_each (map Z.to_nat (Num.sorted_desc idxs))) w2)).
    rewrite (selected_after_mutation _ w2 rows) by exact P.
    rewrite remove_each_sorted_indices.
    + unfold idxs. rewrite keep_outside_chosen. apply filter_ext.
      intros c. apply negb_involutive.
    + apply chosen_nodup.
    + apply chosen_within.
  - erewrite since_app.
    2:{ cbn [history with_history]. unfold w2, w1. cbn [history with_history].
        rewrite <- !app_assoc. reflexivity. }
    unfold store_deletions. rewrite !flat_map_app.
    fold (store_deletions h). fold (store_deletions (map sql_delete_event doomed)).
    destruct (prints_are_calm_and_dry h Ph) as (_ & _ & -> & _).
    rewrite store_deletions_sql. cbn [app].
    replace (flat_map _ (map DelItem _)) with (@nil (string * string * string)).
    2:{ symmetry. clear. induction (map Z.to_nat (Num.sorted_desc idxs));
          simpl; auto. }
    simpl. now rewrite app_nil_r.
  - cbn [db with_history]. now rewrite db_after_mutation.
Qed.

(** Under [da] a cookie that the whitelist protects stays in the
    selection, and no [DELETE] is issued for it. *)
Lemma delete_all_spares_whitelisted (w : world) (rows tbl : list cookie)
  (c : cookie) :
  picked (selection w) = CookieRows rows ->
  db w = Table tbl ->
  In c rows ->
  existsb (host_match (host_key c)) (whitelist w) = true ->
  let w' := final (cmd_delete_all w) in
  In c (selected_cookies w') /\
  ~ In (key c) (store_deletions (since w w')).
Proof.
  intros P D I W w'.
  destruct (delete_all_run w rows tbl P D) as (w1 & E & S & K & _).
  unfold w'. rewrite E. cbn [final]. rewrite S, K. split.
  - apply filter_In. auto.
  - intros H. apply in_map_iff in H as (d & Kd & H).
    apply filter_In in H as [_ H]. apply negb_true_iff in H.
    apply same_key_host in Kd. rewrite Kd in H. congruence.
Qed.

(** [de] on a cookie selection with a readable store: the cookies whose
    [expires_utc] is below the present time are deleted from the store and
    removed, those with 0 among them; the others are left, in their
    order. *)
Lemma delete_by_expired_run (w : world) (rows tbl : list cookie) :
  picked (selection w) = CookieRows rows ->
  db w = Table tbl ->
  let old := fun c => expires_utc c <? datetime_to_ts (utcnow w) in
  exists w',
    cmd_delete_by_expired w = Returns None w' /\
    selected_cookies w' = filter (fun c => negb (old c)) rows /\
    store_deletions (since w w') = map key (filter old rows) /\
    db w' = Table (delete_rows (filter old rows) tbl).
Proof.
  intros P D old.
  set (idxs := chosen old rows).
  set (w2 := with_history (history w ++ map sql_delete_event (filter old rows))
               (with_db (Table (delete_rows (filter old rows) tbl)) w)).
  assert (D2 : data w2 = Some (map ACookie rows)) by now apply cookie_rows_data.
  assert (B : Forall (fun i => 0 <= i < Z.of_nat (List.length (map ACookie rows)))
                (Num.sorted_desc idxs)).
  { rewrite length_map. apply Forall_forall. intros i H.
    apply (Permutation_in _ (sorted_desc_perm idxs)) in H.
    pose proof (chosen_within old rows) as F.
    rewrite Forall_forall in F. now apply F. }
  pose proof (delete_each_run (Num.sorted_desc idxs) 0 w2 _ D2
                (sorted_desc_strict idxs (chosen_nodup _ rows)) B) as E3.
  eexists. split; [|split; [|split]].
  - unfold cmd_delete_by_expired.
    rewrite (bind_returns _ _ w w true).
    2:{ unfold gets. f_equal. apply type_is_cookies_rows. eauto. }
    cbn [negb].
    rewrite (bind_returns _ _ w w (datetime_to_ts (utcnow w))) by reflexivity.
    rewrite (bind_returns _ _ w w _ (cookie_rows_run w rows P)).
    change (map fst (filter (fun '(_, c) =>
                               expires_utc c <? datetime_to_ts (utcnow w))
                       (PyList.enumerate rows))) with idxs.
    rewrite (bind_returns _ _ w w (filter old rows)).
    2:{ apply (cookies_at_indices_run _ _ w rows P), chosen_items. }
    rewrite (bind_returns _ _ w w2 tt) by now apply cookie_delete_run.
    rewrite (bind_returns _ _ _ _ _ E3).
    unfold bind, info, emit, modify, ret. reflexivity.
  - unfold selected_cookies at 1. cbn [selection with_history].
    fold (selected_cookies
            (mutate_data
               (fun A => remove_each (map Z.to_nat (Num.sorted_desc idxs))) w2)).
    rewrite (selected_after_mutation _ w2 rows) by exact P.
    rewrite remove_each_sorted_indices.
    + apply keep_outside_chosen.
    + apply chosen_nodup.
    + apply chosen_within.
  - erewrite since_app.
    2:{ cbn [history with_history]. unfold w2. cbn [history with_history].
        rewrite <- !app_assoc. reflexivity. }
    unfold store_deletions. rewrite !flat_map_app.
    fold (store_deletions (map sql_delete_event (filter old rows))).
    rewrite store_deletions_sql.
    replace (flat_map _ (map DelItem _)) with (@nil (string * string * string)).
    2:{ symmetry. clear. induction (map Z.to_nat (Num.sorted_desc idxs));
          simpl; auto. }
    simpl. now rewrite app_nil_r.
  - cbn [db with_history]. now rewrite db_after_mutation.
Qed.

(** Under [de] a cookie of the selection stays exactly when its
    [expires_utc] is not below the present time; so one that expires now or
    later stays, one with a nonzero expiry in the past goes, and so does
    a session cookie, since 0 is below every time after 1601. *)
Lemma delete_by_expired_keeps (w : world) (rows tbl : list cookie)
  (c : cookie) :
  picked (selection w) = CookieRows rows ->
  db w = Table tbl ->
  let now := datetime_to_ts (utcnow w) in
  let w' := final (cmd_delete_by_expired w) in
  (In c (selected_cookies w') <-> In c rows /\ now <= expires_utc c) /\
  (0 < now -> expires_utc c = 0 -> ~ In c (selected_cookies w')).
Proof.
  intros P D now w'.
  destruct (delete_by_expired_run w rows tbl P D) as (w1 & E & S & _).
  unfold w'. rewrite E. cbn [final]. rewrite S. fold now.
  assert (K : In c (filter (fun c0 => negb (expires_utc c0 <? now)) rows) <->
              In c rows /\ now <= expires_utc c).
  { rewrite filter_In, negb_true_iff, Z.ltb_ge. reflexivity. }
  split; [exact K|]. intros N Z H. apply K in H. lia.
Qed.

(** [da], [de] and [db] with a store whose statements fail: the
    selection is as before, whether the command
    raised [DatabaseError] or had nothing to delete. *)
Lemma delete_all_store_failure (w : world) (rows : list cookie) :
  picked (selection w) = CookieRows rows ->
  db w = Unreadable ->
  selection (final (cmd_delete_all w)) = selection w.
Proof.
  intros P D.
  destruct (delete_all_turns_run (PyList.enumerate rows) [] w) as (h & E & Ph).
  cbn [app] in E.
  set (w1 := with_history (history w ++ h) w) in *.
  assert (P1 : picked (selection w1) = CookieRows rows) by exact P.
  unfold cmd_delete_all.
  rewrite (bind_returns _ _ w w true).
  2:{ unfold gets. f_equal. apply type_is_cookies_rows. eauto. }
  pose proof (chosen_items
                (fun c => negb (existsb (host_match (host_key c)) (whitelist w)))
                rows) as F.
  pose proof (items_at_chosen
                (fun c => negb (existsb (host_match (host_key c)) (whitelist w)))
                rows) as I.
  unfold chosen in F, I. cbn beta in F, I.
  destruct (filter (fun c => negb (existsb (host_match (host_key c)) (whitelist w)))
              rows) as [|c cs] eqn:Dm.
  - inversion F as [Ei|].
    erewrite bind_returns.
    2:{ rewrite (bind_returns _ _ w w _ (cookie_rows_run w rows P)).
        rewrite (bind_returns _ _ _ _ _ E).
        rewrite (bind_returns _ _ w1 w1 _ (cookie_rows_run w1 rows P1)).
        rewrite I, <- Ei. reflexivity. }
    destruct (deleted_message_run (Z.of_nat (@List.length Z [])) w1) as [msg Em].
    rewrite (bind_returns _ _ _ _ _ Em). reflexivity.
  - erewrite bind_raises; cycle 1.
    { rewrite (bind_returns _ _ w w _ (cookie_rows_run w rows P)).
      rewrite (bind_returns _ _ _ _ _ E).
      rewrite (bind_returns _ _ w1 w1 _ (cookie_rows_run w1 rows P1)).
      apply bind_raises. rewrite I.
      exact (cookie_delete_unreadable c cs w1 D). }
    reflexivity.
Qed.

Lemma delete_by_expired_store_failure (w : world) (rows : list cookie) :
  picked (selection w) = CookieRows rows ->
  db w = Unreadable ->
  selection (final (cmd_delete_by_expired w)) = selection w.
Proof.
  intros P D.
  set (old := fun c => expires_utc c <? datetime_to_ts (utcnow w)).
  unfold cmd_delete_by_expired.
  rewrite (bind_returns _ _ w w true).
  2:{ unfold gets. f_equal. apply type_is_cookies_rows. eauto. }
  cbn [negb].
  rewrite (bind_returns _ _ w w (datetime_to_ts (utcnow w))) by reflexivity.
  rewrite (bind_returns _ _ w w _ (cookie_rows_run w rows P)).
  change (map fst (filter (fun '(_, c) =>
                             expires_utc c <? datetime_to_ts (utcnow w))
                     (PyList.enumerate rows))) with (chosen old rows).
  pose proof (chosen_items old rows) as F.
  rewrite (bind_returns _ _ w w (filter old rows)).
  2:{ now apply (cookies_at_indices_run _ _ w rows P). }
  destruct (filter old rows) as [|c cs] eqn:Dm.
  - inversion F as [Ei|]. reflexivity.
  - erewrite bind_raises; cycle 1.
    { exact (cookie_delete_unreadable c cs w D). }
    reflexivity.
Qed.

Lemma delete_by_blacklist_store_failure (w : world) (rows : list cookie) :
  picked (selection w) = CookieRows rows ->
  db w = Unreadable ->
  selection (final (cmd_delete_by_blacklist w)) = selection w.
Proof.
  intros P D.
  destruct (delete_by_blacklist_run w rows P)
    as (h & Ph & [(C & E) | (C & E & Pa)]); rewrite E.
  - reflexivity.
  - now destruct (delete_by_number_store_failure
                    (with_history (history w ++ h) w) rows
                    (Some (Str.join ","
                       (map Num.str
                          (candidates (whitelist w) (blacklist w) rows))))
                    P D) as (_ & S & _).
Qed.

(** ** Valid expressions are accepted *)


(** ** What the delete commands leave alone *)

Lemma keeps_bind {A B X} (f : world -> X) (m : M A) (k : A -> M B) :
  keeps f m -> (forall a, keeps f (k a)) -> keeps f (bind m k).
Proof.
  intros Hm Hk w. rewrite final_bind. specialize (Hm w).
  destruct (m w) as [a w'|e w']; cbn [final] in Hm; [|exact Hm].
  now rewrite Hk.
Qed.

Lemma keeps_ret {A X} (f : world -> X) (a : A) : keeps f (ret a).
Proof. now intros w. Qed.

Lemma keeps_raise {A X} (f : world -> X) (e : exn) : keeps f (@raise A e).
Proof. now intros w. Qed.

Lemma keeps_gets {A X} (f : world -> X) (g : world -> A) : keeps f (gets g).
Proof. now intros w. Qed.

Lemma keeps_mapM {A B X} (f : world -> X) (g : A -> M B) (l : list A) :
  (forall a, keeps f (g a)) -> keeps f (mapM g l).
Proof.
  intros H. induction l as [|a l IH]; cbn [mapM]; [apply keeps_ret|].
  apply keeps_bind; [apply H|]. intros b.
  apply keeps_bind; [apply IH|]. intros bs. apply keeps_ret.
Qed.

Lemma keeps_foldM {A B X} (f : world -> X) (g : B -> A -> M B)
  (l : list A) (b : B) :
  (forall b a, keeps f (g b a)) -> keeps f (foldM g l b).
Proof.
  intros H. revert b. induction l as [|a l IH]; intros b; cbn [foldM].
  - apply keeps_ret.
  - apply keeps_bind; [apply H | apply IH].
Qed.

Section Frame.

Variable X : Type.
Variable f : world -> X.
Hypothesis f_history : forall h w, f (with_history h w) = f w.
Hypothesis f_db : forall d w, f (with_db d w) = f w.
Hypothesis f_data : forall g w, f (mutate_data g w) = f w.

Lemma keeps_emit (e : event) : keeps f (emit e).
Proof. intros w. apply f_history. Qed.

Lemma keeps_info (msg : string) : keeps f (info msg).
Proof. apply keeps_emit. Qed.

Lemma keeps_act (msg : string) : keeps f (act msg).
Proof. apply keeps_emit. Qed.

Lemma keeps_warn (msg : string) : keeps f (warn msg).
Proof. apply keeps_bind; [apply keeps_emit | intros; apply keeps_ret]. Qed.

Lemma keeps_err (msg : string) : keeps f (err msg).
Proof. apply keeps_bind; [apply keeps_emit | intros; apply keeps_ret]. Qed.

Lemma keeps_data_len : keeps f data_len.
Proof. intros w. unfold data_len. now destruct (data w). Qed.

Lemma keeps_data_getitem (i : Z) : keeps f (data_getitem i).
Proof.
  intros w. unfold data_getitem. destruct (data w) as [l|]; [|reflexivity].
  now destruct (PyList.getitem l i).
Qed.

Lemma keeps_cookie_getitem (i : Z) : keeps f (cookie_getitem i).
Proof.
  apply keeps_bind; [apply keeps_data_getitem|].
  intros [c|h]; [apply keeps_ret | apply keeps_raise].
Qed.

Lemma keeps_cookie_rows : keeps f cookie_rows.
Proof.
  intros w. unfold cookie_rows. now destruct (picked (selection w)).
Qed.

Lemma keeps_data_delitem (i : Z) : keeps f (data_delitem i).
Proof.
  intros w. unfold data_delitem. destruct (data w) as [l|]; [|reflexivity].
  destruct (PyList.position (List.length l) i); [|reflexivity].
  cbn [final]. now rewrite f_history, f_data.
Qed.

Lemma keeps_data_clear : keeps f data_clear.
Proof.
  intros w. unfold data_clear. destruct (data w) as [l|]; [|reflexivity].
  cbn [final]. now rewrite f_history, f_data.
Qed.

Lemma keeps_cookie_delete (cs : list cookie) : keeps f (cookie_delete cs).
Proof.
  induction cs as [|c cs IH]; cbn [cookie_delete]; [apply keeps_ret|].
  apply keeps_bind; [|intros; apply IH].
  intros w. unfold sql_delete. destruct (db w); [reflexivity|].
  cbn [final]. now rewrite f_history, f_db.
Qed.

Lemma keeps_out_of_range (a b : Z) : keeps f (out_of_range a b).
Proof.
  unfold out_of_range. destruct (a <? 1); [apply keeps_ret|].
  apply keeps_bind; [apply keeps_data_len | intros; apply keeps_ret].
Qed.

Lemma keeps_fail (msg : string) (B : Type) :
  keeps f (r <- err msg ;; ret (@inl Z B r)).
Proof. apply keeps_bind; [apply keeps_err | intros; apply keeps_ret]. Qed.

Lemma keeps_validate (specs : list string) (idxs : list Z) :
  keeps f (validate specs idxs).
Proof.
  revert idxs. induction specs as [|spec rest IH]; intros idxs;
    cbn [validate]; [apply keeps_ret|].
  destruct (negb (Re.match_spec_chars spec)); [apply keeps_fail|].
  destruct (Re.match_range spec).
  { destruct (map Num.int (Str.split "-" spec)) as [|[a|] [|[b|] [|? ?]]];
      try apply keeps_raise.
    apply keeps_bind; [apply keeps_out_of_range|].
    intros []; [apply keeps_fail | apply IH]. }
  destruct (Re.match_single spec); [|apply keeps_fail].
  destruct (Num.int spec) as [n|]; [|apply keeps_raise].
  apply keeps_bind; [apply keeps_out_of_range|].
  intros []; [apply keeps_fail | apply IH].
Qed.

Lemma keeps_deleted_message (ct : Z) : keeps f (deleted_message ct).
Proof.
  apply keeps_bind; [apply keeps_gets|]. intros c.
  apply keeps_bind; [apply keeps_gets|]. intros t. apply keeps_info.
Qed.

Lemma keeps_delete_numbered (idxs : list Z) (ct : Z) :
  keeps f (delete_numbered idxs ct).
Proof.
  revert ct. induction idxs as [|i rest IH]; intros ct;
    cbn [delete_numbered]; [apply keeps_ret|].
  apply keeps_bind; [apply keeps_data_getitem|]. intros c.
  apply keeps_bind; [apply keeps_act|]. intros _.
  apply keeps_bind; [apply keeps_data_delitem|]. intros _. apply IH.
Qed.

Lemma keeps_delete_each (idxs : list Z) (ct : Z) :
  keeps f (delete_each idxs ct).
Proof.
  revert ct. induction idxs as [|i rest IH]; intros ct;
    cbn [delete_each]; [apply keeps_ret|].
  apply keeps_bind; [apply keeps_data_delitem|]. intros _. apply IH.
Qed.

Lemma keeps_cookies_only_warning : keeps f cookies_only_warning.
Proof. apply keeps_bind; [apply keeps_warn | intros; apply keeps_ret]. Qed.

Lemma keeps_delete_by_number (number_range : option string) :
  keeps f (cmd_delete_by_number number_range).
Proof.
  unfold cmd_delete_by_number. destruct (missing number_range).
  { apply keeps_bind; [apply keeps_err | intros; apply keeps_ret]. }
  apply keeps_bind; [apply keeps_validate|].
  intros [r|idxs]; [apply keeps_ret|].
  apply keeps_bind; [apply keeps_gets|]. intros cookies.
  apply keeps_bind.
  { destruct cookies; [|apply keeps_ret].
    apply keeps_bind; [|intros; apply keeps_cookie_delete].
    apply keeps_mapM. intros i. apply keeps_cookie_getitem. }
  intros _. apply keeps_bind; [apply keeps_delete_numbered|]. intros ct.
  apply keeps_bind; [apply keeps_deleted_message | intros; apply keeps_ret].
Qed.

Lemma keeps_delete_all : keeps f cmd_delete_all.
Proof.
  unfold cmd_delete_all.
  apply keeps_bind; [apply keeps_gets|]. intros cookies.
  apply keeps_bind.
  2:{ intros ct. apply keeps_bind; [apply keeps_deleted_message|].
      intros; apply keeps_ret. }
  destruct cookies.
  - apply keeps_bind; [apply keeps_cookie_rows|]. intros rows.
    apply keeps_bind.
    { apply keeps_foldM. intros idxs [idx c]. unfold delete_all_turn.
      apply keeps_bind; [apply keeps_gets|].
      intros []; [|apply keeps_ret].
      apply keeps_bind; [apply keeps_info | intros; apply keeps_ret]. }
    intros idxs.
    apply keeps_bind; [apply keeps_cookie_rows|]. intros rows'.
    apply keeps_bind; [apply keeps_cookie_delete|]. intros _.
    apply keeps_bind; [apply keeps_delete_each | intros; apply keeps_ret].
  - apply keeps_bind; [apply keeps_data_len|]. intros ct.
    apply keeps_bind; [apply keeps_data_clear | intros; apply keeps_ret].
Qed.

Lemma keeps_delete_by_expired : keeps f cmd_delete_by_expired.
Proof.
  unfold cmd_delete_by_expired.
  apply keeps_bind; [apply keeps_gets|]. intros cookies.
  destruct (negb cookies); [apply keeps_cookies_only_warning|].
  apply keeps_bind; [apply keeps_gets|]. intros ts.
  apply keeps_bind; [apply keeps_cookie_rows|]. intros rows.
  apply keeps_bind.
  { apply keeps_mapM. intros i. apply keeps_cookie_getitem. }
  intros to_del.
  apply keeps_bind; [apply keeps_cookie_delete|]. intros _.
  apply keeps_bind; [apply keeps_delete_each|]. intros ct.
  apply keeps_bind; [apply keeps_info | intros; apply keeps_ret].
Qed.

Lemma keeps_delete_by_blacklist : keeps f cmd_delete_by_blacklist.
Proof.
  unfold cmd_delete_by_blacklist.
  apply keeps_bind; [apply keeps_gets|]. intros cookies.
  destruct (negb cookies); [apply keeps_cookies_only_warning|].
  apply keeps_bind; [apply keeps_gets|]. intros bl.
  apply keeps_bind.
  { apply keeps_foldM. intros idxs bl_host. unfold blacklist_pass.
    apply keeps_bind; [apply keeps_cookie_rows|]. intros rows.
    apply keeps_foldM. intros idxs' [idx c]. unfold blacklist_turn.
    destruct (host_match (host_key c) bl_host); [|apply keeps_ret].
    apply keeps_bind; [apply keeps_gets|].
    intros []; [|apply keeps_ret].
    apply keeps_bind; [apply keeps_info | intros; apply keeps_ret]. }
  intros [|i idxs]; [apply keeps_ret|].
  apply keeps_delete_by_number.
Qed.

End Frame.

Lemma lists_beside_cookies_mutated (g : forall A, list A -> list A)
  (w : world) :
  lists_beside_cookies (mutate_data g w) = lists_beside_cookies w.
Proof.
  destruct w as [wl bl [p t pg] i d wf bf ht now hs].
  destruct p as [|rows|[]|[] found]; reflexivity.
Qed.



(** The cursor can thus be left past the end: after [n] and [da] on 30
    cookies in pages of 24, the selection is empty and the cursor is 1. *)
Lemma cursor_left_past_the_end :
  let rows := map (fun k => mk_cookie "h.example.net" (Num.str (Z.of_nat k)) 0)
                (seq 0 30) in
  let w := final (cmd_delete_all
                    (final (cmd_next_page (all_selected [] [] rows)))) in
  selected_cookies w = [] /\ page (selection w) = 1.
Proof. vm_compute. split; reflexivity. Qed.

(** ** Adding a host *)

Lemma mem_In (x : string) (l : list string) : Str.mem x l = true <-> In x l.
Proof.
  unfold Str.mem. rewrite existsb_exists. split.
  - intros (y & H & E). apply String.eqb_eq in E. now subst.
  - intros H. exists x. split; [exact H | apply String.eqb_refl].
Qed.

Lemma nodup_snoc (x : string) (l : list string) :
  NoDup l -> ~ In x l -> NoDup (l ++ [x]).
Proof.
  intros N H. apply NoDup_app; [exact N | repeat constructor; intros []|].
  intros y Hy [<- | []]. contradiction.
Qed.

(** The three ways [ah] ends on a state in which something is selected:
    refused with one line printed and nothing else changed, or the host
    appended to the global list that the type of the selection names. *)
Lemma add_host_cases (w : world) (arg : option string) :
  picked (selection w) <> NoSelection ->
  (exists st msg,
      cmd_add_host arg w =
        Returns (Some 1) (with_history (history w ++ [Print st msg]) w) /\
      (missing arg = true \/ type_is_cookies w = true \/
       exists which, list_of_type w = Returns which w /\
                     In (arg_text arg) (global_list which w))) \/
  (exists which msg,
      list_of_type w = Returns which w /\
      missing arg = false /\
      ~ In (arg_text arg) (global_list which w) /\
      cmd_add_host arg w =
        Returns None
          (with_history
             (history w ++ [AppendHost which (arg_text arg); Print Info msg])
             (with_global_list which
                (global_list which w ++ [arg_text arg]) w))).
Proof.
  intros S. unfold cmd_add_host. destruct (missing arg) eqn:M.
  { left. do 2 eexists. split; [reflexivity | auto]. }
  destruct (type_is_cookies w) eqn:T.
  { left. do 2 eexists. split; [|auto].
    unfold bind, gets, warn, emit, modify, ret. rewrite T. reflexivity. }
  assert (L : exists which, list_of_type w = Returns which w).
  { unfold list_of_type. unfold type_is_cookies, type in T.
    destruct (picked (selection w)) as [|rows|which|which found];
      [congruence | discriminate | eauto | eauto]. }
  destruct L as [which L].
  destruct (Str.mem (arg_text arg) (global_list which w)) eqn:N.
  - left. do 2 eexists. split.
    + unfold bind, gets, err, emit, modify, ret. rewrite T, L.
      cbn beta iota. rewrite N. reflexivity.
    + right. right. exists which. split; [exact L | now apply mem_In].
  - right. exists which. eexists. split; [exact L|]. split; [reflexivity|].
    split; [rewrite <- mem_In; congruence|].
    unfold bind, gets, info, emit, modify, ret. rewrite T, L.
    cbn beta iota. rewrite N. cbn [history with_history with_global_list].
    rewrite <- app_assoc. reflexivity.
Qed.

(** X2.  [ah] never breaks the rule that a host list holds no entry
    twice, never removes an entry, and never touches the selection record
    or the database: whatever its argument and the state, duplicate-free
    lists stay duplicate-free and every entry stays. *)
Theorem add_host_keeps_lists_duplicate_free (w : world) (arg : option string) :
  NoDup (whitelist w) ->
  NoDup (blacklist w) ->
  let w' := final (cmd_add_host arg w) in
  NoDup (whitelist w') /\ NoDup (blacklist w') /\
  incl (whitelist w) (whitelist w') /\ incl (blacklist w) (blacklist w') /\
  selection w' = selection w /\ db w' = db w.
Proof.
  intros Nw Nb w'.
  destruct (picked (selection w)) eqn:P.
  { assert (E : cmd_add_host arg w = Raises KeyError w \/
                exists msg, cmd_add_host arg w =
                  Returns (Some 1)
                    (with_history (history w ++ [Print Error msg]) w)).
    { unfold cmd_add_host. destruct (missing arg); [right; eexists; reflexivity|].
      left. rewrite (bind_returns _ _ w w false)
        by (unfold gets, type_is_cookies, type; now rewrite P).
      apply bind_raises. unfold list_of_type. now rewrite P. }
    unfold w'. destruct E as [-> | [msg ->]];
      repeat split; trivial; apply incl_refl. }
  all: destruct (add_host_cases w arg) as
      [(st & msg & E & _) | (wh & msg & L & M & NI & E)];
    try (rewrite P; discriminate);
    unfold w'; rewrite E; cbn [final];
    try (repeat split; trivial; apply incl_refl).
  all: destruct wh; cbn [whitelist blacklist with_history with_global_list
                              global_list selection db] in *;
    repeat split; trivial;
    try apply incl_refl; try (now apply nodup_snoc);
    try (apply incl_appl, incl_refl).
Qed.

Lemma add_host_keeps_lists_duplicate_free_witness :
  NoDup (whitelist Scenario.three_hosts) /\
  NoDup (blacklist Scenario.three_hosts) /\
  NoDup (blacklist
           (final (cmd_add_host (Some "new.example.net")
                     (final (cmd_select_blacklist_all Scenario.three_hosts))))).
Proof.
  assert (Nw : NoDup (whitelist
                        (final (cmd_select_blacklist_all Scenario.three_hosts))))
    by constructor.
  assert (Nb : NoDup (blacklist
                        (final (cmd_select_blacklist_all Scenario.three_hosts)))).
  { repeat constructor; simpl; intuition discriminate. }
  split; [exact Nw|]. split; [exact Nb|].
  exact (proj1 (proj2 (add_host_keeps_lists_duplicate_free
                         (final (cmd_select_blacklist_all Scenario.three_hosts))
                         (Some "new.example.net") Nw Nb))).
Defined.





(** ** Deleting all entries of a host list *)

Lemma data_cleared (w : world) (l : list item) :
  data w = Some l ->
  data (mutate_data (fun A _ => []) w) = Some [].
Proof.
  destruct w as [wl bl [p t pg] i d wf bf ht now hs].
  destruct p as [|rows|[]|[] found]; unfold data; simpl;
    intros H; try discriminate; reflexivity.
Qed.

(** X5.  On a host-list selection [da] asks neither list: it empties the
    list object that the selection holds and issues no [DELETE].  Through
    a whole-list selection that is the global list, which [q] then writes
    empty; through a selection of matches it is the matches only, and both
    global lists keep all their entries, the matched ones too. *)
Theorem delete_all_on_host_list (w : world) (which : list_name) :
  picked (selection w) = WholeList which \/
  (exists found, picked (selection w) = Matches which found) ->
  exists w',
    cmd_delete_all w = Returns None w' /\
    data w' = Some [] /\
    store_deletions (since w w') = [] /\
    db w' = db w /\
    global_list which w' =
      match picked (selection w) with
      | WholeList _ => []
      | _ => global_list which w
      end /\
    saved which (final (cmd_quit w')) = Some (global_list which w') /\
    (forall other, other <> which -> global_list other w' = global_list other w).
Proof.
  intros P.
  assert (T : type_is_cookies w = false) by now apply (type_is_cookies_lists w which).
  assert (D : exists l, data w = Some l).
  { unfold data. destruct P as [-> | [found ->]]; eauto. }
  destruct D as [l D].
  destruct (deleted_message_run (Z.of_nat (List.length l))
              (with_history (history w ++ [ClearItems])
                 (mutate_data (fun A _ => []) w))) as [msg Em].
  eexists. split.
  { unfold cmd_delete_all.
    rewrite (bind_returns _ _ w w false) by (unfold gets; now rewrite T).
    erewrite bind_returns.
    2:{ rewrite (bind_returns _ _ w w (Z.of_nat (List.length l)))
          by (unfold data_len; now rewrite D).
        rewrite (bind_returns _ _ w _ tt)
          by (unfold data_clear; now rewrite D).
        reflexivity. }
    rewrite (bind_returns _ _ _ _ _ Em). reflexivity. }
  cbn [history with_history].
  split; [|split; [|split; [|split; [|split]]]].
  - rewrite data_with_history. now apply (data_cleared w l).
  - erewrite since_app.
    2:{ cbn [history with_history]. rewrite <- app_assoc. reflexivity. }
    reflexivity.
  - cbn [db with_history]. apply db_after_mutation.
  - rewrite global_list_with_history. unfold mutate_data.
    destruct P as [-> | [found ->]]; now destruct which.
  - apply quit_saves.
  - intros other O. rewrite global_list_with_history. unfold mutate_data.
    destruct P as [-> | [found ->]]; destruct which, other;
      try congruence; reflexivity.
Qed.

Lemma delete_all_on_host_list_witness :
  (exists found,
      picked (selection (final (select_matching BL "example.com"
                                  Scenario.three_hosts))) =
        Matches BL found) /\
  exists w',
    cmd_delete_all
      (final (select_matching BL "example.com" Scenario.three_hosts)) =
      Returns None w' /\
    data w' = Some [] /\
    blacklist w' = ["ads.example.com"; "cdn.example.com"; "evil.example.org"].
Proof.
  assert (P : exists found,
             picked (selection (final (select_matching BL "example.com"
                                         Scenario.three_hosts))) =
               Matches BL found) by (eexists; reflexivity).
  split; [exact P|].
  destruct (delete_all_on_host_list
              (final (select_matching BL "example.com" Scenario.three_hosts))
              BL (or_intror P)) as (w' & E & D & _ & _ & G & _).
  exists w'. split; [exact E|]. split; [exact D | exact G].
Defined.

(** ** Deleting all cookies, and the expired ones *)

Lemma cookie_selection_kept (w w' : world) (rows : list cookie) :
  picked (selection w) = CookieRows rows ->
  lists_beside_cookies w' = lists_beside_cookies w ->
  picked (selection w') = CookieRows (selected_cookies w') /\
  whitelist w' = whitelist w /\ blacklist w' = blacklist w.
Proof.
  unfold lists_beside_cookies, selected_cookies. intros P.
  rewrite P. destruct (picked (selection w')); try discriminate.
  intros [= -> ->]. auto.
Qed.

Lemma filter_twice {A} (p : A -> bool) (l : list A) :
  filter p (filter p l) = filter p l.
Proof.
  induction l as [|x l IH]; simpl; [reflexivity|].
  destruct (p x) eqn:E; simpl; [rewrite E|]; now rewrite IH.
Qed.






(** X8.  When the statements on the store fail, no delete command
    changes a cookie selection or a host list: [dn], [da], [de] and [db]
    end with the selection record, the whitelist and the blacklist they
    started with, whether they raised [DatabaseError] or had nothing to
    delete. *)
Theorem store_failure_changes_nothing (w : world) (rows : list cookie)
  (number_range : option string) :
  picked (selection w) = CookieRows rows ->
  db w = Unreadable ->
  forall w',
    w' = final (cmd_delete_by_number number_range w) \/
    w' = final (cmd_delete_all w) \/
    w' = final (cmd_delete_by_expired w) \/
    w' = final (cmd_delete_by_blacklist w) ->
    selection w' = selection w /\
    whitelist w' = whitelist w /\ blacklist w' = blacklist w.
Proof.
  intros P D w' H.
  assert (S : selection w' = selection w).
  { destruct H as [-> | [-> | [-> | ->]]].
    - now destruct (delete_by_number_store_failure w rows number_range P D)
        as (_ & S & _).
    - now apply (delete_all_store_failure w rows).
    - now apply (delete_by_expired_store_failure w rows).
    - now apply (delete_by_blacklist_store_failure w rows). }
  split; [exact S|].
  assert (F : lists_beside_cookies w' = lists_beside_cookies w).
  { destruct H as [-> | [-> | [-> | ->]]];
      [apply keeps_delete_by_number | apply keeps_delete_all
      | apply keeps_delete_by_expired | apply keeps_delete_by_blacklist];
      try reflexivity; apply lists_beside_cookies_mutated. }
  now destruct (cookie_selection_kept w w' rows P F) as (_ & W & B).
Qed.

Lemma store_failure_changes_nothing_witness :
  db Broken.store = Unreadable /\
  cmd_delete_by_number (Some "2,4-5") Broken.store =
    Raises DatabaseError Broken.store /\
  selection (final (cmd_delete_all Broken.store)) = selection Broken.store.
Proof.
  split; [reflexivity|]. split; [reflexivity|].
  exact (proj1 (store_failure_changes_nothing Broken.store
                  [Sample.a; Sample.b; Sample.c; Sample.d; Sample.e]
                  None eq_refl eq_refl _ (or_intror (or_introl eq_refl)))).
Defined.

(** ** The lemmas above at concrete sessions *)

Lemma blacklist_store_spares_whitelisted_witness :
  ~ In (key Sample.safe)
      (store_deletions
         (since
            (all_selected ["safe.example.org"] [".example.org"; ".example.com"]
               [Sample.tracker; Sample.safe])
            (final
               (cmd_delete_by_blacklist
                  (all_selected ["safe.example.org"]
                     [".example.org"; ".example.com"]
                     [Sample.tracker; Sample.safe]))))).
Proof.
  exact (blacklist_store_spares_whitelisted
           (all_selected ["safe.example.org"] [".example.org"; ".example.com"]
              [Sample.tracker; Sample.safe])
           [Sample.tracker; Sample.safe] [Sample.tracker; Sample.safe]
           Sample.safe eq_refl eq_refl eq_refl).
Defined.

Lemma blacklist_spares_whitelisted_witness :
  In Sample.safe
    (selected_cookies
       (final
          (cmd_delete_by_blacklist
             (all_selected ["safe.example.org"] [".example.org"; ".example.com"]
                [Sample.tracker; Sample.safe])))).
Proof.
  apply (blacklist_spares_whitelisted
           (all_selected ["safe.example.org"] [".example.org"; ".example.com"]
              [Sample.tracker; Sample.safe])
           [Sample.tracker; Sample.safe] [Sample.tracker; Sample.safe]
           Sample.safe eq_refl eq_refl).
  - vm_compute. constructor; [intros [] | constructor].
  - right. now left.
  - reflexivity.
Defined.


(** ** A range that runs backwards *)





(** ** Indices written and read back *)

(** X14.  The expression [db] builds for [dn] reads back: the indices
    written with [str] and joined by commas are split into the same
    decimal numbers, each is read by [int] as the index it came from, and
    the validation of [dn] accepts the expression and resolves it to the
    indices, in their order and with their repetitions. *)
Theorem joined_indices_read_back (idxs : list Z) (w : world)
  (l : list item) :
  data w = Some l ->
  idxs <> [] ->
  Forall (fun i => 1 <= i <= Z.of_nat (List.length l)) idxs ->
  let expr := Str.join "," (map Num.str idxs) in
  Str.split "," expr = map Num.str idxs /\
  map Num.int (Str.split "," expr) = map Some idxs /\
  parses w expr idxs.
Proof.
  intros D NE B expr.
  assert (S : Str.split "," expr = map Num.str idxs).
  { apply split_join.
    - destruct idxs; [congruence | discriminate].
    - rewrite Forall_map, Forall_forall in *. intros i H.
      destruct (str_number i) as [N _]; [specialize (B i H); lia|].
      apply number_parts in N as [_ N].
      eapply all_impl; [apply digit_is_not_comma | exact N]. }
  split; [exact S|]. split; [|now apply (joined_indices_parse idxs w l)].
  rewrite S, map_map. apply map_ext_in. intros i H.
  rewrite Forall_forall in B.
  destruct (str_number i) as [N V]; [specialize (B i H); lia|].
  rewrite <- (append_empty (Num.str i)).
  rewrite int_of_number by (assumption || now left). now rewrite V.
Qed.

Lemma joined_indices_read_back_witness :
  Str.split "," (Str.join "," (map Num.str [12; 3; 12])) =
    ["12"; "3"; "12"] /\
  parses (all_selected [] [] (repeat Sample.a 12))
    (Str.join "," (map Num.str [12; 3; 12])) [12; 3; 12].
Proof.
  destruct (joined_indices_read_back [12; 3; 12]
              (all_selected [] [] (repeat Sample.a 12))
              (map ACookie (repeat Sample.a 12)) eq_refl) as (S & _ & P).
  - discriminate.
  - repeat constructor; vm_compute; congruence.
  - split; [exact S | exact P].
Defined.

(** ** What the listing shows *)









(** ** Selecting the entries of a host list *)

Lemma prefix_app (n h : string) :
  String.prefix n h = true <-> exists post, h = n ++ post.
Proof.
  revert h. induction n as [|a n IH]; intros h.
  - split; [intros _; now exists h | now destruct h].
  - destruct h as [|b h]; simpl; [split; [discriminate | intros [? [=]]]|].
    destruct (Ascii.ascii_dec a b) as [-> | N].
    + rewrite IH. split; intros [post E]; exists post; congruence.
    + split; [discriminate | intros [post [= E _]]; congruence].
Qed.

(** [needle in hay]: the needle occurs somewhere in the text. *)
Lemma contains_occurs (needle hay : string) :
  Str.contains needle hay = true <->
  exists pre post, hay = pre ++ needle ++ post.
Proof.
  induction hay as [|b hay IH]; cbn [Str.contains];
    rewrite orb_true_iff, prefix_app.
  - split.
    + intros [[post E] | [=]]. now exists "", post.
    + intros (pre & post & E). left.
      destruct pre; [now exists post | discriminate].
  - rewrite IH. split.
    + intros [[post E] | (pre & post & E)].
      * now exists "", post.
      * exists (String b pre), post. simpl. now rewrite E.
    + intros (pre & post & E). destruct pre as [|c pre].
      * left. now exists post.
      * right. injection E as _ E. now exists pre, post.
Qed.

(** X17.  [sbh <host>] and [swh <host>] select, in the order of the
    list, exactly the entries of the blacklist or whitelist in which the
    text occurs (as a substring, letter case kept), put the cursor on page
    0, and print and change nothing else; without a host they return 1
    after one error line and leave the selection as it was. *)
Theorem select_by_host_takes_occurrences (which : list_name) (host : string)
  (w : world) :
  (host <> "" ->
   exists found caption,
     select_matching which host w =
       Returns None
         (with_selection {| picked := Matches which found;
                            title := Some caption; page := 0 |} w) /\
     found = filter (Str.contains host) (global_list which w) /\
     forall e, In e found <->
       In e (global_list which w) /\
       exists pre post, e = pre ++ host ++ post) /\
  (exists msg,
     select_matching which "" w =
       Returns (Some 1) (with_history (history w ++ [Print Error msg]) w)).
Proof.
  split.
  - intros NE.
    destruct (select_matching_run which host w) as (caption & E).
    { destruct host; [congruence | reflexivity]. }
    eexists _, caption. split; [exact E|]. split; [reflexivity|].
    intros e. now rewrite filter_In, contains_occurs.
  - destruct which; eexists; reflexivity.
Qed.

Lemma select_by_host_takes_occurrences_witness :
  exists caption,
    select_matching BL "example.com" Scenario.three_hosts =
      Returns None
        (with_selection
           {| picked := Matches BL ["ads.example.com"; "cdn.example.com"];
              title := Some caption; page := 0 |} Scenario.three_hosts).
Proof.
  destruct (proj1 (select_by_host_takes_occurrences BL "example.com"
                     Scenario.three_hosts) ltac:(discriminate))
    as (found & caption & E & -> & _).
  exists caption. exact E.
Defined.

(** ** What the store holds after the statements *)

Lemma same_key_key (c d : cookie) : same_key c d = true <-> key c = key d.
Proof.
  unfold same_key, key. rewrite !andb_true_iff, !String.eqb_eq.
  split; [intros [[-> ->] ->]; reflexivity | intros [= -> -> ->]; auto].
Qed.

Lemma delete_rows_filter (cs tbl : list cookie) :
  delete_rows cs tbl =
    filter (fun d => negb (existsb (fun c => same_key c d) cs)) tbl.
Proof.
  unfold delete_rows. revert tbl.
  induction cs as [|c cs IH]; intros tbl; cbn [fold_left existsb].
  - induction tbl as [|d tbl IHt]; [reflexivity|]. cbn. now f_equal.
  - rewrite IH. clear IH.
    induction tbl as [|d tbl IHt]; [reflexivity|]. cbn [filter].
    destruct (same_key c d); cbn [negb orb filter]; [exact IHt|].
    destruct (existsb _ cs); cbn [negb]; now rewrite IHt.
Qed.

Lemma delete_rows_in (cs tbl : list cookie) (d : cookie) :
  In d (delete_rows cs tbl) <->
  In d tbl /\ forall c, In c cs -> key c <> key d.
Proof.
  rewrite delete_rows_filter, filter_In, negb_true_iff.
  rewrite <- not_true_iff_false, existsb_exists.
  split; intros [I H]; (split; [exact I|]).
  - intros c Hc K. apply H. exists c. now rewrite same_key_key.
  - intros (c & Hc & K). apply (H c Hc). now apply same_key_key.
Qed.

(** X18.  [cookie_delete] on a store that answers: one [DELETE] for each
    cookie handed over, in order; afterwards the table holds, in their
    order, exactly the rows whose key (host, name, path) is the key of none
    of them, so every row that shares a key goes and every other row
    stays; the selection and the lists are not touched; and the same
    statements once more change nothing in the table. *)
Theorem cookie_delete_by_key (cs tbl : list cookie) (w : world) :
  db w = Table tbl ->
  exists w' left,
    cookie_delete cs w = Returns tt w' /\
    db w' = Table left /\
    left = filter (fun d => negb (existsb (fun c => same_key c d) cs)) tbl /\
    (forall d, In d left <->
       In d tbl /\ forall c, In c cs -> key c <> key d) /\
    store_deletions (since w w') = map key cs /\
    selection w' = selection w /\
    whitelist w' = whitelist w /\ blacklist w' = blacklist w /\
    db (final (cookie_delete cs w')) = Table left.
Proof.
  intros D. rewrite (cookie_delete_run cs w tbl D).
  eexists _, (delete_rows cs tbl). split; [reflexivity|].
  split; [reflexivity|]. split; [apply delete_rows_filter|].
  split; [intros d; apply delete_rows_in|].
  split.
  { erewrite since_app by reflexivity. apply store_deletions_sql. }
  repeat (split; [reflexivity|]).
  erewrite cookie_delete_run by reflexivity. cbn [final db with_history with_db].
  f_equal. rewrite !delete_rows_filter, filter_twice. reflexivity.
Qed.

Lemma cookie_delete_by_key_witness :
  exists w',
    cookie_delete [Sample.b; Sample.d] Scenario.five = Returns tt w' /\
    db w' = Table [Sample.a; Sample.c; Sample.e].
Proof.
  destruct (cookie_delete_by_key [Sample.b; Sample.d]
              [Sample.a; Sample.b; Sample.c; Sample.d; Sample.e]
              Scenario.five eq_refl) as (w' & left & E & D & -> & _).
  exists w'. split; [exact E | exact D].
Defined.

(** ** The selection and the store stay in step *)









(** ** Leaving *)

(** X20.  [q] and [x] never return.  [q] writes the whitelist, then the
    blacklist, as they are in memory, and only then runs [VACUUM]; when
    the store does not answer it ends in the database error with both
    files written.  [x] writes no file.  Both end the program with status
    0 when the store answers, and neither changes the lists, the
    selection or the table. *)
Theorem quit_writes_lists_exit_does_not (w : world) :
  let ending :=
    match db w with Table _ => SystemExit 0 | Unreadable => DatabaseError end in
  let vacuumed :=
    match db w with Table _ => [SqlVacuum] | Unreadable => [] end in
  (exists w',
     cmd_quit w = Raises ending w' /\
     since w w' =
       ([WriteFile WL (whitelist w); WriteFile BL (blacklist w)] ++
        vacuumed)%list /\
     wl_file w' = Some (whitelist w) /\ bl_file w' = Some (blacklist w) /\
     whitelist w' = whitelist w /\ blacklist w' = blacklist w /\
     selection w' = selection w /\ db w' = db w) /\
  (exists w',
     cmd_exit w = Raises ending w' /\
     since w w' = vacuumed /\
     wl_file w' = wl_file w /\ bl_file w' = bl_file w /\
     whitelist w' = whitelist w /\ blacklist w' = blacklist w /\
     selection w' = selection w /\ db w' = db w).
Proof.
  intros ending vacuumed. subst ending vacuumed.
  unfold cmd_quit, cmd_exit, shutdown, save_json_file, vacuum, bind, gets,
    emit, raise, ret.
  unfold modify. cbn [db with_history with_file history].
  split; destruct (db w) eqn:D; eexists; (split; [reflexivity|]);
    (split; [|cbn; rewrite ?D; auto 10]);
    cbn [history with_history with_file global_list];
    rewrite <- ?app_assoc;
    try (erewrite since_app by reflexivity; reflexivity).
  all: unfold since; now rewrite skipn_all.
Qed.

(** ** What [db] removes *)







(** X22.  [de] and [db] work on cookie selections only: on a whitelist
    or blacklist selection, and also when nothing is selected, each prints
    one warning, returns 1 and changes nothing, where [da] would empty the
    list. *)
Theorem expired_and_blacklist_need_cookies (w : world) :
  type_is_cookies w = false ->
  exists msg,
    cmd_delete_by_expired w =
      Returns (Some 1) (with_history (history w ++ [Print Warning msg]) w) /\
    cmd_delete_by_blacklist w =
      Returns (Some 1) (with_history (history w ++ [Print Warning msg]) w).
Proof.
  intros T. eexists.
  unfold cmd_delete_by_expired, cmd_delete_by_blacklist.
  rewrite !(bind_returns _ _ w w false) by (unfold gets; now rewrite T).
  split; reflexivity.
Qed.

Lemma expired_and_blacklist_need_cookies_witness :
  exists msg,
    cmd_delete_by_expired (final (select_whole BL Scenario.three_hosts)) =
      Returns (Some 1)
        (with_history [Print Warning msg]
           (final (select_whole BL Scenario.three_hosts))) /\
    cmd_delete_by_blacklist (final (select_whole BL Scenario.three_hosts)) =
      Returns (Some 1)
        (with_history [Print Warning msg]
           (final (select_whole BL Scenario.three_hosts))).
Proof.
  exact (expired_and_blacklist_need_cookies
           (final (select_whole BL Scenario.three_hosts)) eq_refl).
Defined.

(** ** Reading a statement *)

Lemma skip_all (t1 : ascii -> bool) (t2 : ascii -> ascii -> bool)
  (t3 : ascii -> ascii -> ascii -> bool) (s : string) :
  Str.all t1 s = true -> Text.skip t1 t2 t3 s = "".
Proof.
  unfold Str.all. induction s as [|a s IH]; [reflexivity|].
  cbn. intros [-> H]%andb_true_iff. now apply IH.
Qed.

Lemma visible_is_no_space (x : ascii) :
  visible x = true ->
  Text.space1 x = false /\
  (forall y, Text.space2 x y = false /\ Text.space2 y x = false) /\
  (forall y z, Text.space3 x y z = false /\ Text.space3 z y x = false).
Proof.
  unfold visible, Text.space1, Text.space2, Text.space3.
  intros [L U]%andb_true_iff. apply Nat.leb_le in L, U.
  assert (E : forall k, (k < 33 \/ 126 < k)%nat ->
                        (Text.code x =? k)%nat = false)
    by (intros k H; apply Nat.eqb_neq; lia).
  pose proof (E 194%nat ltac:(lia)) as E1.
  pose proof (E 225%nat ltac:(lia)) as E2.
  pose proof (E 226%nat ltac:(lia)) as E3.
  pose proof (E 227%nat ltac:(lia)) as E4.
  pose proof (E 133%nat ltac:(lia)) as E5.
  pose proof (E 160%nat ltac:(lia)) as E6.
  pose proof (E 128%nat ltac:(lia)) as E7.
  pose proof (E 168%nat ltac:(lia)) as E8.
  pose proof (E 169%nat ltac:(lia)) as E9.
  pose proof (E 175%nat ltac:(lia)) as E10.
  pose proof (E 159%nat ltac:(lia)) as E11.
  assert (G : (128 <=? Text.code x)%nat = false) by (apply Nat.leb_gt; lia).
  assert (S1 : (Text.code x <=? 13)%nat = false) by (apply Nat.leb_gt; lia).
  assert (S2 : (Text.code x <=? 32)%nat = false) by (apply Nat.leb_gt; lia).
  repeat split;
    rewrite ?S1, ?S2, ?E1, ?E2, ?E3, ?E4, ?E5, ?E6, ?E7, ?E8, ?E9, ?E10,
      ?E11, ?G;
    rewrite ?andb_false_r, ?orb_false_r; cbn;
    rewrite ?andb_false_r, ?orb_false_r; reflexivity.
Qed.

Lemma skip_visible (x : ascii) (s : string) :
  visible x = true ->
  Text.lstrip (String x s) = String x s /\
  Text.skip Text.space1 (fun b a => Text.space2 a b)
    (fun c b a => Text.space3 a b c) (String x s) = String x s.
Proof.
  intros V. destruct (visible_is_no_space x V) as (S1 & S2 & S3).
  unfold Text.lstrip. cbn [Text.skip]. rewrite S1.
  destruct s as [|y [|z s]]; auto;
    rewrite ?(proj1 (S2 _)), ?(proj2 (S2 _)); auto;
    rewrite ?(proj1 (S3 _ _)), ?(proj2 (S3 _ _)); auto.
Qed.

Lemma reverse_snoc (s : string) (b : ascii) :
  Text.reverse (s ++ String b "") = String b (Text.reverse s).
Proof.
  unfold Text.reverse.
  replace (list_ascii_of_string (s ++ String b ""))
    with (list_ascii_of_string s ++ [b])%list.
  - now rewrite rev_app_distr.
  - induction s as [|a s IH]; [reflexivity|]. cbn. now rewrite IH.
Qed.

Lemma reverse_twice (s : string) : Text.reverse (Text.reverse s) = s.
Proof.
  unfold Text.reverse.
  now rewrite list_ascii_of_string_of_list_ascii, rev_involutive,
    string_of_list_ascii_of_string.
Qed.

(** A text that begins and ends with a visible character has nothing to
    strip. *)
Lemma strip_visible_ends (a b : ascii) (mid : string) :
  visible a = true -> visible b = true ->
  Text.strip (String a "") = String a "" /\
  Text.strip (String a (mid ++ String b "")) = String a (mid ++ String b "").
Proof.
  intros A B. unfold Text.strip, Text.rstrip. split.
  - rewrite (proj1 (skip_visible a "" A)).
    change (Text.reverse (String a "")) with (String a "").
    now rewrite (proj2 (skip_visible a "" A)).
  - rewrite (proj1 (skip_visible a _ A)).
    change (String a (mid ++ String b "")) with (String a mid ++ String b "").
    rewrite reverse_snoc, (proj2 (skip_visible b _ B)).
    now rewrite <- reverse_snoc, reverse_twice.
Qed.

(** ** What the commands return *)

Lemma status_ret (r : retval) :
  r = None \/ r = Some 0 \/ r = Some 1 -> status_only (ret r).
Proof. intros H w r' w' [= <- _]. exact H. Qed.

Lemma status_raise (e : exn) : status_only (raise e).
Proof. intros w r w' [=]. Qed.

Lemma status_bind {A} (m : M A) (k : A -> M retval) :
  (forall a, status_only (k a)) -> status_only (bind m k).
Proof.
  intros H w r w' E. unfold bind in E.
  destruct (m w) as [a w1|e w1]; [now apply (H a w1 r w') | discriminate].
Qed.

Lemma status_err (msg : string) (k : Z -> M retval) :
  status_only (k 1) -> status_only (bind (err msg) k).
Proof. intros H w r w' E. exact (H _ r w' E). Qed.

Lemma status_warn (msg : string) (k : Z -> M retval) :
  status_only (k 1) -> status_only (bind (warn msg) k).
Proof. intros H w r w' E. exact (H _ r w' E). Qed.

Lemma validate_failure (specs : list string) :
  forall (idxs : list Z) (w : world) (r : Z) (w' : world),
    validate specs idxs w = Returns (inl r) w' -> r = 1.
Proof.
  induction specs as [|spec rest IH]; intros idxs w r w' H;
    cbn [validate] in H; [discriminate|].
  destruct (negb (Re.match_spec_chars spec)); [now injection H as <- _|].
  destruct (Re.match_range spec).
  { destruct (map Num.int (Str.split "-" spec)) as [|[a|] [|[b|] [|? ?]]];
      try discriminate.
    unfold bind at 1 in H.
    destruct (out_of_range a b w) as [[] w1|e w1]; try discriminate.
    - now injection H as <- _.
    - now apply IH in H. }
  destruct (Re.match_single spec); [|now injection H as <- _].
  destruct (Num.int spec) as [n|]; [|discriminate].
  unfold bind at 1 in H.
  destruct (out_of_range n n w) as [[] w1|e w1]; try discriminate.
  - now injection H as <- _.
  - now apply IH in H.
Qed.

Ltac status_step :=
  first
    [ apply status_ret; auto
    | apply status_raise
    | apply status_err; cbn beta
    | apply status_warn; cbn beta
    | apply status_bind; intros
    | match goal with
      | |- status_only (if ?b then _ else _) => destruct b
      end ].

Ltac status := repeat status_step.

Lemma status_cookie_list : status_only cookie_list.
Proof. unfold cookie_list. status. Qed.

Lemma status_list : status_only cmd_list.
Proof.
  intros w r w' E. unfold cmd_list in E.
  destruct (data w) as [l|] eqn:D.
  - destruct (type_is_cookies w).
    + exact (status_cookie_list w r w' E).
    + unfold bw_list, bind, page_size, gets in E. rewrite D in E.
      injection E as <- _. auto.
  - injection E as <- _. auto.
Qed.

Lemma status_count : status_only cmd_count.
Proof. unfold cmd_count. status. Qed.

Lemma status_next_page : status_only cmd_next_page.
Proof. unfold cmd_next_page. status; apply status_list. Qed.

Lemma status_prev_page : status_only cmd_prev_page.
Proof. unfold cmd_prev_page. status; apply status_list. Qed.

Lemma status_select_cookies_all : status_only cmd_select_cookies_all.
Proof. unfold cmd_select_cookies_all. status. Qed.

Lemma status_select_all (which : list_name) (caption : string) :
  status_only (select_all which caption).
Proof. unfold select_all. status. Qed.

Lemma status_select_by_host (which : list_name) (caption : string)
  (host : option string) :
  status_only (select_by_host which caption host).
Proof. unfold select_by_host, err_arg. status. Qed.

Lemma status_add_host (host : option string) : status_only (cmd_add_host host).
Proof. unfold cmd_add_host, err_arg. status. Qed.

Lemma status_delete_by_number (number_range : option string) :
  status_only (cmd_delete_by_number number_range).
Proof.
  unfold cmd_delete_by_number, err_arg.
  destruct (missing number_range); [status|].
  intros w r w' E. unfold bind at 1 in E.
  destruct (validate _ _ w) as [[x|idxs] w1|e w1] eqn:V; [| |discriminate].
  - apply validate_failure in V as ->. injection E as <- _. auto.
  - assert (T : status_only (
      cookies <- gets type_is_cookies ;;
      (if cookies then
         to_del <- mapM (fun i => cookie_getitem (i - 1)) idxs ;;
         cookie_delete to_del
       else ret tt) ;;;
      ct <- delete_numbered (Num.sorted_desc idxs) 0 ;;
      deleted_message ct ;;;
      ret None)) by status.
    exact (T w1 r w' E).
Qed.

Lemma status_delete_all : status_only cmd_delete_all.
Proof. unfold cmd_delete_all. status. Qed.

Lemma status_cookies_only_warning : status_only cookies_only_warning.
Proof. unfold cookies_only_warning. status. Qed.

Lemma status_delete_by_expired : status_only cmd_delete_by_expired.
Proof.
  unfold cmd_delete_by_expired. status.
Qed.

Lemma status_delete_by_blacklist : status_only cmd_delete_by_blacklist.
Proof.
  unfold cmd_delete_by_blacklist. apply status_bind. intros cookies.
  destruct (negb cookies); [apply status_cookies_only_warning|].
  apply status_bind. intros bl. apply status_bind. intros [|i idxs].
  - status.
  - apply status_delete_by_number.
Qed.

Lemma status_shutdown (save : bool) : status_only (shutdown save).
Proof. unfold shutdown. status. Qed.

(** ** Statements and their dispatch *)

Lemma lookup_cases (key : string) (d : list (string * entry)) :
  lookup key d = None \/ exists v, In (key, v) d /\ lookup key d = Some v.
Proof.
  induction d as [|[k v] d IH]; [now left|]. cbn [lookup].
  destruct (String.eqb_spec key k) as [-> | N].
  - right. exists v. split; [now left | reflexivity].
  - destruct IH as [IH | (v' & I & E)]; [now left|].
    right. exists v'. split; [now right | exact E].
Qed.

Lemma call_status (m : M retval) (w : world) (rv : Z) (w' : world) :
  status_only m ->
  (r <- m ;; ret (or_zero r)) w = Returns rv w' -> rv = 0 \/ rv = 1.
Proof.
  intros S E. unfold bind in E. destruct (m w) as [r w1|e w1] eqn:R;
    [|discriminate].
  injection E as <- _. destruct (S w r w1 R) as [-> | [-> | ->]]; auto.
Qed.

Section Statements.

Variables cmd_help cmd_view cmd_select_cookies_by_host
  : option string -> M retval.

Let table := COMMANDS cmd_help cmd_view cmd_select_cookies_by_host.
Let dispatch' := dispatch cmd_help cmd_view cmd_select_cookies_by_host.
Let handle := handle_statement cmd_help cmd_view cmd_select_cookies_by_host.
Let process := process_input cmd_help cmd_view cmd_select_cookies_by_host.

Ltac known :=
  match goal with
  | E : _ = Returns _ _ |- _ =>
      apply call_status in E; [exact E|];
      first [ apply status_select_cookies_all | apply status_select_all
            | apply status_select_by_host | apply status_list
            | apply status_count | apply status_next_page
            | apply status_prev_page | apply status_add_host
            | apply status_delete_by_number | apply status_delete_all
            | apply status_delete_by_expired | apply status_delete_by_blacklist
            | apply status_shutdown ]
  end.

(** Whatever the command word, unless it names one of the three commands
    left open, the dispatch returns 0 or 1 when it returns. *)
Lemma dispatch_status (cmd : string) (args : list string) (w : world)
  (rv : Z) (w' : world) :
  ~ In cmd ["h"; "v"; "sch"] ->
  dispatch' cmd args w = Returns rv w' -> rv = 0 \/ rv = 1.
Proof.
  intros N E. unfold dispatch', dispatch in E.
  destruct (Str.nonempty cmd) eqn:NE; cbn [negb] in E;
    [|injection E as <- _; auto].
  fold table in E.
  destruct (lookup_cases cmd table) as [L | (v & I & L)].
  - rewrite L in E. cbn [negb] in E. rewrite orb_true_r in E.
    destruct (lookup_cases (">" ++ cmd) table) as [L' | (v' & I' & L')];
      rewrite L' in E.
    + injection E as <- _. auto.
    + unfold table, COMMANDS in I'. cbn [In] in I'.
      repeat (destruct I' as [I' | I']; [try discriminate I'|]);
        [|destruct I'].
      injection I' as <- <-. cbn in E. known.
  - unfold table, COMMANDS in I. cbn [In] in I.
    repeat (destruct I as [I | I];
            [injection I as <- <-; try (now destruct N; cbn; auto);
             cbn in E; first [known | injection E as <- _; auto]|]).
    destruct I.
Qed.

Lemma strip_blank (s : string) :
  Str.all Text.space1 s = true -> Text.strip s = "".
Proof.
  intros H. unfold Text.strip, Text.lstrip. now rewrite skip_all.
Qed.

(** X23.  A statement of spaces, tabs and line ends only, and so the
    empty statement that two semicolons in a row or a semicolon at the end
    leave, does nothing and returns 0. *)
Theorem blank_statement_does_nothing (stmt : string) (w : world) :
  Str.all Text.space1 stmt = true ->
  handle stmt w = Returns 0 w.
Proof.
  intros H. unfold handle, handle_statement. now rewrite (strip_blank stmt H).
Qed.

(** X24.  A command word that is not a key of [COMMANDS], and also one
    that is the key of a group title ([#1] to [#6]) or of an alias
    ([>ls]), is answered with one error line and the value 0; the only
    word that is no key and still runs a command is [ls]. *)
Theorem unknown_command_reported (stmt : string) (w : world) :
  let cmd := command_word stmt in
  Str.nonempty cmd = true ->
  cmd <> "ls" ->
  lookup cmd table = None \/
  Str.startswith_char "#" cmd = true \/ Str.startswith_char ">" cmd = true ->
  handle stmt w =
    Returns 0
      (with_history
         (history w ++ [Print Error "Unknown command. Try 'h' for help."]) w).
Proof.
  intros cmd NE N U. unfold handle, handle_statement.
  fold (command_word stmt). fold cmd. unfold dispatch. rewrite NE.
  cbn [negb]. fold table.
  replace (_ || _ || _) with true.
  2:{ symmetry. destruct U as [-> | [-> | ->]]; cbn;
        rewrite ?orb_true_r; reflexivity. }
  destruct (lookup_cases (">" ++ cmd) table) as [-> | (v & I & _)];
    [reflexivity|].
  unfold table, COMMANDS in I. cbn [In] in I.
  repeat (destruct I as [I | I]; [try discriminate I|]); [|destruct I].
  injection I as I _. now destruct N.
Qed.

Lemma visible_is_not_space (a : ascii) :
  visible a = true -> is_not " " a = true.
Proof.
  intros V. unfold is_not. destruct (Ascii.eqb_spec a " ") as [-> | _];
    [discriminate | reflexivity].
Qed.

Lemma string_last (s : string) :
  Str.nonempty s = true -> exists init last, s = init ++ String last "".
Proof.
  induction s as [|a s IH]; [discriminate|]. intros _.
  destruct s as [|b s].
  - now exists "", a.
  - destruct (IH eq_refl) as (init & last & E).
    exists (String a init), last. cbn. now rewrite E.
Qed.

Lemma visible_last (s : string) (last : ascii) :
  Str.all visible (s ++ String last "") = true -> visible last = true.
Proof.
  intros H. rewrite all_app in H.
  apply andb_true_iff in H as [_ H]. unfold Str.all in H. cbn in H.
  now rewrite andb_true_r in H.
Qed.

(** X25.  [dn] and its argument: after [dn], one space and an argument of
    visible characters the command is called with that argument, and its
    [None] becomes 0; after two spaces the first argument is the empty
    text, so that the command reports its argument as missing and returns
    1, as it does without an argument. *)
Theorem delete_statement_argument (arg : string) (w : world) :
  Str.nonempty arg = true -> Str.all visible arg = true ->
  handle ("dn " ++ arg) w =
    (r <- cmd_delete_by_number (Some arg) ;; ret (or_zero r)) w /\
  handle ("dn  " ++ arg) w = handle "dn" w /\
  handle "dn" w =
    Returns 1
      (with_history
         (history w ++
          [Print Error "Missing required argument: [hl]number_range[/hl]"])
         w).
Proof.
  intros Na Va.
  assert (Sp : Str.split " " arg = [arg]).
  { apply split_without.
    apply (all_impl visible); [apply visible_is_not_space | exact Va]. }
  destruct (string_last arg Na) as (init & last & E).
  assert (L : visible last = true) by (apply (visible_last init); congruence).
  assert (S1 : Text.strip ("dn " ++ arg) = "dn " ++ arg).
  { rewrite E. now apply (strip_visible_ends "d" last ("n " ++ init)). }
  assert (S2 : Text.strip ("dn  " ++ arg) = "dn  " ++ arg).
  { rewrite E. now apply (strip_visible_ends "d" last ("n  " ++ init)). }
  unfold handle, handle_statement. rewrite S1, S2.
  change ("dn " ++ arg) with ("dn" ++ String " " arg).
  change ("dn  " ++ arg) with ("dn" ++ String " " ("" ++ String " " arg)).
  rewrite !split_at_first, Sp by reflexivity.
  repeat split.
Qed.

(** X26.  The statements of an input line are all run, in the order
    written, whatever the earlier ones returned: when none of them names
    one of the three commands left open, [process_input] is the statements
    one after the other, it returns 0 when it returns, and only an
    exception ends it early. *)
Theorem statements_all_run (inp : string) (w : world) :
  Forall (fun stmt => ~ In (command_word stmt) ["h"; "v"; "sch"])
    (Str.split ";" inp) ->
  process inp w = (mapM handle (Str.split ";" inp) ;;; ret 0) w /\
  forall rv w', process inp w = Returns rv w' -> rv = 0.
Proof.
  intros F.
  assert (E : process inp w = (mapM handle (Str.split ";" inp) ;;; ret 0) w).
  { unfold process, process_input. revert w.
    induction F as [|stmt rest N F IH]; intros w; [reflexivity|].
    cbn [run_statements mapM]. fold handle. unfold bind.
    destruct (handle stmt w) as [rv w1|e w1] eqn:H; [|reflexivity].
    specialize (IH w1). unfold bind in IH.
    destruct (dispatch_status _ _ _ _ _ N H) as [-> | ->];
      cbn [Z.ltb Z.compare]; rewrite IH;
      now destruct (mapM handle rest w1). }
  split; [exact E|]. intros rv w' R. rewrite E in R. unfold bind in R.
  destruct (mapM handle _ w); [now injection R as <- _ | discriminate].
Qed.

(** X27.  [q] and [x] end the input: the statements after them are not
    run, and [process_input] does not return. *)
Theorem quit_ends_the_input (rest : string) (w : world) :
  process ("q;" ++ rest) w = (cmd_quit ;;; ret 0) w /\
  process ("x;" ++ rest) w = (cmd_exit ;;; ret 0) w /\
  (forall rv w', process ("q;" ++ rest) w <> Returns rv w') /\
  (forall rv w', process ("x;" ++ rest) w <> Returns rv w').
Proof.
  assert (Q : forall save, exists e w', shutdown save w = Raises e w').
  { intros save.
    destruct (shutdown save w) as [r w1|e w1] eqn:S; [|eauto].
    exfalso. revert S. unfold shutdown, bind, raise.
    destruct save;
      repeat match goal with
             | |- context [match ?m with Returns _ _ => _ | Raises _ _ => _ end] =>
                 destruct m
             end; discriminate. }
  destruct (Q true) as (e1 & w1 & S1). destruct (Q false) as (e2 & w2 & S2).
  assert (P1 : process ("q;" ++ rest) w = Raises e1 w1).
  { unfold process, process_input.
    change ("q;" ++ rest) with ("q" ++ String ";" rest).
    rewrite split_at_first by reflexivity. cbn [run_statements].
    apply bind_raises.
    change (handle_statement cmd_help cmd_view cmd_select_cookies_by_host "q")
      with (r <- cmd_quit ;; ret (or_zero r)).
    now apply bind_raises. }
  assert (P2 : process ("x;" ++ rest) w = Raises e2 w2).
  { unfold process, process_input.
    change ("x;" ++ rest) with ("x" ++ String ";" rest).
    rewrite split_at_first by reflexivity. cbn [run_statements].
    apply bind_raises.
    change (handle_statement cmd_help cmd_view cmd_select_cookies_by_host "x")
      with (r <- cmd_exit ;; ret (or_zero r)).
    now apply bind_raises. }
  rewrite P1, P2.
  rewrite (bind_raises cmd_quit _ w w1 e1 S1).
  rewrite (bind_raises cmd_exit _ w w2 e2 S2).
  repeat split; discriminate.
Qed.

End Statements.

Lemma blank_statement_does_nothing_witness :
  handle_statement not_called not_called not_called "  " Scenario.five =
    Returns 0 Scenario.five.
Proof.
  exact (blank_statement_does_nothing not_called not_called not_called
           "  " Scenario.five eq_refl).
Defined.

Lemma unknown_command_reported_witness :
  handle_statement not_called not_called not_called "#5 2" Scenario.five =
    Returns 0
      (with_history
         (history Scenario.five ++
          [Print Error "Unknown command. Try 'h' for help."]) Scenario.five).
Proof.
  apply (unknown_command_reported not_called not_called not_called "#5 2").
  - reflexivity.
  - discriminate.
  - right. now left.
Defined.

Lemma delete_statement_argument_witness :
  handle_statement not_called not_called not_called "dn 2,4-5" Scenario.five =
    (r <- cmd_delete_by_number (Some "2,4-5") ;; ret (or_zero r))
      Scenario.five.
Proof.
  exact (proj1 (delete_statement_argument not_called not_called not_called
                  "2,4-5" Scenario.five eq_refl eq_refl)).
Defined.

Lemma statements_all_run_witness :
  process_input not_called not_called not_called "dn 9;sba;da"
    Scenario.five =
  (mapM (handle_statement not_called not_called not_called)
     ["dn 9"; "sba"; "da"] ;;; ret 0) Scenario.five.
Proof.
  apply (statements_all_run not_called not_called not_called "dn 9;sba;da").
  repeat constructor; vm_compute; intuition discriminate.
Defined.

(** ** What [dn] prints, and what [c] counts afterwards *)








